(** * A block-based file system: inode, directory and storage layers

    A shallow embedding of [inode.c], [directory.c] and [storage.c].

    The C code works on one memory-mapped disk image.  The embedding keeps
    the parts of that image as separate components of a state record: the
    two bitmaps, the inode table and the block contents.  Pointers are
    modelled by the indices they are computed from: an [inode_t *] is the
    inode number handed to [get_inode], a block pointer is the block number
    handed to [blocks_get_block].  Neither function checks its index (both
    are pointer arithmetic), so the tables are total maps over [Z]; the
    theorems that need an index to be in range say so. *)

From Stdlib Require Import ZArith List String Ascii Bool Lia.
From Stdlib Require Import Strings.Byte.
Import ListNotations.
Local Open Scope Z_scope.

(** ** C integer conversions *)

Definition INT_MAX : Z := 2147483647.

(** Conversion to [int] (32 bits, two's complement). *)
Definition to_int (z : Z) : Z :=
  (z + 2147483648) mod 4294967296 - 2147483648.

(** Conversion to [size_t] (64 bits, unsigned). *)
Definition to_size_t (z : Z) : Z := z mod 18446744073709551616.

(** Conversion to [mode_t] (32 bits, unsigned). *)
Definition to_mode_t (z : Z) : Z := z mod 4294967296.

(** [errno.h] *)
Definition ENOENT : Z := 2.
Definition EEXIST : Z := 17.

(** ** Constants and types of the headers that are not under src

    [blocks.h] and [directory.h] are not part of the sources at hand, so the
    constants they define are parameters of the development. *)

Class Layout := {
  (** [blocks.h]: size of a block in bytes, an [int] constant *)
  BLOCK_SIZE : Z;
  (** [blocks.h]: number of blocks, and of bits in either bitmap *)
  BLOCK_COUNT : Z;
  (** [directory.h]: length of the [name] field of a directory entry *)
  DIR_NAME_LENGTH : nat;
  (** [sizeof(dirent_t)] *)
  SIZEOF_DIRENT : Z;
  (** Result of [strcmp(entry.name, s) == 0] when the [name] field holds
      [DIR_NAME_LENGTH] characters and therefore no terminating NUL: the
      comparison runs on into the bytes after the field, so its result
      depends on the layout of [dirent_t]. *)
  name_overrun : string -> Z -> Z -> string -> bool;
  BLOCK_SIZE_range : 0 < BLOCK_SIZE <= 1073741823;
  BLOCK_COUNT_range : 0 < BLOCK_COUNT <= INT_MAX;
  SIZEOF_DIRENT_range : 0 < SIZEOF_DIRENT <= INT_MAX;
  (** the 64 entries that [directory_lookup] scans lie in one block *)
  dirents_fit : 64 * SIZEOF_DIRENT <= BLOCK_SIZE
}.

(** ** Data model *)

(** [inode.h]: [struct inode]; [pointers] is the array [int pointers[2]],
    indexed as the code indexes it. *)
Record inode_t := mk_inode {
  refs : Z;
  mode : Z;
  size : Z;
  block : Z;
  pointers : Z -> Z
}.

(** [directory.h]: [dirent_t], with the fields the code uses. *)
Record dirent_t := mk_dirent {
  name : string;
  inum : Z;
  input_allocation : Z
}.

(** The contents of one block.  The code reads a block at three types: as
    bytes of file data, as an array of [int] (the indirect block) and as an
    array of [dirent_t] (a directory).  Each reading is a component of its
    own; how the bytes of one overlay another is a matter of memory layout
    and is not part of the model. *)
Record block_t := mk_block {
  b_data : Z -> byte;
  b_ptrs : Z -> Z;
  b_dirents : Z -> dirent_t
}.

(** The disk image: block bitmap and inode bitmap (both in block 0), the
    inode table that follows them, and the blocks.  The four are components
    of their own.  They stand for the memory of the image as long as bits
    and inodes are addressed by numbers from 0 to [BLOCK_COUNT - 1],
    [pointers] by index 0 or 1, and the blocks read and written as data, as
    directory entries or as block numbers are data blocks; outside that
    range the code reaches neighbouring memory (another field, the bitmaps,
    the inode table), which the model does not follow. *)
Record fs := mk_fs {
  blocks_bitmap : Z -> bool;
  inode_bitmap : Z -> bool;
  inodes : Z -> inode_t;
  blocks : Z -> block_t
}.

(** The fields of [struct stat] that [storage_stat] writes. *)
Record stat_t := mk_stat {
  st_nlink : Z;
  st_mode : Z;
  st_size : Z
}.

(** Update of a total map at one index. *)
Definition upd {A : Type} (f : Z -> A) (k : Z) (v : A) : Z -> A :=
  fun j => if j =? k then v else f j.

Definition set_refs (v : Z) (n : inode_t) : inode_t :=
  mk_inode v (mode n) (size n) (block n) (pointers n).
Definition set_mode (v : Z) (n : inode_t) : inode_t :=
  mk_inode (refs n) v (size n) (block n) (pointers n).
Definition set_size (v : Z) (n : inode_t) : inode_t :=
  mk_inode (refs n) (mode n) v (block n) (pointers n).
Definition set_block (v : Z) (n : inode_t) : inode_t :=
  mk_inode (refs n) (mode n) (size n) v (pointers n).
Definition set_pointer (i v : Z) (n : inode_t) : inode_t :=
  mk_inode (refs n) (mode n) (size n) (block n) (upd (pointers n) i v).

Definition set_input_allocation (v : Z) (e : dirent_t) : dirent_t :=
  mk_dirent (name e) (inum e) v.

Definition set_b_data (d : Z -> byte) (b : block_t) : block_t :=
  mk_block d (b_ptrs b) (b_dirents b).
Definition set_b_ptrs (p : Z -> Z) (b : block_t) : block_t :=
  mk_block (b_data b) p (b_dirents b).
Definition set_b_dirents (d : Z -> dirent_t) (b : block_t) : block_t :=
  mk_block (b_data b) (b_ptrs b) d.

Definition set_blocks_bitmap (bm : Z -> bool) (s : fs) : fs :=
  mk_fs bm (inode_bitmap s) (inodes s) (blocks s).
Definition set_inode_bitmap (bm : Z -> bool) (s : fs) : fs :=
  mk_fs (blocks_bitmap s) bm (inodes s) (blocks s).
Definition set_inodes (t : Z -> inode_t) (s : fs) : fs :=
  mk_fs (blocks_bitmap s) (inode_bitmap s) t (blocks s).
Definition set_blocks (b : Z -> block_t) (s : fs) : fs :=
  mk_fs (blocks_bitmap s) (inode_bitmap s) (inodes s) b.

(** ** The state monad of the file system

    All state of the C program is the disk image, mutated in place; a C
    function becomes a computation that takes the image and returns its
    result with the new image. *)

Definition M (A : Type) : Type := fs -> A * fs.

Definition ret {A : Type} (a : A) : M A := fun s => (a, s).

Definition bind {A B : Type} (m : M A) (k : A -> M B) : M B :=
  fun s => let (a, s') := m s in k a s'.

Definition gets {A : Type} (f : fs -> A) : M A := fun s => (f s, s).

Definition modify (f : fs -> fs) : M unit := fun s => (tt, f s).

Declare Scope fs_scope.
Delimit Scope fs_scope with fs.
Notation "x <- m ;; k" := (bind m (fun x => k))
  (at level 61, m at next level, right associativity) : fs_scope.
Notation "m ;; k" := (bind m (fun _ => k))
  (at level 61, right associativity) : fs_scope.
Local Open Scope fs_scope.

(** [when c m]: [if (c) { m }] *)
Definition when (c : bool) (m : M unit) : M unit := if c then m else ret tt.

(** [for (int i = lo; n passes; ++i) body(i)] *)
Fixpoint for_up (n : nat) (i : Z) (body : Z -> M unit) : M unit :=
  match n with
  | O => ret tt
  | S n' => body i ;; for_up n' (i + 1) body
  end.

(** [for (int i = hi; n passes; i--) body(i)] *)
Fixpoint for_down (n : nat) (i : Z) (body : Z -> M unit) : M unit :=
  match n with
  | O => ret tt
  | S n' => body i ;; for_down n' (i - 1) body
  end.

(** ** Accessors: what the C code does through pointers *)

(** [get_inode(inum)] is [&start_node[inum]]: the pointer is the index. *)
Definition get_inode (inum : Z) : Z := inum.

(** [node->field] *)
Definition load {A : Type} (field : inode_t -> A) (node : Z) : M A :=
  gets (fun s => field (inodes s node)).

(** [node->field = v], with [set] one of the field updates above *)
Definition store (node : Z) (set : inode_t -> inode_t) : M unit :=
  modify (fun s => set_inodes (upd (inodes s) node (set (inodes s node))) s).

(** [node->size], for use where [size] names a parameter *)
Definition load_size (node : Z) : M Z := load size node.

(** [((int * ) blocks_get_block(bnum))[i]] *)
Definition load_ptr (bnum i : Z) : M Z :=
  gets (fun s => b_ptrs (blocks s bnum) i).

(** [((int * ) blocks_get_block(bnum))[i] = v] *)
Definition store_ptr (bnum i v : Z) : M unit :=
  modify (fun s =>
    set_blocks (upd (blocks s) bnum
                  (set_b_ptrs (upd (b_ptrs (blocks s bnum)) i v) (blocks s bnum))) s).

(** [((dirent_t * ) blocks_get_block(bnum))[i]] *)
Definition load_dirent (bnum i : Z) : M dirent_t :=
  gets (fun s => b_dirents (blocks s bnum) i).

(** [((dirent_t * ) blocks_get_block(bnum))[i] = e] *)
Definition store_dirent (bnum i : Z) (e : dirent_t) : M unit :=
  modify (fun s =>
    set_blocks (upd (blocks s) bnum
                  (set_b_dirents (upd (b_dirents (blocks s bnum)) i e) (blocks s bnum))) s).

(** The integers [lo], [lo + 1], ... ([n] of them). *)
Fixpoint iota (lo : Z) (n : nat) : list Z :=
  match n with
  | O => []
  | S n' => lo :: iota (lo + 1) n'
  end.

(** [memcpy(dst, blocks_get_block(bnum) + start, n)]: the bytes copied. *)
Definition memcpy_from_block (bnum start n : Z) : M (list byte) :=
  gets (fun s => map (b_data (blocks s bnum)) (iota start (Z.to_nat n))).

(** The bytes of a block after [data] has been copied to position [start]. *)
Definition overlay (old : Z -> byte) (start : Z) (data : list byte) : Z -> byte :=
  fun j =>
    if (start <=? j) && (j <? start + Z.of_nat (List.length data))
    then nth (Z.to_nat (j - start)) data x00
    else old j.

(** [memcpy(blocks_get_block(bnum) + start, src, n)], [data] being the [n]
    bytes at [src]. *)
Definition memcpy_to_block (bnum start : Z) (data : list byte) : M unit :=
  modify (fun s =>
    set_blocks (upd (blocks s) bnum
                  (set_b_data (overlay (b_data (blocks s bnum)) start data)
                              (blocks s bnum))) s).

(** ** The block store and the bitmap *)

(** Modelled from the spec: the generic bitmap ([bitmap.h], not under src),
    "bit-level get/set over an opaque buffer". *)
Definition bitmap_get (bm : Z -> bool) (i : Z) : Z := if bm i then 1 else 0.

Definition bitmap_put (bm : Z -> bool) (i : Z) (v : Z) : Z -> bool :=
  upd bm i (negb (v =? 0)).

Section FileSystem.

Context {L : Layout}.

(** Modelled from the spec: the block store's [alloc_block] ([blocks.h], not
    under src).  "Allocate" on an "array of fixed-size slots addressable by
    integer index", with "index 0 reserved per allocation policy": the first
    block from index 1 on whose bit is clear is marked used and returned;
    when the bitmap is exhausted the result is the "no space" value [-1]. *)
Fixpoint alloc_block_scan (n : nat) (i : Z) : M Z :=
  match n with
  | O => ret (-1)
  | S n' =>
      bit <- gets (fun s => bitmap_get (blocks_bitmap s) i) ;;
      if bit =? 0
      then modify (fun s => set_blocks_bitmap (bitmap_put (blocks_bitmap s) i 1) s) ;;
           ret i
      else alloc_block_scan n' (i + 1)
  end.

Definition alloc_block : M Z :=
  alloc_block_scan (Z.to_nat (BLOCK_COUNT - 1)) 1.

(** Modelled from the spec: the block store's [free_block] ([blocks.h], not
    under src): the block's bit in the block bitmap is cleared. *)
Definition free_block (bnum : Z) : M unit :=
  modify (fun s => set_blocks_bitmap (bitmap_put (blocks_bitmap s) bnum 0) s).

(** ** inode.c *)

(** The loop of [alloc_inode]: the first clear bit of the inode bitmap is
    set and its index returned ([break]); [-1] is the value [node_index]
    keeps when the loop finds none. *)
Fixpoint alloc_inode_scan (n : nat) (i : Z) : M Z :=
  match n with
  | O => ret (-1)
  | S n' =>
      bit <- gets (fun s => bitmap_get (inode_bitmap s) i) ;;
      if bit =? 0
      then modify (fun s => set_inode_bitmap (bitmap_put (inode_bitmap s) i 1) s) ;;
           ret i
      else alloc_inode_scan n' (i + 1)
  end.

Definition alloc_inode : M Z :=
  node_index <- alloc_inode_scan (Z.to_nat BLOCK_COUNT) 0 ;;
  let inode := get_inode node_index in
  store inode (set_refs 1) ;;
  store inode (set_mode 0) ;;
  store inode (set_size 0) ;;
  b <- alloc_block ;;
  store inode (set_pointer 0 b) ;;
  ret node_index.

Definition grow_inode (node : Z) (new_size : Z) : M Z :=
  sz <- load size node ;;
  let curr_size := Z.quot sz BLOCK_SIZE + 1 in
  let size_needed := Z.quot new_size BLOCK_SIZE in
  for_up (Z.to_nat (size_needed - curr_size + 1)) curr_size (fun i =>
    if 2 <=? i then
      blk <- load block node ;;
      when (blk =? 0) (b <- alloc_block ;; store node (set_block b)) ;;
      current_pointer <- load block node ;;
      b <- alloc_block ;;
      store_ptr current_pointer (i - 2) b
    else
      b <- alloc_block ;;
      store node (set_pointer i b)) ;;
  store node (set_size new_size) ;;
  ret 0.

Definition shrink_inode (node : Z) (new_size : Z) : M Z :=
  sz <- load size node ;;
  let curr_size := Z.quot sz BLOCK_SIZE + 1 in
  let size_needed := Z.quot new_size BLOCK_SIZE in
  for_down (Z.to_nat (curr_size - size_needed + 1)) curr_size (fun i =>
    if 2 <=? i then
      current_pointer <- load block node ;;
      curr_point <- load_ptr current_pointer (i - 2) ;;
      free_block curr_point ;;
      when (i =? 2) (blk <- load block node ;;
                     free_block blk ;;
                     store node (set_block 0))
    else
      p <- load (fun n => pointers n i) node ;;
      free_block p ;;
      store node (set_pointer i 0)) ;;
  store node (set_size new_size) ;;
  ret 0.

(** The final [assert(inode_delete->size == 0)] always holds, since
    [shrink_inode] has just stored 0 there (lemma [free_inode_size]). *)
Definition free_inode (inum : Z) : M unit :=
  let inode_delete := get_inode inum in
  shrink_inode inode_delete 0 ;;
  p <- load (fun n => pointers n 0) inode_delete ;;
  free_block p ;;
  modify (fun s => set_inode_bitmap (bitmap_put (inode_bitmap s) inum 0) s).

Definition inode_get_bnum (node : Z) (file_bnum : Z) : M Z :=
  let curr_pointer := Z.quot file_bnum BLOCK_SIZE in
  if 2 <=? curr_pointer then
    blk <- load block node ;;
    load_ptr blk (curr_pointer - 2)
  else
    load (fun n => pointers n curr_pointer) node.

(** ** directory.c *)

(** [strncpy(dst, src, n)] into a field of [n] characters. *)
Definition strncpy (src : string) (n : nat) : string := substring 0 n src.

(** [strcmp(e.name, s) == 0] *)
Definition name_matches (e : dirent_t) (s : string) : bool :=
  if (String.length (name e) <? DIR_NAME_LENGTH)%nat
  then String.eqb (name e) s
  else name_overrun (name e) (inum e) (input_allocation e) s.

Definition directory_init : M unit :=
  inum <- alloc_inode ;;
  if inum <? 0 then ret tt
  else store (get_inode inum) (set_mode 16877).   (* 040755 *)

Fixpoint directory_lookup_scan (n : nat) (dir_entries : Z) (nm : string) (i : Z) : M Z :=
  match n with
  | O => ret (-1)
  | S n' =>
      e <- load_dirent dir_entries i ;;
      if name_matches e nm && (input_allocation e =? 1)
      then ret (inum e)
      else directory_lookup_scan n' dir_entries nm (i + 1)
  end.

Definition directory_lookup (di : Z) (nm : string) : M Z :=
  let num_entries := 64 in
  if String.eqb "" nm then ret 0
  else
    dir_entries <- load (fun n => pointers n 0) di ;;
    directory_lookup_scan (Z.to_nat num_entries) dir_entries nm 0.

(** Modelled from the spec: the path-splitting list utility ([slist.h], not
    under src), which "tokenizes a slash-delimited path into an ordered
    sequence of component strings"; the empty path has no component, and a
    leading delimiter gives an empty first component (the name that
    [directory_lookup] resolves to the root). *)
Fixpoint s_explode (text : string) (delim : ascii) : list string :=
  match text with
  | EmptyString => []
  | String c rest =>
      if Ascii.eqb c delim then EmptyString :: s_explode rest delim
      else match s_explode rest delim with
           | [] => [String c EmptyString]
           | part :: parts => String c part :: parts
           end
  end.

Fixpoint path_lookup_walk (curr_dir : list string) (inum : Z) : M Z :=
  match curr_dir with
  | [] => ret inum
  | data :: next =>
      let dir_node := get_inode inum in
      inum' <- directory_lookup dir_node data ;;
      if inum' =? -1 then ret (-1)
      else path_lookup_walk next inum'
  end.

Definition path_lookup (path : string) : M Z :=
  path_lookup_walk (s_explode path "/") 0.

(** The number of entries [di->size / sizeof(dirent_t)]: the division is
    done at type [size_t] and its result stored in an [int]. *)
Definition dir_entries_count (sz : Z) : Z :=
  to_int (to_size_t sz / SIZEOF_DIRENT).

Fixpoint directory_put_scan (n : nat) (directory_entries : Z) (mock_dir : dirent_t)
    (i : Z) : M bool :=
  match n with
  | O => ret false
  | S n' =>
      e <- load_dirent directory_entries i ;;
      if input_allocation e =? 0
      then store_dirent directory_entries i mock_dir ;; ret true
      else directory_put_scan n' directory_entries mock_dir (i + 1)
  end.

Definition directory_put (di : Z) (nm : string) (inum : Z) : M Z :=
  sz <- load size di ;;
  let entries := dir_entries_count sz in
  directory_entries <- load (fun n => pointers n 0) di ;;
  let mock_dir := mk_dirent (strncpy nm DIR_NAME_LENGTH) inum 1 in
  placed <- directory_put_scan (Z.to_nat (entries - 1)) directory_entries mock_dir 1 ;;
  if placed then ret 0
  else
    store_dirent directory_entries entries mock_dir ;;
    sz' <- load size di ;;
    store di (set_size (to_int (to_size_t sz' + SIZEOF_DIRENT))) ;;
    ret 0.

Fixpoint directory_delete_scan (n : nat) (directory_entries : Z) (nm : string)
    (i : Z) : M Z :=
  match n with
  | O => ret (- ENOENT)
  | S n' =>
      e <- load_dirent directory_entries i ;;
      if name_matches e nm && negb (input_allocation e =? 0)
      then
        let inum := inum e in
        let curr_inode := get_inode inum in
        r <- load refs curr_inode ;;
        store curr_inode (set_refs (r - 1)) ;;
        r' <- load refs curr_inode ;;
        when (r' <=? 0) (free_inode inum) ;;
        e' <- load_dirent directory_entries i ;;
        store_dirent directory_entries i (set_input_allocation 0 e') ;;
        ret 0
      else directory_delete_scan n' directory_entries nm (i + 1)
  end.

Definition directory_delete (di : Z) (nm : string) : M Z :=
  sz <- load size di ;;
  let entries := dir_entries_count sz in
  directory_entries <- load (fun n => pointers n 0) di ;;
  directory_delete_scan (Z.to_nat entries) directory_entries nm 0.

(** ** storage.c *)

(** The loop of [split_path] over the components: every component but the
    last is appended to [parentPath] after a slash, the last is copied to
    [childName]; both copies keep at most [DIR_NAME_LENGTH] characters.
    (Without any component the C code reads through a null pointer; the
    theorems below are about paths with a component.) *)
Fixpoint split_path_loop (item : list string) (parentPath : string) : string * string :=
  match item with
  | [] => (parentPath, EmptyString)
  | data :: [] => (parentPath, strncpy data DIR_NAME_LENGTH)
  | data :: next =>
      split_path_loop next (parentPath ++ "/" ++ strncpy data DIR_NAME_LENGTH)%string
  end.

Definition split_path (fullPath : string) : string * string :=
  split_path_loop (s_explode fullPath "/") EmptyString.

(** [blocks_init] belongs to the block store; [storage_init] is what follows
    it. *)
Definition storage_init : M unit :=
  b1 <- gets (fun s => bitmap_get (blocks_bitmap s) 1) ;;
  when (b1 =? 0) (for_up 3 0 (fun _ => alloc_block ;; ret tt)) ;;
  b4 <- gets (fun s => bitmap_get (blocks_bitmap s) 4) ;;
  when (b4 =? 0) directory_init.

(** [st] is the caller's record; the result carries it as the call leaves
    it.  [st_nlink] has type [nlink_t] and [st_mode] type [mode_t]
    (unsigned, 64 and 32 bits), [st_size] is an [off_t]. *)
Definition storage_stat (path : string) (st : stat_t) : M (Z * stat_t) :=
  inodeNumber <- path_lookup path ;;
  if inodeNumber <=? 0 then ret (-1, st)
  else
    let inode := get_inode inodeNumber in
    r <- load refs inode ;;
    m <- load mode inode ;;
    sz <- load size inode ;;
    ret (0, mk_stat (to_size_t r) (to_mode_t m) sz).

(** [new_size] is an [off_t]; [grow_inode] and [shrink_inode] take an
    [int]. *)
Definition storage_truncate (path : string) (new_size : Z) : M Z :=
  inodeNumber <- path_lookup path ;;
  if inodeNumber <=? 0 then ret (-1)
  else
    let inode := get_inode inodeNumber in
    sz <- load size inode ;;
    (if new_size >? sz
     then grow_inode inode (to_int new_size)
     else shrink_inode inode (to_int new_size)) ;;
    ret 0.

(** The [while (remainingSize > 0)] loop of [storage_read].  [buf] holds the
    bytes copied so far, which the C code has at [buf[0 .. bytesRead)].  The
    loop is given as many passes as there are bytes left; [None] stands for
    a loop that needs more. *)
Fixpoint storage_read_loop (fuel : nat) (inode : Z) (offset : Z)
    (remainingSize bytesRead : Z) (buf : list byte) : M (option (Z * list byte)) :=
  if remainingSize >? 0 then
    match fuel with
    | O => ret None
    | S fuel' =>
        blockNum <- inode_get_bnum inode (to_int (offset + bytesRead)) ;;
        let blockReadSize := BLOCK_SIZE - Z.rem offset BLOCK_SIZE in
        let readSize :=
          if remainingSize <? blockReadSize then remainingSize else blockReadSize in
        chunk <- memcpy_from_block blockNum (Z.rem offset BLOCK_SIZE) readSize ;;
        storage_read_loop fuel' inode offset (remainingSize - readSize)
                          (bytesRead + readSize) (buf ++ chunk)
    end
  else ret (Some (bytesRead, buf)).

(** [size] is a [size_t], [offset] an [off_t].  The result is the returned
    [int] and the bytes stored in the caller's buffer. *)
Definition storage_read (path : string) (size : Z) (offset : Z)
  : M (option (Z * list byte)) :=
  inodeNumber <- path_lookup path ;;
  if inodeNumber <=? 0 then ret (Some (-1, []))
  else
    let inode := get_inode inodeNumber in
    sz <- load_size inode ;;
    if offset >=? sz then ret (Some (0, []))
    else
      let remainingSize := to_int size in
      storage_read_loop (Z.to_nat remainingSize) inode offset remainingSize 0 [].

(** The [while (size > 0)] loop of [storage_write]; [buf] is the caller's
    buffer, of which a pass copies the bytes from [bytesWritten] on. *)
Fixpoint storage_write_loop (fuel : nat) (inode : Z) (buf : list byte) (offset : Z)
    (size bytesWritten : Z) : M (option Z) :=
  if size >? 0 then
    match fuel with
    | O => ret None
    | S fuel' =>
        blockNum <- inode_get_bnum inode (to_int (offset + bytesWritten)) ;;
        let blockWriteSize := BLOCK_SIZE - Z.rem offset BLOCK_SIZE in
        let writeSize := if size <? blockWriteSize then size else blockWriteSize in
        memcpy_to_block blockNum (Z.rem offset BLOCK_SIZE)
          (firstn (Z.to_nat writeSize) (skipn (Z.to_nat bytesWritten) buf)) ;;
        storage_write_loop fuel' inode buf offset (size - writeSize)
                           (bytesWritten + writeSize)
    end
  else ret (Some bytesWritten).

Definition storage_write (path : string) (buf : list byte) (size : Z) (offset : Z)
  : M (option Z) :=
  inodeNumber <- path_lookup path ;;
  if inodeNumber <=? 0 then ret (Some (-1))
  else
    let inode := get_inode inodeNumber in
    let endOffset := to_int (offset + size) in
    sz <- load_size inode ;;
    when (endOffset >? sz) (storage_truncate path endOffset ;; ret tt) ;;
    storage_write_loop (Z.to_nat size) inode buf offset size 0.

Definition storage_mknod (path : string) (mode : Z) : M Z :=
  inodeNumber <- path_lookup path ;;
  if negb (inodeNumber =? -1) then ret (- EEXIST)
  else
    let (parentPath, childName) := split_path path in
    parentInodeNum <- path_lookup parentPath ;;
    if parentInodeNum <? 0 then ret (- ENOENT)
    else
      let parentInode := get_inode parentInodeNum in
      childInodeNum <- alloc_inode ;;
      let childInode := get_inode childInodeNum in
      store childInode (set_refs 1) ;;
      store childInode (set_mode mode) ;;
      store childInode (set_size 0) ;;
      directory_put parentInode childName childInodeNum ;;
      ret 0.

Definition storage_unlink (path : string) : M Z :=
  let (parentPath, fileName) := split_path path in
  parentInodeNum <- path_lookup parentPath ;;
  let parentInode := get_inode parentInodeNum in
  directory_delete parentInode fileName.

Definition storage_link (from to : string) : M Z :=
  toInodeNum <- path_lookup to ;;
  if toInodeNum <? 0 then ret (-1)
  else
    let toInode := get_inode toInodeNum in
    let (parentPath, fileName) := split_path from in
    parentInodeNum <- path_lookup parentPath ;;
    let parentInode := get_inode parentInodeNum in
    directory_put parentInode fileName toInodeNum ;;
    r <- load refs toInode ;;
    store toInode (set_refs (r + 1)) ;;
    ret 0.

Definition storage_rename (from to : string) : M Z :=
  linkResult <- storage_link to from ;;
  if negb (linkResult =? 0) then ret linkResult
  else storage_unlink from.

(** The text that [s_cons] copies out of a [name] field.  Modelled from the
    spec: [s_cons] of the list utility ([slist.h], not under src) puts a
    copy of the string in front of the list.  A name shorter than the field
    is copied as it is; a name that fills the field has no terminating NUL,
    so that the copy runs on into the bytes that follow the field in
    memory: for that case the model gives no text ([None]). *)
Definition name_text (e : dirent_t) : option string :=
  if (String.length (name e) <? DIR_NAME_LENGTH)%nat then Some (name e) else None.

(** The loop of [directory_list]: the names of the entries in use, each put
    in front of those found before it; [None] when a name has no text. *)
Fixpoint directory_list_scan (n : nat) (directory_entries : Z) (i : Z)
    (new_dir : list string) : M (option (list string)) :=
  match n with
  | O => ret (Some new_dir)
  | S n' =>
      e <- load_dirent directory_entries i ;;
      if negb (input_allocation e =? 0)
      then match name_text e with
           | Some nm => directory_list_scan n' directory_entries (i + 1) (nm :: new_dir)
           | None => ret None
           end
      else directory_list_scan n' directory_entries (i + 1) new_dir
  end.

Definition directory_list (path : string) : M (option (list string)) :=
  dir_inum <- path_lookup path ;;
  let dir_inode := get_inode dir_inum in
  sz <- load size dir_inode ;;
  let entries := dir_entries_count sz in
  directory_entries <- load (fun n => pointers n 0) dir_inode ;;
  directory_list_scan (Z.to_nat entries) directory_entries 0 [].

Definition storage_list (path : string) : M (option (list string)) :=
  directory_list path.

End FileSystem.


(** ** A concrete layout and image *)

(** The usual values: 4096-byte blocks, 256 of them, directory entries of 64
    bytes with names of 48 (so that 64 entries fill a block, the bound
    [directory_lookup] scans to). *)
#[local] Instance nufs : Layout := {|
  BLOCK_SIZE := 4096;
  BLOCK_COUNT := 256;
  DIR_NAME_LENGTH := 48;
  SIZEOF_DIRENT := 64;
  name_overrun := fun _ _ _ _ => false;
  BLOCK_SIZE_range := ltac:(lia);
  BLOCK_COUNT_range := ltac:(unfold INT_MAX; lia);
  SIZEOF_DIRENT_range := ltac:(unfold INT_MAX; lia);
  dirents_fit := ltac:(lia)
|}.

Definition zero_inode : inode_t := mk_inode 0 0 0 0 (fun _ => 0).

Definition zero_block : block_t :=
  mk_block (fun _ => x00) (fun _ => 0) (fun _ => mk_dirent EmptyString 0 0).

(** A new image as [blocks_init] leaves it: all zero but for the bit of
    block 0 in the block bitmap. *)
Definition blank_image : fs :=
  mk_fs (fun i => i =? 0) (fun _ => false) (fun _ => zero_inode) (fun _ => zero_block).

(** The image after a computation, and its result. *)
Definition exec {A : Type} (m : M A) (s : fs) : fs := snd (m s).
Definition eval {A : Type} (m : M A) (s : fs) : A := fst (m s).

(** The image after [storage_init]: blocks 1 to 3 reserved, the root
    directory in inode 0 with block 4. *)
Definition fresh_image : fs := exec storage_init blank_image.

(** S_IFREG | 0644 *)
Definition file_mode : Z := 33188.

(** ** Scenarios *)

(** Images reached from [fresh_image] through the operations of storage.c,
    on which the properties below are evaluated. *)

(** S_IFDIR | 0755 *)
Definition dir_mode : Z := 16877.

Definition st0 : stat_t := mk_stat 0 0 0.

Definition hello : list byte := list_byte_of_string "hello".

(** A buffer of two blocks and a little more, so that a file holding it has
    both direct extents and one through the indirect block. *)
Definition long_buf : list byte := repeat "a"%byte (Z.to_nat 8200).

(** The operations in [ops], one after the other. *)
Definition after {A : Type} (ops : list (M A)) (s : fs) : fs :=
  fold_left (fun s op => exec op s) ops s.

(** A file [/a] holding [hello]. *)
Definition hello_image : fs :=
  exec (storage_write "/a" hello 5 0) (exec (storage_mknod "/a" file_mode) fresh_image).

(** [/a] grown to 10 bytes, cut back to 5 and grown to 10 again. *)
Definition regrown_image : fs :=
  after [storage_truncate "/a" 10; storage_truncate "/a" 5; storage_truncate "/a" 10]
        hello_image.

(** Two files [/a] and [/b], one link each. *)
Definition two_files_image : fs :=
  after [storage_mknod "/a" file_mode; storage_mknod "/b" file_mode] fresh_image.

(** [/a] removed again: slot 0 of the root directory is free, slot 1 holds
    [/b]. *)
Definition slot0_free_image : fs := exec (storage_unlink "/a") two_files_image.

(** Two names for one file: [/b] and a second [/a], after the first [/a] has
    been removed. *)
Definition linked_image : fs := exec (storage_link "/a" "/b") slot0_free_image.

(** A directory [/d] with a file [f], removed while [f] is in it, and a new
    directory [/e] made afterwards. *)
Definition stale_dir_image : fs :=
  after [storage_mknod "/d" dir_mode; storage_mknod "/d/f" file_mode;
         storage_unlink "/d"; storage_mknod "/e" dir_mode] fresh_image.

(** The files [/0], [/1], ... (one character each, from the digits on):
    64 of them fill the root directory's block. *)
Definition nth_path (n : nat) : string :=
  String "/" (String (ascii_of_nat (48 + n)) EmptyString).

Definition crowded_image : fs :=
  after (map (fun n => storage_mknod (nth_path n) file_mode) (seq 0 64)) fresh_image.

(** One file [/big] that takes every free block of the store. *)
Definition full_disk_image : fs :=
  after [storage_mknod "/big" file_mode; storage_truncate "/big" 1019904] fresh_image.

(** Every inode in use. *)
Definition full_inodes_image : fs :=
  set_inode_bitmap (fun i => (0 <=? i) && (i <? 256)) fresh_image.

(** ** Properties *)

Section Properties.

Context {L : Layout}.

(** *** Computations that only read *)

Definition readonly {A : Type} (m : M A) : Prop := forall s, snd (m s) = s.

Lemma readonly_run {A : Type} (m : M A) :
  readonly m -> forall s, m s = (eval m s, s).
Proof.
  intros H s. unfold eval. rewrite <- (H s) at 3. now destruct (m s).
Qed.

Lemma readonly_ret {A : Type} (a : A) : readonly (ret a).
Proof. intro s; reflexivity. Qed.

Lemma readonly_gets {A : Type} (f : fs -> A) : readonly (gets f).
Proof. intro s; reflexivity. Qed.

Lemma readonly_bind {A B : Type} (m : M A) (k : A -> M B) :
  readonly m -> (forall a, readonly (k a)) -> readonly (bind m k).
Proof.
  intros Hm Hk s. unfold bind. rewrite (readonly_run m Hm s). apply Hk.
Qed.

Lemma readonly_load {A : Type} (f : inode_t -> A) (node : Z) : readonly (load f node).
Proof. apply readonly_gets. Qed.

Lemma readonly_load_dirent bnum i : readonly (load_dirent bnum i).
Proof. apply readonly_gets. Qed.

Lemma readonly_load_ptr bnum i : readonly (load_ptr bnum i).
Proof. apply readonly_gets. Qed.

Lemma readonly_memcpy_from_block bnum start n :
  readonly (memcpy_from_block bnum start n).
Proof. apply readonly_gets. Qed.

Lemma readonly_if {A : Type} (c : bool) (m1 m2 : M A) :
  readonly m1 -> readonly m2 -> readonly (if c then m1 else m2).
Proof. now destruct c. Qed.

Create HintDb readonly.
#[local] Hint Resolve readonly_ret readonly_gets readonly_load readonly_load_dirent
  readonly_load_ptr readonly_memcpy_from_block : readonly.

Lemma readonly_directory_lookup_scan n dir_entries nm i :
  readonly (directory_lookup_scan n dir_entries nm i).
Proof.
  revert i; induction n as [|n IH]; intro i; simpl.
  - apply readonly_ret.
  - apply readonly_bind; [apply readonly_load_dirent|].
    intro e. apply readonly_if; [apply readonly_ret | apply IH].
Qed.

Lemma readonly_directory_lookup di nm : readonly (directory_lookup di nm).
Proof.
  unfold directory_lookup. apply readonly_if; [apply readonly_ret|].
  apply readonly_bind; [apply readonly_load|].
  intro. apply readonly_directory_lookup_scan.
Qed.

Lemma readonly_path_lookup_walk dirs inum : readonly (path_lookup_walk dirs inum).
Proof.
  revert inum; induction dirs as [|d dirs IH]; intro inum; simpl.
  - apply readonly_ret.
  - apply readonly_bind; [apply readonly_directory_lookup|].
    intro r. apply readonly_if; [apply readonly_ret | apply IH].
Qed.

Lemma readonly_path_lookup path : readonly (path_lookup path).
Proof. apply readonly_path_lookup_walk. Qed.

Lemma readonly_inode_get_bnum node file_bnum : readonly (inode_get_bnum node file_bnum).
Proof.
  unfold inode_get_bnum. apply readonly_if.
  - apply readonly_bind; [apply readonly_load|]. intro; apply readonly_load_ptr.
  - apply readonly_load.
Qed.

#[local] Hint Resolve readonly_directory_lookup readonly_path_lookup
  readonly_inode_get_bnum : readonly.

Lemma readonly_storage_stat path st : readonly (storage_stat path st).
Proof.
  unfold storage_stat.
  apply readonly_bind; [apply readonly_path_lookup|].
  intro i. apply readonly_if; [apply readonly_ret|].
  repeat (apply readonly_bind; [apply readonly_load | intro]).
  apply readonly_ret.
Qed.

(** The two paths of the root directory. *)
Lemma path_lookup_root s :
  eval (path_lookup "/") s = 0 /\ eval (path_lookup "") s = 0.
Proof. split; reflexivity. Qed.

(** What [storage_stat] returns for a path that resolves to an inode
    number > 0. *)
Lemma storage_stat_found path st s :
  0 < eval (path_lookup path) s ->
  eval (storage_stat path st) s
  = (0, mk_stat (to_size_t (refs (inodes s (eval (path_lookup path) s))))
                (to_mode_t (mode (inodes s (eval (path_lookup path) s))))
                (size (inodes s (eval (path_lookup path) s)))).
Proof.
  intro H. unfold eval at 1, storage_stat, bind.
  rewrite (readonly_run _ (readonly_path_lookup path) s).
  apply Z.leb_gt in H. now rewrite H.
Qed.

(** C10: [storage_stat] is read-only.  For every path, every caller's
    record and every image, the image after the call is the image before it
    (inode table, directory entries, block contents and both bitmaps),
    whether the call succeeds or fails; the only thing written is the stat
    record, which is part of the result. *)
Theorem storage_stat_frame (path : string) (st : stat_t) (s : fs) :
  exec (storage_stat path st) s = s.
Proof. apply readonly_storage_stat. Qed.

(** C9: failure convention of [storage_stat].  When the path resolves to an
    inode number <= 0 the call returns -1 and leaves the caller's record as
    it was; this includes the root, whose paths resolve to inode 0.  When
    the path resolves to an inode number > 0 the call returns 0 and the
    record holds that inode's [refs], [mode] and [size] (converted to the
    types of [st_nlink] and [st_mode]). *)
Theorem storage_stat_convention (path : string) (st : stat_t) (s : fs) :
  let inodeNumber := eval (path_lookup path) s in
  let inode := inodes s inodeNumber in
  (inodeNumber <= 0 -> eval (storage_stat path st) s = (-1, st))
  /\ (0 < inodeNumber ->
      eval (storage_stat path st) s
      = (0, mk_stat (to_size_t (refs inode)) (to_mode_t (mode inode)) (size inode)))
  /\ eval (path_lookup "/") s = 0
  /\ eval (storage_stat "/" st) s = (-1, st).
Proof.
  cbv zeta. unfold eval at 2 4 6, storage_stat, bind.
  rewrite (readonly_run _ (readonly_path_lookup path) s).
  repeat split.
  - intro H. apply Z.leb_le in H. now rewrite H.
  - intro H. apply Z.leb_gt in H. now rewrite H.
Qed.


(** *** Directory entries *)

(** Entry [i] of the directory [di]. *)
Definition entry_at (s : fs) (di : Z) (i : Z) : dirent_t :=
  b_dirents (blocks s (pointers (inodes s di) 0)) i.

(** [nm] matches an allocated entry among the [size / sizeof(dirent_t)]
    entries of [di]. *)
Definition names_allocated_entry (s : fs) (di : Z) (nm : string) : Prop :=
  exists i, 0 <= i < dir_entries_count (size (inodes s di))
            /\ name_matches (entry_at s di i) nm = true
            /\ input_allocation (entry_at s di i) <> 0.

Lemma directory_delete_scan_none n blk nm i s :
  (forall j, i <= j < i + Z.of_nat n ->
     name_matches (b_dirents (blocks s blk) j) nm
     && negb (input_allocation (b_dirents (blocks s blk) j) =? 0) = false) ->
  directory_delete_scan n blk nm i s = (- ENOENT, s).
Proof.
  revert i; induction n as [|n IH]; intros i H; [reflexivity|].
  cbn [directory_delete_scan]. unfold bind at 1, load_dirent, gets.
  rewrite (H i) by lia. apply IH. intros j Hj. apply H. lia.
Qed.

(** C7: deleting a name that is not there.  For every directory inode and
    every name that matches no allocated entry of it, [directory_delete]
    returns [-ENOENT] and the image after the call is the image before it:
    no inode's [refs], [size] or block pointers, no directory entry and
    neither bitmap has changed.  [storage_unlink], which resolves the parent
    of its path and calls [directory_delete] on it, does the same. *)
Theorem directory_delete_not_found (s : fs) :
  (forall di nm, ~ names_allocated_entry s di nm ->
     directory_delete di nm s = (- ENOENT, s))
  /\ (forall path,
        ~ names_allocated_entry s (eval (path_lookup (fst (split_path path))) s)
                                (snd (split_path path)) ->
        storage_unlink path s = (- ENOENT, s)).
Proof.
  assert (D : forall di nm, ~ names_allocated_entry s di nm ->
                            directory_delete di nm s = (- ENOENT, s)).
  { intros di nm H. unfold directory_delete, bind, load, gets.
    apply directory_delete_scan_none. intros j Hj.
    destruct (name_matches _ nm) eqn:Hn; [|reflexivity].
    destruct (input_allocation _ =? 0) eqn:Ha; [reflexivity|].
    exfalso. apply H. exists j. unfold entry_at.
    split; [lia | split; [exact Hn | now apply Z.eqb_neq]]. }
  split; [exact D|].
  intros path H. unfold storage_unlink.
  destruct (split_path path) as [parentPath fileName]; cbn [fst snd] in H.
  unfold bind. rewrite (readonly_run _ (readonly_path_lookup parentPath) s).
  now apply D.
Qed.

(** *** Reading *)


Lemma block_chunk_positive offset :
  0 < BLOCK_SIZE - Z.rem offset BLOCK_SIZE.
Proof.
  pose proof BLOCK_SIZE_range as Hb.
  assert (Hn : BLOCK_SIZE <> 0) by lia.
  pose proof (Z.rem_bound_abs offset BLOCK_SIZE Hn). lia.
Qed.

Lemma readonly_storage_read_loop fuel inode offset rem br buf :
  readonly (storage_read_loop fuel inode offset rem br buf).
Proof.
  revert rem br buf; induction fuel as [|fuel IH]; intros rem br buf;
    cbn [storage_read_loop]; (apply readonly_if; [|apply readonly_ret]).
  - apply readonly_ret.
  - apply readonly_bind; [apply readonly_inode_get_bnum|]. intro b.
    apply readonly_bind; [apply readonly_memcpy_from_block|]. intro c. apply IH.
Qed.


Lemma to_int_small z : - 2147483648 <= z <= INT_MAX -> to_int z = z.
Proof.
  unfold to_int, INT_MAX. intro H. rewrite Z.mod_small; lia.
Qed.


(** *** Paths *)

(** [c] does not occur in [s]. *)
Fixpoint free_of (c : ascii) (s : string) : bool :=
  match s with
  | EmptyString => true
  | String a rest => negb (Ascii.eqb a c) && free_of c rest
  end.

Definition nonempty (s : string) : bool := negb (String.eqb s EmptyString).

Definition short (s : string) : bool := (String.length s <? DIR_NAME_LENGTH)%nat.

(** The component lists the theorems on paths are about: a first component
    (empty for a path that starts with a slash), then non-empty ones, the
    last of all non-empty, and each shorter than [DIR_NAME_LENGTH]. *)
Definition components_ok (comps : list string) : bool :=
  match comps with
  | [] => false
  | c :: cs =>
      forallb nonempty cs && forallb short (c :: cs)
      && (nonempty c || negb (Nat.eqb (List.length cs) 0))
  end.

Definition path_ok (path : string) : bool := components_ok (s_explode path "/").

Lemma s_explode_free text delim :
  Forall (fun c => free_of delim c = true) (s_explode text delim).
Proof.
  induction text as [|a rest IH]; simpl; [constructor|].
  destruct (Ascii.eqb a delim) eqn:E.
  - constructor; [reflexivity | exact IH].
  - destruct (s_explode rest delim) as [|p ps]; constructor; simpl; try constructor.
    + now rewrite E.
    + rewrite E. simpl. now inversion IH.
    + now inversion IH.
Qed.

(** Exploding a component followed by a slash and more text. *)
Lemma s_explode_component c rest delim :
  free_of delim c = true ->
  s_explode (c ++ String delim rest) delim = c :: s_explode rest delim.
Proof.
  induction c as [|a c IH]; simpl; intro H.
  - now rewrite Ascii.eqb_refl.
  - apply andb_prop in H as [Ha Hc]. apply negb_true_iff in Ha. rewrite Ha.
    now rewrite (IH Hc).
Qed.

Lemma s_explode_last c delim :
  free_of delim c = true -> nonempty c = true -> s_explode c delim = [c].
Proof.
  induction c as [|a c IH]; simpl; intros H Hn; [discriminate|].
  apply andb_prop in H as [Ha Hc]. apply negb_true_iff in Ha. rewrite Ha.
  destruct c as [|b c']; [reflexivity|].
  rewrite (IH Hc); reflexivity.
Qed.

Lemma strncpy_short c : short c = true -> strncpy c DIR_NAME_LENGTH = c.
Proof.
  unfold short, strncpy. intro H. apply Nat.ltb_lt in H.
  revert H. generalize DIR_NAME_LENGTH as n. induction c as [|a c IH]; intros n H.
  - now destruct n.
  - destruct n; simpl in *; [lia|]. f_equal. apply IH. lia.
Qed.

(** The text [split_path] builds for the parent: a slash before every
    component. *)
Fixpoint slashed (dirs : list string) : string :=
  match dirs with
  | [] => EmptyString
  | d :: rest => (String "/" d ++ slashed rest)%string
  end.

Lemma string_app_assoc (a b c : string) : ((a ++ b) ++ c = a ++ (b ++ c))%string.
Proof. induction a; simpl; congruence. Qed.

Lemma string_app_nil (a : string) : (a ++ "" = a)%string.
Proof. induction a; simpl; congruence. Qed.

Lemma split_path_loop_spec dirs last acc :
  forallb short (dirs ++ [last]) = true ->
  split_path_loop (dirs ++ [last]) acc = ((acc ++ slashed dirs)%string, last).
Proof.
  revert acc; induction dirs as [|d dirs IH]; intros acc H.
  - simpl in *. rewrite string_app_nil. rewrite strncpy_short; [reflexivity|].
    now apply andb_prop in H as [H _].
  - simpl in H. apply andb_prop in H as [Hd H].
    assert (E : split_path_loop ((d :: dirs) ++ [last]) acc
                = split_path_loop (dirs ++ [last])
                    (acc ++ "/" ++ strncpy d DIR_NAME_LENGTH)%string).
    { destruct dirs; reflexivity. }
    rewrite E, IH by exact H. rewrite strncpy_short by exact Hd.
    f_equal. simpl. rewrite !string_app_assoc. reflexivity.
Qed.


(** *** Resolving a path *)

(** What [directory_lookup_scan] computes from the entries of a block. *)
Definition visible (e : dirent_t) (nm : string) : bool :=
  name_matches e nm && (input_allocation e =? 1).

Fixpoint lookup_entries (n : nat) (ents : Z -> dirent_t) (nm : string) (i : Z) : Z :=
  match n with
  | O => -1
  | S n' =>
      if visible (ents i) nm then inum (ents i)
      else lookup_entries n' ents nm (i + 1)
  end.

Lemma directory_lookup_scan_run n blk nm i s :
  directory_lookup_scan n blk nm i s
  = (lookup_entries n (b_dirents (blocks s blk)) nm i, s).
Proof.
  revert i; induction n as [|n IH]; intro i; [reflexivity|].
  cbn [directory_lookup_scan lookup_entries].
  unfold bind at 1, load_dirent, gets, visible.
  destruct (name_matches _ nm && _); [reflexivity | apply IH].
Qed.

(** The block that holds the entries of directory [d]. *)
Definition dir_block (s : fs) (d : Z) : Z := pointers (inodes s d) 0.

Lemma directory_lookup_run d nm s :
  directory_lookup d nm s
  = (if String.eqb "" nm then 0
     else lookup_entries 64 (b_dirents (blocks s (dir_block s d))) nm 0, s).
Proof.
  unfold directory_lookup. destruct (String.eqb "" nm); [reflexivity|].
  unfold bind, load, gets. apply directory_lookup_scan_run.
Qed.

Lemma lookup_entries_none n ents nm i :
  (forall j, i <= j < i + Z.of_nat n -> visible (ents j) nm = false) ->
  lookup_entries n ents nm i = -1.
Proof.
  revert i; induction n as [|n IH]; intros i H; [reflexivity|].
  cbn [lookup_entries]. rewrite H by lia. apply IH. intros; apply H; lia.
Qed.

Lemma lookup_entries_first n ents nm i j :
  i <= j < i + Z.of_nat n ->
  visible (ents j) nm = true ->
  (forall k, i <= k < j -> visible (ents k) nm = false) ->
  lookup_entries n ents nm i = inum (ents j).
Proof.
  revert i; induction n as [|n IH]; intros i Hj Hv Hf; [lia|].
  cbn [lookup_entries]. destruct (Z.eq_dec i j) as [->|Hne].
  - now rewrite Hv.
  - rewrite Hf by lia. apply IH; [lia | exact Hv | intros; apply Hf; lia].
Qed.

Lemma lookup_entries_found n ents nm i r :
  lookup_entries n ents nm i = r -> r <> -1 ->
  exists j, i <= j < i + Z.of_nat n
            /\ visible (ents j) nm = true
            /\ (forall k, i <= k < j -> visible (ents k) nm = false)
            /\ inum (ents j) = r.
Proof.
  revert i; induction n as [|n IH]; intros i H Hr; [simpl in H; congruence|].
  cbn [lookup_entries] in H. destruct (visible (ents i) nm) eqn:E.
  - exists i. split; [lia|]. split; [exact E|]. split; [intros; lia | exact H].
  - destruct (IH _ H Hr) as (j & Hj & Hv & Hf & Hi).
    exists j. split; [lia|]. split; [exact Hv|]. split; [|exact Hi].
    intros k Hk. destruct (Z.eq_dec k i) as [->|]; [exact E | apply Hf; lia].
Qed.

(** Entries that differ only where neither is visible under [nm] give the
    same result. *)
Lemma lookup_entries_ext n ents ents' nm i :
  (forall j, i <= j < i + Z.of_nat n ->
     ents' j = ents j \/ (visible (ents j) nm = false /\ visible (ents' j) nm = false)) ->
  lookup_entries n ents' nm i = lookup_entries n ents nm i.
Proof.
  revert i; induction n as [|n IH]; intros i H; [reflexivity|].
  cbn [lookup_entries].
  destruct (H i ltac:(lia)) as [E|[E1 E2]].
  - rewrite E. destruct (visible (ents i) nm); [reflexivity|].
    apply IH. intros; apply H; lia.
  - rewrite E1, E2. apply IH. intros; apply H; lia.
Qed.

(** The directories a walk looks a component up in, each with that
    component. *)
Fixpoint walk_trace (s : fs) (comps : list string) (i : Z) : list (Z * string) :=
  match comps with
  | [] => []
  | c :: rest =>
      (i, c) :: (let r := eval (directory_lookup i c) s in
                 if r =? -1 then [] else walk_trace s rest r)
  end.

Lemma path_lookup_walk_cons c rest i s :
  eval (path_lookup_walk (c :: rest) i) s
  = (let r := eval (directory_lookup i c) s in
     if r =? -1 then -1 else eval (path_lookup_walk rest r) s).
Proof.
  unfold eval. cbn [path_lookup_walk]. unfold bind, get_inode.
  rewrite (readonly_run _ (readonly_directory_lookup i c) s). cbv zeta.
  cbn [fst]. now destruct (eval (directory_lookup i c) s =? -1).
Qed.

(** A walk depends on the image only through the lookups it makes. *)
Lemma walk_frame comps i s s' :
  Forall (fun dc => eval (directory_lookup (fst dc) (snd dc)) s'
                    = eval (directory_lookup (fst dc) (snd dc)) s)
         (walk_trace s comps i) ->
  eval (path_lookup_walk comps i) s' = eval (path_lookup_walk comps i) s.
Proof.
  revert i; induction comps as [|c rest IH]; intros i H; [reflexivity|].
  rewrite !path_lookup_walk_cons. cbn [walk_trace] in H.
  inversion H as [|? ? Hc Hrest]; subst. cbn [fst snd] in Hc. cbv zeta.
  rewrite Hc. destruct (eval (directory_lookup i c) s =? -1); [reflexivity|].
  now apply IH.
Qed.

Lemma path_lookup_walk_app dirs rest i s :
  i <> -1 ->
  eval (path_lookup_walk (dirs ++ rest) i) s
  = (let r := eval (path_lookup_walk dirs i) s in
     if r =? -1 then -1 else eval (path_lookup_walk rest r) s).
Proof.
  revert i; induction dirs as [|d dirs IH]; intros i Hi.
  - simpl. cbv zeta. unfold eval at 2. simpl.
    destruct (i =? -1) eqn:E; [apply Z.eqb_eq in E; contradiction | reflexivity].
  - change ((d :: dirs) ++ rest) with (d :: (dirs ++ rest)).
    rewrite !path_lookup_walk_cons. cbv zeta.
    destruct (eval (directory_lookup i d) s =? -1) eqn:E; [reflexivity|].
    apply IH. now apply Z.eqb_neq.
Qed.

(** The components of a path but the last, and the last. *)
Definition parent_dirs (path : string) : list string :=
  removelast (s_explode path "/").

Definition base_name (path : string) : string :=
  List.last (s_explode path "/") EmptyString.

Lemma path_lookup_walk_empty rest i s :
  eval (path_lookup_walk (EmptyString :: rest) i) s = eval (path_lookup_walk rest 0) s.
Proof.
  rewrite path_lookup_walk_cons. unfold eval at 1 2. now rewrite directory_lookup_run.
Qed.

Lemma s_explode_slashed_tail d ds :
  free_of "/" d = true ->
  Forall (fun c => free_of "/" c = true) ds ->
  forallb nonempty ds = true ->
  (ds <> [] \/ nonempty d = true) ->
  s_explode (d ++ slashed ds) "/" = d :: ds.
Proof.
  revert d; induction ds as [|d2 ds IH]; intros d Hd Hds Hne Hor.
  - simpl. rewrite string_app_nil. destruct Hor as [Hor|Hor]; [congruence|].
    now apply s_explode_last.
  - cbn [slashed]. cbn [forallb] in Hne. apply andb_prop in Hne as [Hn2 Hne].
    inversion Hds; subst.
    change (String "/" d2 ++ slashed ds)%string with (String "/" (d2 ++ slashed ds)).
    rewrite s_explode_component by exact Hd. f_equal.
    apply IH; auto.
Qed.

Lemma path_lookup_slashed dirs s :
  Forall (fun c => free_of "/" c = true) dirs ->
  forallb nonempty (tl dirs) = true ->
  eval (path_lookup (slashed dirs)) s = eval (path_lookup_walk dirs 0) s.
Proof.
  intros Hfree Hne. unfold path_lookup. destruct dirs as [|d ds]; [reflexivity|].
  cbn [slashed tl] in *. inversion Hfree; subst.
  change (String "/" d ++ slashed ds)%string with (String "/" (d ++ slashed ds)).
  change (String "/" (d ++ slashed ds)) with (EmptyString ++ String "/" (d ++ slashed ds))%string.
  rewrite s_explode_component by reflexivity. rewrite path_lookup_walk_empty.
  destruct ds as [|d2 ds'].
  - destruct (nonempty d) eqn:E.
    + rewrite s_explode_slashed_tail; auto.
    + unfold nonempty in E. apply negb_false_iff, String.eqb_eq in E. subst d.
      cbn [slashed String.append s_explode]. now rewrite path_lookup_walk_empty.
  - rewrite s_explode_slashed_tail; auto. left; discriminate.
Qed.

Lemma components_ok_inv comps :
  components_ok comps = true ->
  exists dirs last,
    comps = dirs ++ [last]
    /\ nonempty last = true
    /\ forallb short (dirs ++ [last]) = true
    /\ forallb nonempty (tl dirs) = true.
Proof.
  unfold components_ok. destruct comps as [|c cs]; [discriminate|].
  intro H. apply andb_prop in H as [H H3]. apply andb_prop in H as [H1 H2].
  destruct (@exists_last _ (c :: cs) ltac:(discriminate)) as (dirs & last & E).
  exists dirs, last. rewrite E in *. split; [reflexivity|].
  assert (Hlast : nonempty last = true).
  { destruct dirs as [|d ds]; simpl in E.
    - injection E as E1 E2; subst. simpl in H3. now rewrite orb_false_r in H3.
    - injection E as E1 E2; subst. rewrite forallb_app in H1.
      apply andb_prop in H1 as [_ H1]. simpl in H1. now rewrite andb_true_r in H1. }
  split; [exact Hlast|]. split; [exact H2|].
  destruct dirs as [|d ds]; [reflexivity|]. simpl in E. injection E as E1 E2; subst.
  rewrite forallb_app in H1. now apply andb_prop in H1 as [H1 _].
Qed.

(** What [path_ok] gives: [split_path] returns the parent's text and the
    last component untruncated; the parent resolves as the walk over the
    leading components does, and the path itself by one more lookup. *)
Lemma path_ok_resolution path :
  path_ok path = true ->
  nonempty (base_name path) = true
  /\ short (base_name path) = true
  /\ snd (split_path path) = base_name path
  /\ forall s,
       eval (path_lookup (fst (split_path path))) s
       = eval (path_lookup_walk (parent_dirs path) 0) s
       /\ eval (path_lookup path) s
          = (let p := eval (path_lookup_walk (parent_dirs path) 0) s in
             if p =? -1 then -1 else eval (directory_lookup p (base_name path)) s).
Proof.
  unfold path_ok. intro H.
  destruct (components_ok_inv _ H) as (dirs & last & E & Hl & Hs & Hn).
  pose proof (s_explode_free path "/") as Hfree. rewrite E in Hfree.
  apply Forall_app in Hfree as [Hfd _].
  unfold base_name, parent_dirs, split_path. rewrite E.
  rewrite last_last, removelast_last, split_path_loop_spec by exact Hs.
  cbn [fst snd String.append].
  split; [exact Hl|]. split.
  { rewrite forallb_app in Hs. apply andb_prop in Hs as [_ Hs]. simpl in Hs.
    now rewrite andb_true_r in Hs. }
  split; [reflexivity|]. intro s. split.
  - now apply path_lookup_slashed.
  - unfold path_lookup. rewrite E. rewrite path_lookup_walk_app by discriminate.
    cbv zeta. destruct (_ =? -1); [reflexivity|].
    rewrite path_lookup_walk_cons. cbv zeta.
    destruct (eval (directory_lookup _ last) s =? -1) eqn:E1; [|reflexivity].
    apply Z.eqb_eq in E1. now rewrite E1.
Qed.

(** *** Running computations step by step *)

Lemma run_pair {A : Type} (m : M A) s : m s = (eval m s, exec m s).
Proof. unfold eval, exec. now destruct (m s). Qed.

Lemma exec_bind {A B : Type} (m : M A) (k : A -> M B) s :
  exec (bind m k) s = exec (k (eval m s)) (exec m s).
Proof. unfold exec, eval, bind. now destruct (m s). Qed.

Lemma eval_bind {A B : Type} (m : M A) (k : A -> M B) s :
  eval (bind m k) s = eval (k (eval m s)) (exec m s).
Proof. unfold exec, eval, bind. now destruct (m s). Qed.

Lemma exec_ret {A : Type} (a : A) s : exec (ret a) s = s.
Proof. reflexivity. Qed.

Lemma eval_ret {A : Type} (a : A) s : eval (ret a) s = a.
Proof. reflexivity. Qed.

Lemma exec_gets {A : Type} (f : fs -> A) s : exec (gets f) s = s.
Proof. reflexivity. Qed.

Lemma eval_gets {A : Type} (f : fs -> A) s : eval (gets f) s = f s.
Proof. reflexivity. Qed.

Lemma exec_modify f s : exec (modify f) s = f s.
Proof. reflexivity. Qed.

Lemma exec_load {A : Type} (f : inode_t -> A) n s : exec (load f n) s = s.
Proof. reflexivity. Qed.

Lemma eval_load {A : Type} (f : inode_t -> A) n s : eval (load f n) s = f (inodes s n).
Proof. reflexivity. Qed.

Lemma exec_readonly {A : Type} (m : M A) s : readonly m -> exec m s = s.
Proof. intro H. apply H. Qed.

Lemma upd_same {A : Type} (f : Z -> A) k v : upd f k v k = v.
Proof. unfold upd. now rewrite Z.eqb_refl. Qed.

Lemma upd_other {A : Type} (f : Z -> A) k v j : j <> k -> upd f k v j = f j.
Proof. unfold upd. intro H. apply Z.eqb_neq in H. now rewrite H. Qed.

(** *** Bitmaps and allocation *)

(** The first index from [i], among [n], whose bit is clear. *)
Fixpoint first_clear (n : nat) (bm : Z -> bool) (i : Z) : option Z :=
  match n with
  | O => None
  | S n' => if bm i then first_clear n' bm (i + 1) else Some i
  end.

(** The number of clear bits among the [n] from [i]. *)
Fixpoint clear_count (n : nat) (bm : Z -> bool) (i : Z) : nat :=
  match n with
  | O => O
  | S n' => (if bm i then 0 else 1) + clear_count n' bm (i + 1)
  end.

Lemma first_clear_some n bm i b :
  first_clear n bm i = Some b ->
  i <= b < i + Z.of_nat n /\ bm b = false /\ forall k, i <= k < b -> bm k = true.
Proof.
  revert i; induction n as [|n IH]; intros i H; [discriminate|].
  cbn [first_clear] in H. destruct (bm i) eqn:E.
  - destruct (IH _ H) as (H1 & H2 & H3). split; [lia|]. split; [exact H2|].
    intros k Hk. destruct (Z.eq_dec k i) as [->|]; [exact E | apply H3; lia].
  - injection H as <-. split; [lia|]. split; [exact E | intros; lia].
Qed.

Lemma first_clear_none n bm i :
  first_clear n bm i = None -> forall k, i <= k < i + Z.of_nat n -> bm k = true.
Proof.
  revert i; induction n as [|n IH]; intros i H k Hk; [lia|].
  cbn [first_clear] in H. destruct (bm i) eqn:E; [|discriminate].
  destruct (Z.eq_dec k i) as [->|]; [exact E | apply (IH _ H); lia].
Qed.

Lemma first_clear_all_set n bm i :
  (forall k, i <= k < i + Z.of_nat n -> bm k = true) -> first_clear n bm i = None.
Proof.
  revert i; induction n as [|n IH]; intros i H; [reflexivity|].
  cbn [first_clear]. rewrite H by lia. apply IH. intros; apply H; lia.
Qed.

Lemma first_clear_is n bm i b :
  i <= b < i + Z.of_nat n -> bm b = false -> (forall k, i <= k < b -> bm k = true) ->
  first_clear n bm i = Some b.
Proof.
  revert i; induction n as [|n IH]; intros i Hb Hc Hs; [lia|].
  cbn [first_clear]. destruct (Z.eq_dec i b) as [->|Hne].
  - now rewrite Hc.
  - rewrite Hs by lia. apply IH; [lia | exact Hc | intros; apply Hs; lia].
Qed.

Lemma clear_count_none n bm i :
  first_clear n bm i = None -> clear_count n bm i = O.
Proof.
  revert i; induction n as [|n IH]; intros i H; [reflexivity|].
  cbn [first_clear clear_count] in *. destruct (bm i); [|discriminate].
  now rewrite IH.
Qed.

Lemma clear_count_ext n bm bm' i :
  (forall k, i <= k < i + Z.of_nat n -> bm' k = bm k) ->
  clear_count n bm' i = clear_count n bm i.
Proof.
  revert i; induction n as [|n IH]; intros i H; [reflexivity|].
  cbn [clear_count]. rewrite H by lia. f_equal. apply IH. intros; apply H; lia.
Qed.

(** Setting the first clear bit leaves one clear bit fewer. *)
Lemma clear_count_set n bm i b :
  first_clear n bm i = Some b ->
  S (clear_count n (upd bm b true) i) = clear_count n bm i.
Proof.
  revert i; induction n as [|n IH]; intros i H; [discriminate|].
  cbn [first_clear clear_count] in *. destruct (bm i) eqn:E.
  - destruct (first_clear_some _ _ _ _ H) as (Hb & _ & _).
    rewrite upd_other by lia. rewrite E. simpl. now apply IH.
  - injection H as <-. rewrite upd_same. simpl. f_equal.
    apply clear_count_ext. intros k Hk. apply upd_other. lia.
Qed.

Lemma bitmap_get_zero bm i : (bitmap_get bm i =? 0) = negb (bm i).
Proof. unfold bitmap_get. now destruct (bm i). Qed.

Lemma bitmap_put_one bm i : bitmap_put bm i 1 = upd bm i true.
Proof. reflexivity. Qed.

Lemma bitmap_put_zero bm i : bitmap_put bm i 0 = upd bm i false.
Proof. reflexivity. Qed.

Lemma alloc_block_scan_run n i s :
  alloc_block_scan n i s
  = match first_clear n (blocks_bitmap s) i with
    | Some b => (b, set_blocks_bitmap (upd (blocks_bitmap s) b true) s)
    | None => (-1, s)
    end.
Proof.
  revert i; induction n as [|n IH]; intro i; [reflexivity|].
  cbn [alloc_block_scan first_clear]. unfold bind at 1, gets.
  rewrite bitmap_get_zero. destruct (blocks_bitmap s i); [apply IH | reflexivity].
Qed.

Lemma alloc_inode_scan_run n i s :
  alloc_inode_scan n i s
  = match first_clear n (inode_bitmap s) i with
    | Some b => (b, set_inode_bitmap (upd (inode_bitmap s) b true) s)
    | None => (-1, s)
    end.
Proof.
  revert i; induction n as [|n IH]; intro i; [reflexivity|].
  cbn [alloc_inode_scan first_clear]. unfold bind at 1, gets.
  rewrite bitmap_get_zero. destruct (inode_bitmap s i); [apply IH | reflexivity].
Qed.

(** The blocks [alloc_block] can still hand out. *)
Definition free_blocks (s : fs) : nat :=
  clear_count (Z.to_nat (BLOCK_COUNT - 1)) (blocks_bitmap s) 1.

(** With a free block left, [alloc_block] returns one: a block in range
    whose bit was clear, now set; nothing else changes. *)
Lemma alloc_block_ok s :
  (0 < free_blocks s)%nat ->
  exists b, alloc_block s = (b, set_blocks_bitmap (upd (blocks_bitmap s) b true) s)
            /\ 1 <= b < BLOCK_COUNT
            /\ blocks_bitmap s b = false
            /\ S (free_blocks (set_blocks_bitmap (upd (blocks_bitmap s) b true) s))
               = free_blocks s.
Proof.
  unfold alloc_block, free_blocks. intro H. rewrite alloc_block_scan_run.
  destruct (first_clear _ (blocks_bitmap s) 1) as [b|] eqn:E.
  - exists b. split; [reflexivity|].
    destruct (first_clear_some _ _ _ _ E) as (Hb & Hc & _).
    pose proof BLOCK_COUNT_range. split; [lia|]. split; [exact Hc|].
    cbn [blocks_bitmap set_blocks_bitmap]. now apply clear_count_set.
  - rewrite (clear_count_none _ _ _ E) in H. lia.
Qed.

(** *** Inserting a directory entry *)

(** The slot [directory_put_scan] finds: the first from [i], among [n],
    whose [input_allocation] is 0. *)
Fixpoint put_slot_scan (n : nat) (ents : Z -> dirent_t) (i : Z) : option Z :=
  match n with
  | O => None
  | S n' =>
      if input_allocation (ents i) =? 0 then Some i
      else put_slot_scan n' ents (i + 1)
  end.

Lemma put_slot_scan_some n ents i j :
  put_slot_scan n ents i = Some j ->
  i <= j < i + Z.of_nat n /\ input_allocation (ents j) = 0
  /\ forall k, i <= k < j -> input_allocation (ents k) <> 0.
Proof.
  revert i; induction n as [|n IH]; intros i H; [discriminate|].
  cbn [put_slot_scan] in H. destruct (input_allocation (ents i) =? 0) eqn:E.
  - injection H as <-. apply Z.eqb_eq in E. split; [lia|]. split; [exact E | intros; lia].
  - destruct (IH _ H) as (H1 & H2 & H3). split; [lia|]. split; [exact H2|].
    intros k Hk. destruct (Z.eq_dec k i) as [->|]; [now apply Z.eqb_neq | apply H3; lia].
Qed.

Lemma put_slot_scan_none n ents i :
  put_slot_scan n ents i = None ->
  forall k, i <= k < i + Z.of_nat n -> input_allocation (ents k) <> 0.
Proof.
  revert i; induction n as [|n IH]; intros i H k Hk; [lia|].
  cbn [put_slot_scan] in H. destruct (input_allocation (ents i) =? 0) eqn:E; [discriminate|].
  destruct (Z.eq_dec k i) as [->|]; [now apply Z.eqb_neq | apply (IH _ H); lia].
Qed.

Lemma directory_put_scan_run n blk e i s :
  directory_put_scan n blk e i s
  = match put_slot_scan n (b_dirents (blocks s blk)) i with
    | Some j => (true, exec (store_dirent blk j e) s)
    | None => (false, s)
    end.
Proof.
  revert i; induction n as [|n IH]; intro i; [reflexivity|].
  cbn [directory_put_scan put_slot_scan]. unfold bind at 1, load_dirent, gets.
  destruct (input_allocation _ =? 0); [reflexivity | apply IH].
Qed.

(** The slot [directory_put] writes: a free one among the entries from
    index 1 on, or else the one after the last. *)
Definition put_slot (s : fs) (d : Z) : Z :=
  let entries := dir_entries_count (size (inodes s d)) in
  match put_slot_scan (Z.to_nat (entries - 1)) (b_dirents (blocks s (dir_block s d))) 1 with
  | Some j => j
  | None => entries
  end.

(** Whether [directory_put] appends. *)
Definition put_appends (s : fs) (d : Z) : bool :=
  let entries := dir_entries_count (size (inodes s d)) in
  match put_slot_scan (Z.to_nat (entries - 1)) (b_dirents (blocks s (dir_block s d))) 1 with
  | Some _ => false
  | None => true
  end.

(** The image [directory_put] leaves. *)
Definition put_image (s : fs) (d : Z) (nm : string) (inum : Z) : fs :=
  let e := mk_dirent (strncpy nm DIR_NAME_LENGTH) inum 1 in
  let s' := exec (store_dirent (dir_block s d) (put_slot s d) e) s in
  if put_appends s d
  then exec (store d (set_size (to_int (to_size_t (size (inodes s d)) + SIZEOF_DIRENT)))) s'
  else s'.

Lemma directory_put_run d nm inum s :
  directory_put d nm inum s = (0, put_image s d nm inum).
Proof.
  unfold directory_put, put_image, put_slot, put_appends, dir_block.
  unfold bind at 1, load at 1, gets at 1. unfold bind at 1, load at 1, gets at 1.
  unfold bind at 1. rewrite directory_put_scan_run.
  destruct (put_slot_scan _ _ 1); reflexivity.
Qed.

Lemma put_image_bitmaps s d nm inum :
  blocks_bitmap (put_image s d nm inum) = blocks_bitmap s
  /\ inode_bitmap (put_image s d nm inum) = inode_bitmap s.
Proof. unfold put_image. destruct (put_appends s d); split; reflexivity. Qed.

Lemma put_image_inode_other s d nm inum n :
  n <> d -> inodes (put_image s d nm inum) n = inodes s n.
Proof.
  unfold put_image. intro H. destruct (put_appends s d); [|reflexivity].
  cbn. now rewrite upd_other.
Qed.

Lemma put_image_inode s d nm inum n :
  let i' := inodes (put_image s d nm inum) n in
  let i := inodes s n in
  refs i' = refs i /\ mode i' = mode i /\ block i' = block i
  /\ pointers i' = pointers i
  /\ size i' = if (n =? d) && put_appends s d
               then to_int (to_size_t (size i) + SIZEOF_DIRENT) else size i.
Proof.
  unfold put_image. destruct (put_appends s d); cbn.
  - unfold upd. destruct (n =? d) eqn:E; cbn; auto.
    apply Z.eqb_eq in E. subst. auto.
  - rewrite andb_false_r. auto.
Qed.

Lemma put_image_blocks s d nm inum b :
  let b' := blocks (put_image s d nm inum) b in
  b_data b' = b_data (blocks s b) /\ b_ptrs b' = b_ptrs (blocks s b)
  /\ forall i, b_dirents b' i
               = if (b =? dir_block s d) && (i =? put_slot s d)
                 then mk_dirent (strncpy nm DIR_NAME_LENGTH) inum 1
                 else b_dirents (blocks s b) i.
Proof.
  unfold put_image.
  assert (H : let b' := blocks (exec (store_dirent (dir_block s d) (put_slot s d)
                          (mk_dirent (strncpy nm DIR_NAME_LENGTH) inum 1)) s) b in
              b_data b' = b_data (blocks s b) /\ b_ptrs b' = b_ptrs (blocks s b)
              /\ forall i, b_dirents b' i
               = if (b =? dir_block s d) && (i =? put_slot s d)
                 then mk_dirent (strncpy nm DIR_NAME_LENGTH) inum 1
                 else b_dirents (blocks s b) i).
  { cbn. unfold upd. destruct (b =? dir_block s d) eqn:E; cbn; auto.
    apply Z.eqb_eq in E. subst. auto. }
  destruct (put_appends s d); exact H.
Qed.

Lemma put_image_dir_block s d nm inum n :
  dir_block (put_image s d nm inum) n = dir_block s n.
Proof.
  unfold dir_block. destruct (put_image_inode s d nm inum n) as (_ & _ & _ & H & _).
  now rewrite H.
Qed.

(** *** Well-formed directories *)

Lemma forallb_iota (f : Z -> bool) i n :
  forallb f (iota i n) = true <-> forall k, i <= k < i + Z.of_nat n -> f k = true.
Proof.
  revert i; induction n as [|n IH]; intro i; cbn [iota forallb].
  - split; [intros; lia | reflexivity].
  - rewrite andb_true_iff, IH. split.
    + intros [H1 H2] k Hk. destruct (Z.eq_dec k i) as [->|]; [exact H1 | apply H2; lia].
    + intro H. split; [apply H; lia | intros; apply H; lia].
Qed.

(** A directory whose recorded size is that of an [int] >= 0, whose
    entries among the 64 that [directory_lookup] scans carry the flag 0 or
    1, and those with flag 1 lie below [size / sizeof(dirent_t)]. *)
Definition wf_dir (s : fs) (d : Z) : bool :=
  let sz := size (inodes s d) in
  (0 <=? sz) && (sz <=? INT_MAX)
  && forallb (fun i => let a := input_allocation (entry_at s d i) in
                       (a =? 0) || ((a =? 1) && (i <? dir_entries_count sz)))
             (iota 0 64).

(** No entry that [directory_lookup] would return bears the name. *)
Definition name_free (s : fs) (d : Z) (nm : string) : bool :=
  forallb (fun i => negb (visible (entry_at s d i) nm)) (iota 0 64).

Lemma to_size_t_small z : 0 <= z <= INT_MAX -> to_size_t z = z.
Proof. unfold to_size_t, INT_MAX. intro. apply Z.mod_small. lia. Qed.

Lemma dir_entries_count_small sz :
  0 <= sz <= INT_MAX -> dir_entries_count sz = sz / SIZEOF_DIRENT.
Proof.
  intro H. unfold dir_entries_count. rewrite to_size_t_small by exact H.
  pose proof SIZEOF_DIRENT_range as Hs.
  assert (0 <= sz / SIZEOF_DIRENT <= sz).
  { split; [apply Z.div_pos; lia|]. apply Z.div_le_upper_bound; nia. }
  apply to_int_small. unfold INT_MAX in *. lia.
Qed.

Lemma wf_dir_spec s d :
  wf_dir s d = true ->
  0 <= size (inodes s d) <= INT_MAX
  /\ forall i, 0 <= i < 64 ->
       input_allocation (entry_at s d i) = 0
       \/ (input_allocation (entry_at s d i) = 1
           /\ i < size (inodes s d) / SIZEOF_DIRENT).
Proof.
  unfold wf_dir. cbv zeta. rewrite !andb_true_iff, forallb_iota.
  intros [[H1 H2] H3]. apply Z.leb_le in H1, H2.
  split; [lia|]. intros i Hi. specialize (H3 i ltac:(lia)). cbv beta in H3.
  rewrite dir_entries_count_small in H3 by lia.
  apply orb_prop in H3 as [H3|H3].
  - left. now apply Z.eqb_eq.
  - right. apply andb_prop in H3 as [Ha Hb]. split; [now apply Z.eqb_eq | now apply Z.ltb_lt].
Qed.

Lemma name_free_spec s d nm :
  name_free s d nm = true ->
  forall i, 0 <= i < 64 -> visible (entry_at s d i) nm = false.
Proof.
  unfold name_free. rewrite forallb_iota. intros H i Hi.
  apply negb_true_iff. apply H. lia.
Qed.

Lemma entries_nonneg s d :
  wf_dir s d = true -> 0 <= dir_entries_count (size (inodes s d)).
Proof.
  intro H. apply wf_dir_spec in H as [H _].
  rewrite dir_entries_count_small by exact H.
  pose proof SIZEOF_DIRENT_range. apply Z.div_pos; lia.
Qed.

Lemma put_slot_range s d :
  wf_dir s d = true ->
  0 <= put_slot s d <= dir_entries_count (size (inodes s d)).
Proof.
  intro H. pose proof (entries_nonneg s d H) as He. unfold put_slot. cbv zeta.
  destruct (put_slot_scan _ _ 1) as [j|] eqn:E; [|lia].
  apply put_slot_scan_some in E as (Hj & _ & _). lia.
Qed.

(** The slot [directory_put] writes holds no allocated entry, in a
    well-formed directory that has the slot among its 64. *)
Lemma put_slot_unallocated s d :
  wf_dir s d = true -> put_slot s d < 64 ->
  input_allocation (entry_at s d (put_slot s d)) = 0.
Proof.
  intros Hwf Hlt. pose proof (put_slot_range s d Hwf) as Hr.
  pose proof (wf_dir_spec s d Hwf) as [Hsz Hall].
  unfold put_slot in *. cbv zeta in *.
  destruct (put_slot_scan _ _ 1) as [j|] eqn:E.
  - now apply put_slot_scan_some in E as (_ & E & _).
  - assert (Hi : 0 <= dir_entries_count (size (inodes s d)) < 64) by lia.
    destruct (Hall _ Hi) as [H|[_ H]]; [exact H|].
    rewrite dir_entries_count_small in H by exact Hsz. lia.
Qed.

(** *** Lookups across a change of the image *)

(** A lookup in [d] gives the same in two images when [d] has the same
    block in both and the entries differ only in ones the name does not
    see. *)
Lemma lookup_same_at d c s s' :
  dir_block s' d = dir_block s d ->
  (forall i, 0 <= i < 64 ->
     entry_at s' d i = entry_at s d i
     \/ (visible (entry_at s d i) c = false /\ visible (entry_at s' d i) c = false)) ->
  eval (directory_lookup d c) s' = eval (directory_lookup d c) s.
Proof.
  intros Hb He. unfold eval. rewrite !directory_lookup_run. cbn [fst].
  destruct (String.eqb "" c); [reflexivity|].
  apply lookup_entries_ext. intros j Hj. apply (He j). simpl in Hj. lia.
Qed.

(** Images with the same directories: every inode has the same first
    pointer and every block the same entries. *)
Definition same_dirs (s s' : fs) : Prop :=
  (forall n, dir_block s' n = dir_block s n)
  /\ (forall b i, b_dirents (blocks s' b) i = b_dirents (blocks s b) i).

Lemma same_dirs_refl s : same_dirs s s.
Proof. split; reflexivity. Qed.

Lemma same_dirs_trans s1 s2 s3 : same_dirs s1 s2 -> same_dirs s2 s3 -> same_dirs s1 s3.
Proof. intros [A B] [C D]. split; intros; [rewrite C, A | rewrite D, B]; reflexivity. Qed.

Lemma same_dirs_entry s s' d i : same_dirs s s' -> entry_at s' d i = entry_at s d i.
Proof. intros [A B]. unfold entry_at. fold (dir_block s' d) (dir_block s d). now rewrite A, B. Qed.

Lemma same_dirs_lookup s s' d c :
  same_dirs s s' -> eval (directory_lookup d c) s' = eval (directory_lookup d c) s.
Proof.
  intros H. apply lookup_same_at; [apply H|].
  intros i _. left. now apply same_dirs_entry.
Qed.

Lemma same_dirs_walk s s' comps i :
  same_dirs s s' -> eval (path_lookup_walk comps i) s' = eval (path_lookup_walk comps i) s.
Proof.
  intro H. apply walk_frame. apply Forall_forall. intros dc _.
  now apply same_dirs_lookup.
Qed.

Lemma same_dirs_path s s' path :
  same_dirs s s' -> eval (path_lookup path) s' = eval (path_lookup path) s.
Proof. apply same_dirs_walk. Qed.

(** A walk that succeeds found every component. *)
Lemma walk_trace_success comps i s :
  eval (path_lookup_walk comps i) s <> -1 ->
  Forall (fun dc => eval (directory_lookup (fst dc) (snd dc)) s <> -1)
         (walk_trace s comps i).
Proof.
  revert i; induction comps as [|c rest IH]; intros i H; [constructor|].
  rewrite path_lookup_walk_cons in H. cbv zeta in H. cbn [walk_trace].
  destruct (eval (directory_lookup i c) s =? -1) eqn:E; [congruence|].
  constructor; [now apply Z.eqb_neq | now apply IH].
Qed.

Lemma name_matches_short nm inum a c :
  short nm = true -> name_matches (mk_dirent nm inum a) c = String.eqb nm c.
Proof. unfold name_matches, short. cbn. now intros ->. Qed.

Lemma name_free_lookup s d d' nm :
  name_free s d nm = true -> nonempty nm = true -> dir_block s d' = dir_block s d ->
  eval (directory_lookup d' nm) s = -1.
Proof.
  intros Hf Hn Hb. unfold eval. rewrite directory_lookup_run. cbn [fst].
  unfold nonempty in Hn. rewrite String.eqb_sym in Hn. apply negb_true_iff in Hn.
  rewrite Hn, Hb. apply lookup_entries_none. intros j Hj.
  apply (name_free_spec s d nm Hf). simpl in Hj. lia.
Qed.

Lemma entry_at_put s d nm inum d' i :
  entry_at (put_image s d nm inum) d' i
  = if (dir_block s d' =? dir_block s d) && (i =? put_slot s d)
    then mk_dirent (strncpy nm DIR_NAME_LENGTH) inum 1
    else entry_at s d' i.
Proof.
  unfold entry_at. fold (dir_block (put_image s d nm inum) d') (dir_block s d').
  rewrite put_image_dir_block.
  now destruct (put_image_blocks s d nm inum (dir_block s d')) as (_ & _ & ->).
Qed.

Lemma entry_at_same_block s d d' i :
  dir_block s d' = dir_block s d -> entry_at s d' i = entry_at s d i.
Proof. unfold entry_at, dir_block. now intros ->. Qed.

(** A lookup is not affected by an insertion under another name or into
    another block. *)
Lemma lookup_after_put_other s d nm inum d' c :
  wf_dir s d = true -> put_slot s d < 64 -> short nm = true ->
  String.eqb nm c = false \/ dir_block s d' <> dir_block s d ->
  eval (directory_lookup d' c) (put_image s d nm inum)
  = eval (directory_lookup d' c) s.
Proof.
  intros Hwf Hlt Hs Hor. apply lookup_same_at; [apply put_image_dir_block|].
  intros i Hi. rewrite entry_at_put.
  destruct (dir_block s d' =? dir_block s d) eqn:Eb; [|now left].
  destruct (i =? put_slot s d) eqn:Ei; [|now left].
  apply Z.eqb_eq in Eb, Ei. right. cbn [andb]. split.
  - unfold visible. rewrite (entry_at_same_block s d d' i Eb), Ei.
    rewrite (put_slot_unallocated s d Hwf Hlt). apply andb_false_r.
  - unfold visible. rewrite strncpy_short by exact Hs.
    rewrite name_matches_short by exact Hs.
    destruct Hor as [->|Hne]; [reflexivity | contradiction].
Qed.

(** The inserted name is found, where no entry bore it before. *)
Lemma lookup_after_put_new s d nm inum d' :
  wf_dir s d = true -> put_slot s d < 64 ->
  short nm = true -> nonempty nm = true -> name_free s d nm = true ->
  dir_block s d' = dir_block s d ->
  eval (directory_lookup d' nm) (put_image s d nm inum) = inum.
Proof.
  intros Hwf Hlt Hs Hn Hf Hb. unfold eval. rewrite directory_lookup_run. cbn [fst].
  unfold nonempty in Hn. rewrite String.eqb_sym in Hn. apply negb_true_iff in Hn.
  rewrite Hn. pose proof (put_slot_range s d Hwf) as Hr.
  set (ents := b_dirents _).
  assert (He : forall i, ents i = entry_at (put_image s d nm inum) d' i) by reflexivity.
  rewrite (lookup_entries_first 64 ents nm 0 (put_slot s d)).
  - rewrite He, entry_at_put, Hb, !Z.eqb_refl. reflexivity.
  - simpl. lia.
  - rewrite He, entry_at_put, Hb, !Z.eqb_refl. cbn [andb]. unfold visible.
    rewrite strncpy_short, name_matches_short by exact Hs.
    now rewrite String.eqb_refl.
  - intros k Hk. rewrite He, entry_at_put.
    replace (k =? put_slot s d) with false by (symmetry; apply Z.eqb_neq; lia).
    rewrite andb_false_r, (entry_at_same_block s d d' k Hb).
    apply (name_free_spec s d nm Hf). lia.
Qed.

(** A walk that succeeds is not affected by the insertion of a name that
    no entry of the directory bore. *)
Lemma walk_after_put s d nm inum comps i :
  wf_dir s d = true -> put_slot s d < 64 ->
  short nm = true -> nonempty nm = true -> name_free s d nm = true ->
  eval (path_lookup_walk comps i) s <> -1 ->
  eval (path_lookup_walk comps i) (put_image s d nm inum)
  = eval (path_lookup_walk comps i) s.
Proof.
  intros Hwf Hlt Hs Hn Hf Hok. apply walk_frame.
  pose proof (walk_trace_success comps i s Hok) as Ht.
  rewrite Forall_forall in *. intros [d' c] Hin. specialize (Ht _ Hin).
  cbn [fst snd] in *. apply lookup_after_put_other; auto.
  destruct (String.eqb nm c) eqn:E; [|now left]. right. intro Hb.
  apply String.eqb_eq in E. subst c. apply Ht.
  now apply (name_free_lookup s d d' nm).
Qed.

(** *** [storage_link] *)

(** The image [storage_link] leaves when [to] resolves. *)
Definition link_image (s : fs) (pa : Z) (nm : string) (ib : Z) : fs :=
  let s1 := put_image s pa nm ib in
  exec (store ib (set_refs (refs (inodes s1 ib) + 1))) s1.

Lemma storage_link_run from to s :
  0 <= eval (path_lookup to) s ->
  storage_link from to s
  = (0, link_image s (eval (path_lookup (fst (split_path from))) s)
                     (snd (split_path from)) (eval (path_lookup to) s)).
Proof.
  intro H. unfold storage_link, link_image.
  unfold bind at 1. rewrite (readonly_run _ (readonly_path_lookup to) s).
  destruct (eval (path_lookup to) s <? 0) eqn:E; [apply Z.ltb_lt in E; lia|].
  destruct (split_path from) as [parentPath fileName]. cbn [fst snd].
  unfold bind at 1. rewrite (readonly_run _ (readonly_path_lookup parentPath) s).
  unfold bind at 1, get_inode. rewrite directory_put_run.
  reflexivity.
Qed.

Lemma link_image_same_dirs s pa nm ib :
  same_dirs (put_image s pa nm ib) (link_image s pa nm ib).
Proof.
  unfold link_image. split.
  - intro n. unfold dir_block. cbn. unfold upd. destruct (n =? ib) eqn:E; [|reflexivity].
    apply Z.eqb_eq in E. now subst.
  - reflexivity.
Qed.


(** *** Loops *)

Lemma for_down_invariant (I : Z -> fs -> Prop) body n i s :
  I i s ->
  (forall k t, i - Z.of_nat n < k <= i -> I k t -> I (k - 1) (exec (body k) t)) ->
  I (i - Z.of_nat n) (exec (for_down n i body) s).
Proof.
  revert i s; induction n as [|n IH]; intros i s H0 Hstep.
  - cbn [for_down]. rewrite exec_ret. now replace (i - Z.of_nat 0) with i by lia.
  - cbn [for_down]. rewrite exec_bind.
    replace (i - Z.of_nat (S n)) with (i - 1 - Z.of_nat n) by lia.
    apply IH.
    + apply Hstep; [lia | exact H0].
    + intros k t Hk. apply Hstep. lia.
Qed.

Lemma for_up_invariant (I : Z -> fs -> Prop) body n i s :
  I i s ->
  (forall k t, i <= k < i + Z.of_nat n -> I k t -> I (k + 1) (exec (body k) t)) ->
  I (i + Z.of_nat n) (exec (for_up n i body) s).
Proof.
  revert i s; induction n as [|n IH]; intros i s H0 Hstep.
  - cbn [for_up]. rewrite exec_ret. now replace (i + Z.of_nat 0) with i by lia.
  - cbn [for_up]. rewrite exec_bind.
    replace (i + Z.of_nat (S n)) with (i + 1 + Z.of_nat n) by lia.
    apply IH.
    + apply Hstep; [lia | exact H0].
    + intros k t Hk. apply Hstep. lia.
Qed.

(** *** The extent map of an inode *)

(** The block that holds extent [k] of inode [n]: a direct pointer, or an
    entry of the indirect block. *)
Definition extent (s : fs) (n k : Z) : Z :=
  if 2 <=? k then b_ptrs (blocks s (block (inodes s n))) (k - 2)
  else pointers (inodes s n) k.

Lemma inode_get_bnum_run n file_bnum s :
  inode_get_bnum n file_bnum s = (extent s n (Z.quot file_bnum BLOCK_SIZE), s).
Proof.
  unfold inode_get_bnum, extent. now destruct (2 <=? Z.quot file_bnum BLOCK_SIZE).
Qed.

(** *** Shrinking and freeing an inode *)

(** What the passes of [shrink_inode] down to [k] have done to the image
    [s] it started from. *)
Definition shrunk_to (s : fs) (n c k : Z) (t : fs) : Prop :=
  blocks t = blocks s
  /\ inode_bitmap t = inode_bitmap s
  /\ (forall x, x <> n -> inodes t x = inodes s x)
  /\ (forall b, blocks_bitmap t b = true -> blocks_bitmap s b = true)
  /\ (forall j, k < j <= c -> blocks_bitmap t (extent s n j) = false)
  /\ refs (inodes t n) = refs (inodes s n)
  /\ mode (inodes t n) = mode (inodes s n)
  /\ size (inodes t n) = size (inodes s n)
  /\ (2 <= k -> block (inodes t n) = block (inodes s n))
  /\ (forall j, j <= k -> pointers (inodes t n) j = pointers (inodes s n) j)
  /\ (forall j, k < j <= c -> j < 2 -> pointers (inodes t n) j = 0).

Lemma shrunk_to_start s n c : shrunk_to s n c c s.
Proof. unfold shrunk_to. repeat split; auto; intros; lia. Qed.

Lemma free_block_bit b x s :
  blocks_bitmap (exec (free_block b) s) x = if x =? b then false else blocks_bitmap s x.
Proof. reflexivity. Qed.

Lemma shrunk_to_step s n c k t body :
  body = (fun i : Z =>
    if 2 <=? i then
      current_pointer <- load block n ;;
      curr_point <- load_ptr current_pointer (i - 2) ;;
      free_block curr_point ;;
      when (i =? 2) (blk <- load block n ;;
                     free_block blk ;;
                     store n (set_block 0))
    else
      p <- load (fun n => pointers n i) n ;;
      free_block p ;;
      store n (set_pointer i 0)) ->
  k <= c -> shrunk_to s n c k t -> shrunk_to s n c (k - 1) (exec (body k) t).
Proof.
  intros -> Hk (Hb & Hib & Hot & Hmono & Hfreed & Hr & Hm & Hs & Hblk & Hp & Hz).
  destruct (2 <=? k) eqn:E2.
  - apply Z.leb_le in E2. specialize (Hblk E2).
    assert (Hext : b_ptrs (blocks t (block (inodes t n))) (k - 2) = extent s n k).
    { unfold extent. apply Z.leb_le in E2. rewrite E2. apply Z.leb_le in E2.
      now rewrite Hb, Hblk. }
    destruct (k =? 2) eqn:Ek.
    + apply Z.eqb_eq in Ek.
      unfold shrunk_to; cbn; rewrite Hext; cbn.
      repeat split; auto.
      * intros x Hx. rewrite upd_other by exact Hx. now apply Hot.
      * intros b. unfold bitmap_put, upd.
        destruct (b =? block (inodes t n)); [discriminate|].
        destruct (b =? extent s n k); [discriminate | apply Hmono].
      * intros j Hj. unfold bitmap_put, upd.
        destruct (_ =? block (inodes t n)); [reflexivity|].
        destruct (Z.eq_dec j k) as [->|Hne]; [now rewrite Z.eqb_refl|].
        destruct (_ =? extent s n k); [reflexivity | apply Hfreed; lia].
      * now rewrite upd_same.
      * now rewrite upd_same.
      * now rewrite upd_same.
      * intro; lia.
      * intros j Hj. rewrite upd_same. cbn. apply Hp. lia.
      * intros j Hj Hj2. lia.
    + apply Z.eqb_neq in Ek.
      unfold shrunk_to; cbn; rewrite Hext; cbn.
      repeat split; auto.
      * intros b. unfold bitmap_put, upd.
        destruct (b =? extent s n k); [discriminate | apply Hmono].
      * intros j Hj. unfold bitmap_put, upd.
        destruct (Z.eq_dec j k) as [->|Hne]; [now rewrite Z.eqb_refl|].
        destruct (_ =? extent s n k); [reflexivity | apply Hfreed; lia].
      * intros j Hj. apply Hp. lia.
      * intros j Hj Hj2. lia.
  - apply Z.leb_gt in E2.
    assert (Hext : pointers (inodes t n) k = extent s n k).
    { unfold extent. apply Z.leb_gt in E2. rewrite E2. apply Hp. lia. }
    unfold shrunk_to; cbn; rewrite Hext; cbn.
    repeat split; auto.
    * intros x Hx. rewrite upd_other by exact Hx. now apply Hot.
    * intros b. unfold bitmap_put, upd.
      destruct (b =? extent s n k); [discriminate | apply Hmono].
    * intros j Hj. unfold bitmap_put, upd.
      destruct (Z.eq_dec j k) as [->|Hne]; [now rewrite Z.eqb_refl|].
      destruct (_ =? extent s n k); [reflexivity | apply Hfreed; lia].
    * now rewrite upd_same.
    * now rewrite upd_same.
    * now rewrite upd_same.
    * intro; lia.
    * intros j Hj. rewrite upd_same. cbn. rewrite upd_other by lia. apply Hp. lia.
    * intros j Hj Hj2. rewrite upd_same. cbn.
      destruct (Z.eq_dec j k) as [->|Hne]; [apply upd_same|].
      rewrite upd_other by exact Hne. apply Hz; lia.
Qed.

Lemma eval_load_dirent b i s : eval (load_dirent b i) s = b_dirents (blocks s b) i.
Proof. reflexivity. Qed.

Lemma exec_load_dirent b i s : exec (load_dirent b i) s = s.
Proof. reflexivity. Qed.

Lemma eval_load_ptr b i s : eval (load_ptr b i) s = b_ptrs (blocks s b) i.
Proof. reflexivity. Qed.

Lemma exec_load_ptr b i s : exec (load_ptr b i) s = s.
Proof. reflexivity. Qed.

Lemma exec_store n f s :
  exec (store n f) s = set_inodes (upd (inodes s) n (f (inodes s n))) s.
Proof. reflexivity. Qed.

Lemma exec_when_true m s : exec (when true m) s = exec m s.
Proof. reflexivity. Qed.

Lemma exec_when_false m s : exec (when false m) s = s.
Proof. reflexivity. Qed.

(** Steps through the binds of a computation applied to an image. *)
Ltac run :=
  repeat (rewrite ?eval_bind, ?exec_bind, ?eval_load, ?exec_load, ?eval_gets,
            ?exec_gets, ?exec_modify, ?eval_ret, ?exec_ret, ?eval_load_dirent,
            ?exec_load_dirent, ?eval_load_ptr, ?exec_load_ptr).

Lemma shrink_inode_run n new_size s :
  let c := Z.quot (size (inodes s n)) BLOCK_SIZE + 1 in
  let m := Z.quot new_size BLOCK_SIZE in
  exists t,
    shrunk_to s n c (c - Z.of_nat (Z.to_nat (c - m + 1))) t
    /\ shrink_inode n new_size s = (0, exec (store n (set_size new_size)) t).
Proof.
  intros c m. unfold shrink_inode.
  rewrite (run_pair (bind _ _)), eval_bind, exec_bind, eval_load, exec_load.
  fold c m. set (body := fun i : Z => _).
  exists (exec (for_down (Z.to_nat (c - m + 1)) c body) s). split.
  - apply (for_down_invariant (shrunk_to s n c)); [apply shrunk_to_start|].
    intros k t Hk Hi. apply shrunk_to_step; [reflexivity | lia | exact Hi].
  - rewrite eval_bind, exec_bind, eval_bind, exec_bind. reflexivity.
Qed.

(** [free_inode]: the inode's bit is cleared, the bits of the blocks of its
    extents 0 to [size / BLOCK_SIZE + 1] are clear, no bit has been set and
    no block contents or other inode changed; the inode's size is 0, as the
    closing [assert] demands. *)
Lemma free_inode_effect n s :
  0 <= size (inodes s n) ->
  let s' := exec (free_inode n) s in
  blocks s' = blocks s
  /\ inode_bitmap s' = upd (inode_bitmap s) n false
  /\ (forall x, x <> n -> inodes s' x = inodes s x)
  /\ (forall b, blocks_bitmap s' b = true -> blocks_bitmap s b = true)
  /\ (forall j, 0 <= j <= size (inodes s n) / BLOCK_SIZE + 1 ->
        blocks_bitmap s' (extent s n j) = false)
  /\ refs (inodes s' n) = refs (inodes s n)
  /\ mode (inodes s' n) = mode (inodes s n)
  /\ size (inodes s' n) = 0.
Proof.
  intros Hsz s'. subst s'. unfold free_inode, get_inode.
  rewrite exec_bind.
  destruct (shrink_inode_run n 0 s) as (t & Ht & E). cbv zeta in Ht.
  rewrite (run_pair (shrink_inode n 0)) in E. injection E as _ E. rewrite E.
  pose proof BLOCK_SIZE_range as Hbs.
  assert (Hq : Z.quot (size (inodes s n)) BLOCK_SIZE = size (inodes s n) / BLOCK_SIZE).
  { apply Z.quot_div_nonneg; lia. }
  assert (Hd : 0 <= size (inodes s n) / BLOCK_SIZE) by (apply Z.div_pos; lia).
  rewrite Hq in Ht. rewrite Z.quot_0_l in Ht by lia.
  replace (size (inodes s n) / BLOCK_SIZE + 1
           - Z.of_nat (Z.to_nat (size (inodes s n) / BLOCK_SIZE + 1 - 0 + 1)))
    with (-1) in Ht by lia.
  destruct Ht as (Hb & Hib & Hot & Hmono & Hfreed & Hr & Hm & Hs & Hblk & Hp & Hz).
  cbn. rewrite Hb, Hib. repeat split; auto.
  - intros x Hx. rewrite upd_other by exact Hx. now apply Hot.
  - intros b. unfold bitmap_put, upd. destruct (b =? _); [discriminate | apply Hmono].
  - intros j Hj. unfold bitmap_put, upd. destruct (_ =? _); [reflexivity|].
    apply Hfreed. lia.
  - now rewrite upd_same.
  - now rewrite upd_same.
  - now rewrite upd_same.
Qed.

Lemma free_inode_size n s : 0 <= size (inodes s n) ->
  size (inodes (exec (free_inode n) s) n) = 0.
Proof. intro H. apply (free_inode_effect n s H). Qed.

(** *** Deleting a directory entry *)

(** The test of [directory_delete]'s scan. *)
Definition del_match (e : dirent_t) (nm : string) : bool :=
  name_matches e nm && negb (input_allocation e =? 0).

Fixpoint delete_slot_scan (n : nat) (ents : Z -> dirent_t) (nm : string) (i : Z)
  : option Z :=
  match n with
  | O => None
  | S n' =>
      if del_match (ents i) nm then Some i
      else delete_slot_scan n' ents nm (i + 1)
  end.

(** What [directory_delete] does with the entry it has found. *)
Definition delete_found (directory_entries i : Z) : M Z :=
  e <- load_dirent directory_entries i ;;
  let inum := inum e in
  let curr_inode := get_inode inum in
  r <- load refs curr_inode ;;
  store curr_inode (set_refs (r - 1)) ;;
  r' <- load refs curr_inode ;;
  when (r' <=? 0) (free_inode inum) ;;
  e' <- load_dirent directory_entries i ;;
  store_dirent directory_entries i (set_input_allocation 0 e') ;;
  ret 0.

Lemma directory_delete_scan_run n blk nm i s :
  directory_delete_scan n blk nm i s
  = match delete_slot_scan n (b_dirents (blocks s blk)) nm i with
    | Some j => delete_found blk j s
    | None => (- ENOENT, s)
    end.
Proof.
  revert i; induction n as [|n IH]; intro i; [reflexivity|].
  cbn [directory_delete_scan delete_slot_scan]. unfold bind at 1, load_dirent at 1, gets at 1.
  unfold del_match. destruct (name_matches _ nm && _); [reflexivity | apply IH].
Qed.

Lemma delete_slot_scan_first n ents nm i j :
  i <= j < i + Z.of_nat n ->
  del_match (ents j) nm = true ->
  (forall k, i <= k < j -> del_match (ents k) nm = false) ->
  delete_slot_scan n ents nm i = Some j.
Proof.
  revert i; induction n as [|n IH]; intros i Hj Hm Hf; [lia|].
  cbn [delete_slot_scan]. destruct (Z.eq_dec i j) as [->|Hne].
  - now rewrite Hm.
  - rewrite Hf by lia. apply IH; [lia | exact Hm | intros; apply Hf; lia].
Qed.

Lemma directory_delete_run d nm s :
  directory_delete d nm s
  = match delete_slot_scan (Z.to_nat (dir_entries_count (size (inodes s d))))
            (b_dirents (blocks s (dir_block s d))) nm 0 with
    | Some j => delete_found (dir_block s d) j s
    | None => (- ENOENT, s)
    end.
Proof.
  unfold directory_delete. unfold bind, load, gets. apply directory_delete_scan_run.
Qed.

(** The entry found has other links left: only its count and the entry's
    flag change. *)
Lemma delete_found_keep blk j s :
  let e := b_dirents (blocks s blk) j in
  1 < refs (inodes s (inum e)) ->
  delete_found blk j s
  = (0, exec (store_dirent blk j (set_input_allocation 0 e))
          (exec (store (inum e) (set_refs (refs (inodes s (inum e)) - 1))) s)).
Proof.
  intros e H. unfold delete_found, get_inode.
  rewrite (run_pair (bind _ _)). run. fold e.
  set (s1 := exec (store _ _) s).
  assert (Hr : refs (inodes s1 (inum e)) = refs (inodes s (inum e)) - 1).
  { unfold s1. rewrite exec_store. cbn. now rewrite upd_same. }
  rewrite Hr.
  replace (refs (inodes s (inum e)) - 1 <=? 0) with false by (symmetry; apply Z.leb_gt; lia).
  rewrite exec_when_false. reflexivity.
Qed.



(** Appending an entry to a well-formed directory that has the slot among
    its 64 makes it one entry longer. *)
Lemma append_grows s d :
  wf_dir s d = true -> put_appends s d = true -> put_slot s d < 64 ->
  let sz' := to_int (to_size_t (size (inodes s d)) + SIZEOF_DIRENT) in
  sz' = size (inodes s d) + SIZEOF_DIRENT
  /\ 0 <= sz' <= INT_MAX
  /\ dir_entries_count sz' = dir_entries_count (size (inodes s d)) + 1
  /\ put_slot s d = dir_entries_count (size (inodes s d)).
Proof.
  intros Hwf Hap Hlt. pose proof (wf_dir_spec s d Hwf) as [Hsz _].
  assert (Hslot : put_slot s d = dir_entries_count (size (inodes s d))).
  { unfold put_slot, put_appends in *. cbv zeta in *.
    now destruct (put_slot_scan _ _ 1). }
  rewrite Hslot in Hlt. rewrite dir_entries_count_small in Hlt by exact Hsz.
  pose proof SIZEOF_DIRENT_range as Hs. pose proof dirents_fit as Hf.
  pose proof BLOCK_SIZE_range as Hb.
  assert (Hlt' : size (inodes s d) < 64 * SIZEOF_DIRENT).
  { pose proof (Z.mul_succ_div_gt (size (inodes s d)) SIZEOF_DIRENT). nia. }
  cbv zeta. rewrite to_size_t_small by exact Hsz.
  rewrite to_int_small by (unfold INT_MAX in *; lia).
  split; [reflexivity|].
  split; [unfold INT_MAX in *; lia|]. split; [|exact Hslot].
  rewrite !dir_entries_count_small by (unfold INT_MAX in *; lia).
  replace (size (inodes s d) + SIZEOF_DIRENT)
    with (size (inodes s d) + 1 * SIZEOF_DIRENT) by lia.
  rewrite Z.div_add by lia. reflexivity.
Qed.


Lemma to_size_t_two : to_size_t 2 = 2.
Proof. reflexivity. Qed.

Lemma to_size_t_one : to_size_t 1 = 1.
Proof. reflexivity. Qed.

Lemma eval_alloc_inode s :
  eval alloc_inode s = eval (alloc_inode_scan (Z.to_nat BLOCK_COUNT) 0) s.
Proof. unfold alloc_inode. run. reflexivity. Qed.

(** *** Linking and unlinking *)

Section LinkUnlink.

Variables (a b : string) (s : fs).

Hypothesis Ha : path_ok a = true.
Hypothesis Hb : path_ok b = true.

Let ib := eval (path_lookup b) s.
Let pa := eval (path_lookup (fst (split_path a))) s.
Let pb := eval (path_lookup (fst (split_path b))) s.
Let nA := base_name a.
Let nB := base_name b.
Let slot := put_slot s pa.

Hypothesis Hib : 0 < ib.
Hypothesis Hrefs : refs (inodes s ib) = 1.
Hypothesis Hsize : 0 <= size (inodes s ib).
Hypothesis Hpa : pa <> -1.
Hypothesis Hwfa : wf_dir s pa = true.
Hypothesis Hfree : name_free s pa nA = true.
Hypothesis Hroom : put_slot s pa < 64.
Hypothesis Hwfb : wf_dir s pb = true.

Let s1 := exec (storage_link a b) s.
Let s2 := exec (storage_unlink a) s1.
Let s3 := exec (storage_unlink b) s2.

Lemma link_nA : nonempty nA = true.
Proof. apply (path_ok_resolution a Ha). Qed.

Lemma link_sA : short nA = true.
Proof. apply (path_ok_resolution a Ha). Qed.

Lemma link_nB : nonempty nB = true.
Proof. apply (path_ok_resolution b Hb). Qed.

Lemma link_sB : short nB = true.
Proof. apply (path_ok_resolution b Hb). Qed.

Lemma link_split_a : split_path a = (fst (split_path a), nA).
Proof.
  pose proof (path_ok_resolution a Ha) as (_ & _ & E & _). fold nA in E.
  rewrite <- E. apply surjective_pairing.
Qed.





Lemma link_full_b t :
  eval (path_lookup (fst (split_path b))) t <> -1 ->
  eval (path_lookup b) t
  = eval (directory_lookup (eval (path_lookup (fst (split_path b))) t) nB) t.
Proof.
  pose proof (path_ok_resolution b Hb) as (_ & _ & _ & E). destruct (E t) as [E1 E2].
  rewrite E2, E1. cbv zeta. intro H. apply Z.eqb_neq in H. now rewrite H.
Qed.

Lemma link_pb : pb <> -1.
Proof.
  intro H. pose proof (path_ok_resolution b Hb) as (_ & _ & _ & E). destruct (E s) as [E1 E2].
  unfold ib in Hib. rewrite E2 in Hib. cbv zeta in Hib. rewrite <- E1 in Hib.
  fold pb in Hib. rewrite H in Hib. simpl in Hib. lia.
Qed.

Lemma link_lookup_b : eval (directory_lookup pb nB) s = ib.
Proof. unfold ib. now rewrite (link_full_b s link_pb). Qed.

(** The image after the link. *)
Lemma link_s1 : s1 = link_image s pa nA ib /\ eval (storage_link a b) s = 0.
Proof.
  unfold s1, exec, eval. rewrite storage_link_run by (fold ib; lia).
  rewrite link_split_a. cbn [fst snd]. now split.
Qed.


Lemma link_s1_walk comps i :
  eval (path_lookup_walk comps i) s <> -1 ->
  eval (path_lookup_walk comps i) s1 = eval (path_lookup_walk comps i) s.
Proof.
  intro H. destruct link_s1 as [E _]. rewrite E.
  rewrite (same_dirs_walk _ _ comps i (link_image_same_dirs s pa nA ib)).
  apply walk_after_put; auto using link_sA, link_nA.
Qed.






Lemma entry_at_def t d i : b_dirents (blocks t (dir_block t d)) i = entry_at t d i.
Proof. reflexivity. Qed.


Lemma link_s1_dir_block d : dir_block s1 d = dir_block s d.
Proof.
  destruct link_s1 as [E _]. rewrite E.
  destruct (link_image_same_dirs s pa nA ib) as [H _]. rewrite H.
  apply put_image_dir_block.
Qed.

Lemma link_s1_bitmaps :
  inode_bitmap s1 = inode_bitmap s /\ blocks_bitmap s1 = blocks_bitmap s.
Proof.
  destruct link_s1 as [E _]. rewrite E. unfold link_image. cbn.
  destruct (put_image_bitmaps s pa nA ib) as [H1 H2]. now rewrite H1, H2.
Qed.

Lemma link_s1_inode n :
  block (inodes s1 n) = block (inodes s n)
  /\ pointers (inodes s1 n) = pointers (inodes s n)
  /\ size (inodes s1 n)
     = (if (n =? pa) && put_appends s pa
        then to_int (to_size_t (size (inodes s n)) + SIZEOF_DIRENT)
        else size (inodes s n)).
Proof.
  destruct link_s1 as [E _]. rewrite E. unfold link_image. cbn.
  destruct (put_image_inode s pa nA ib n) as (_ & _ & H1 & H2 & H3).
  unfold upd. destruct (n =? ib) eqn:En; cbn; [|auto].
  apply Z.eqb_eq in En. subst n. auto.
Qed.



(** No entry before the new one matches the name, for [directory_delete]
    as for [directory_lookup]. *)
Lemma wf_dir_del_match d nm i :
  wf_dir s d = true -> 0 <= i < 64 ->
  del_match (entry_at s d i) nm = visible (entry_at s d i) nm.
Proof.
  intros Hwf Hi. destruct (wf_dir_spec s d Hwf) as [_ H].
  unfold del_match, visible. destruct (H i Hi) as [E|[E _]]; rewrite E; reflexivity.
Qed.








Lemma link_s1_dirents blk i :
  b_dirents (blocks s1 blk) i
  = if (blk =? dir_block s pa) && (i =? slot)
    then mk_dirent nA ib 1 else b_dirents (blocks s blk) i.
Proof.
  destruct link_s1 as [E _]. rewrite E. unfold link_image. cbn.
  destruct (put_image_blocks s pa nA ib blk) as (_ & _ & H). rewrite H.
  now rewrite (strncpy_short nA link_sA).
Qed.






(** The entry through which [b] resolves. *)
Lemma link_slot_b :
  exists k, 0 <= k < dir_entries_count (size (inodes s pb))
            /\ k < 64
            /\ visible (entry_at s pb k) nB = true
            /\ (forall i, 0 <= i < k -> visible (entry_at s pb i) nB = false)
            /\ inum (entry_at s pb k) = ib.
Proof.
  pose proof link_lookup_b as H. unfold eval in H. rewrite directory_lookup_run in H.
  cbn [fst] in H. pose proof link_nB as Hn. unfold nonempty in Hn.
  rewrite String.eqb_sym in Hn. apply negb_true_iff in Hn. rewrite Hn in H.
  apply lookup_entries_found in H; [|lia].
  destruct H as (k & Hk & Hv & Hf & Hi). simpl in Hk. exists k.
  destruct (wf_dir_spec s pb Hwfb) as [Hsz Hall].
  rewrite dir_entries_count_small by exact Hsz.
  rewrite entry_at_def in Hv, Hi.
  assert (Ha1 : input_allocation (entry_at s pb k) = 1).
  { unfold visible in Hv. apply andb_prop in Hv as [_ Hv]. now apply Z.eqb_eq. }
  destruct (Hall k) as [H0|[_ Hlt]]; [lia | lia |].
  repeat split; try lia; auto.
Qed.







End LinkUnlink.

(** Feeds a lemma the hypotheses it asks for from the context. *)
Ltac feed H :=
  repeat (cbv zeta in H;
          match type of H with
          | ?P -> _ => let h := fresh in assert (h : P) by assumption;
                       specialize (H h); clear h
          end).


(** *** Creating a file *)

(** A block past those that [storage_init] sets aside for the bitmaps and
    the inode table. *)
Definition data_block (b : Z) : bool := (4 <=? b) && (b <? BLOCK_COUNT).

(** The blocks [storage_init] sets aside are marked used. *)
Definition reserved_marked (s : fs) : bool :=
  blocks_bitmap s 1 && blocks_bitmap s 2 && blocks_bitmap s 3.

(** A directory in good standing: an allocated inode whose entries are in a
    data block that is marked used. *)
Definition dir_ok (s : fs) (d : Z) : bool :=
  inode_bitmap s d && data_block (dir_block s d) && blocks_bitmap s (dir_block s d).

(** Every directory that resolving the parent of [path] goes through, and
    the parent itself, is in good standing. *)
Definition path_dirs_ok (s : fs) (path : string) : bool :=
  forallb (fun dc => dir_ok s (fst dc)) (walk_trace s (parent_dirs path) 0)
  && dir_ok s (eval (path_lookup_walk (parent_dirs path) 0) s).

(** The [int] numbers that a block holds, with [sizeof(int) = 4]. *)
Definition PTRS_PER_BLOCK : Z := BLOCK_SIZE / 4.



(** The inode number that [alloc_inode] returns next. *)
Definition next_inode (s : fs) : Z := eval alloc_inode s.

(** The block that [alloc_block] returns next. *)
Definition next_block (s : fs) : Z := eval alloc_block s.

Lemma next_inode_clear s :
  0 <= next_inode s ->
  first_clear (Z.to_nat BLOCK_COUNT) (inode_bitmap s) 0 = Some (next_inode s)
  /\ inode_bitmap s (next_inode s) = false.
Proof.
  unfold next_inode. rewrite eval_alloc_inode. unfold eval.
  rewrite alloc_inode_scan_run.
  destruct (first_clear _ _ 0) as [c|] eqn:E; cbn [fst]; [|lia].
  intros _. split; [reflexivity|]. now apply first_clear_some in E as (_ & E & _).
Qed.

(** What [alloc_inode] leaves: the inode's bit set, the inode initialised,
    its first pointer the block that [alloc_block] returned. *)
Lemma alloc_inode_effect s :
  0 <= next_inode s ->
  let c := next_inode s in
  let s' := exec alloc_inode s in
  eval alloc_inode s = c
  /\ inode_bitmap s' = upd (inode_bitmap s) c true
  /\ blocks_bitmap s' = blocks_bitmap (exec alloc_block s)
  /\ blocks s' = blocks s
  /\ (forall n, n <> c -> inodes s' n = inodes s n)
  /\ inodes s' c = mk_inode 1 0 0 (block (inodes s c))
                            (upd (pointers (inodes s c)) 0 (next_block s)).
Proof.
  intros H c s'. destruct (next_inode_clear s H) as [E _]. fold c in E.
  assert (Hscan : alloc_inode_scan (Z.to_nat BLOCK_COUNT) 0 s
                  = (c, set_inode_bitmap (upd (inode_bitmap s) c true) s)).
  { rewrite alloc_inode_scan_run. now rewrite E. }
  assert (Hblk : forall t, blocks_bitmap t = blocks_bitmap s ->
             eval alloc_block t = next_block s
             /\ blocks_bitmap (exec alloc_block t) = blocks_bitmap (exec alloc_block s)
             /\ inode_bitmap (exec alloc_block t) = inode_bitmap t
             /\ inodes (exec alloc_block t) = inodes t
             /\ blocks (exec alloc_block t) = blocks t).
  { intros t Ht. unfold next_block, eval, exec, alloc_block.
    rewrite !alloc_block_scan_run, Ht.
    destruct (first_clear _ (blocks_bitmap s) 1); cbn; rewrite ?Ht; auto. }
  subst s'. unfold alloc_inode, get_inode. split; [reflexivity|].
  rewrite ?exec_bind, ?eval_bind.
  assert (He : eval (alloc_inode_scan (Z.to_nat BLOCK_COUNT) 0) s = c)
    by (unfold eval; now rewrite Hscan).
  assert (Hx : exec (alloc_inode_scan (Z.to_nat BLOCK_COUNT) 0) s
               = set_inode_bitmap (upd (inode_bitmap s) c true) s)
    by (unfold exec; now rewrite Hscan).
  rewrite He, Hx. rewrite exec_ret.
  set (t := exec (store c (set_size 0)) _).
  destruct (Hblk t eq_refl) as (H1 & H2 & H3 & H4 & H5).
  rewrite H1. cbn [exec store modify snd inode_bitmap blocks_bitmap blocks inodes
                   set_inodes].
  rewrite H2, H3, H4, H5. unfold t. cbn.
  repeat split; auto.
  - intros n Hn. now rewrite !upd_other by exact Hn.
  - now rewrite !upd_same.
Qed.

Lemma dir_transfer s t d :
  inodes t d = inodes s d -> blocks t = blocks s ->
  dir_block t d = dir_block s d
  /\ (forall i, entry_at t d i = entry_at s d i)
  /\ wf_dir t d = wf_dir s d
  /\ (forall nm, name_free t d nm = name_free s d nm)
  /\ put_slot t d = put_slot s d.
Proof.
  intros Hi Hb. unfold wf_dir, name_free, put_slot, entry_at, dir_block.
  rewrite Hi, Hb. repeat split; reflexivity.
Qed.



(** *** Growing an inode *)

Lemma alloc_block_step t :
  (0 < free_blocks t)%nat ->
  exists b,
    eval alloc_block t = b
    /\ exec alloc_block t = set_blocks_bitmap (upd (blocks_bitmap t) b true) t
    /\ 1 <= b < BLOCK_COUNT
    /\ blocks_bitmap t b = false
    /\ Z.of_nat (free_blocks (exec alloc_block t)) = Z.of_nat (free_blocks t) - 1.
Proof.
  intro H. destruct (alloc_block_ok t H) as (b & E & Hb & Hc & Hf).
  exists b. unfold eval, exec. rewrite E. cbn [fst snd].
  repeat split; auto; lia.
Qed.

(** What the passes of [grow_inode] before pass [i] have done to the image
    [t0] it started from, for an inode [n] that held one extent, on the way
    to extent [m]: extents 0 to [i - 1] are in place, in blocks marked used
    and all different. *)
Definition grown (t0 : fs) (n m i : Z) (t : fs) : Prop :=
  inode_bitmap t = inode_bitmap t0
  /\ (forall b, b_dirents (blocks t b) = b_dirents (blocks t0 b)
                /\ b_data (blocks t b) = b_data (blocks t0 b))
  /\ (forall x, x <> n -> inodes t x = inodes t0 x)
  /\ refs (inodes t n) = refs (inodes t0 n)
  /\ mode (inodes t n) = mode (inodes t0 n)
  /\ size (inodes t n) = size (inodes t0 n)
  /\ pointers (inodes t n) 0 = pointers (inodes t0 n) 0
  /\ (i <= 2 -> 2 <= m -> block (inodes t n) = 0)
  /\ (2 < i -> block (inodes t n) <> 0)
  /\ (forall k, 0 <= k < i -> blocks_bitmap t (extent t n k) = true)
  /\ (forall k k', 0 <= k < k' -> k' < i -> extent t n k <> extent t n k')
  /\ m - i + 1 + (if (i <=? 2) && (2 <=? m) then 1 else 0) <= Z.of_nat (free_blocks t).

Lemma free_blocks_store_ptr b i v t :
  free_blocks (exec (store_ptr b i v) t) = free_blocks t.
Proof. reflexivity. Qed.

Lemma free_blocks_store n f t : free_blocks (exec (store n f) t) = free_blocks t.
Proof. reflexivity. Qed.

Ltac upd_simpl := repeat (progress (rewrite ?upd_same; cbn)).

Lemma grown_step t0 n m i t body :
  body = (fun i : Z =>
    if 2 <=? i then
      blk <- load block n ;;
      when (blk =? 0) (b <- alloc_block ;; store n (set_block b)) ;;
      current_pointer <- load block n ;;
      b <- alloc_block ;;
      store_ptr current_pointer (i - 2) b
    else
      b <- alloc_block ;;
      store n (set_pointer i b)) ->
  1 <= i <= m -> grown t0 n m i t -> grown t0 n m (i + 1) (exec (body i) t).
Proof.
  intros -> Hi (Hib & Hblk & Hot & Hr & Hm & Hs & Hp0 & Hb0 & Hbn & Hbits & Hinj & Hfree).
  destruct (2 <=? i) eqn:E2.
  - apply Z.leb_le in E2. run.
    destruct (Z.eq_dec i 2) as [->|Hne].
    + (* pass 2: the indirect block is allocated first *)
      rewrite (Hb0 ltac:(lia) ltac:(lia)). cbn [Z.eqb]. rewrite exec_when_true.
      replace ((2 <=? 2) && (2 <=? m)) with true in Hfree
        by (symmetry; apply andb_true_iff; split; apply Z.leb_le; lia).
      destruct (alloc_block_step t) as (b1 & Ev1 & Ex1 & Hb1 & Hc1 & Hf1); [lia|].
      run. rewrite Ev1, Ex1. set (t1 := exec (store n (set_block b1)) _).
      assert (Hf1' : Z.of_nat (free_blocks t1) = Z.of_nat (free_blocks t) - 1).
      { rewrite <- Hf1, Ex1. reflexivity. }
      destruct (alloc_block_step t1) as (b2 & Ev2 & Ex2 & Hb2 & Hc2 & Hf2); [lia|].
      rewrite Ev2, Ex2.
      assert (Hblk1 : block (inodes t1 n) = b1) by (unfold t1; cbn; now rewrite upd_same).
      rewrite Hblk1.
      assert (Hbit1 : forall x, blocks_bitmap t x = true -> blocks_bitmap t1 x = true).
      { intros x Hx. unfold t1. cbn. unfold upd. destruct (x =? b1); auto. }
      assert (Hext : forall k, 0 <= k < 2 ->
                extent (exec (store_ptr b1 (2 - 2) b2)
                          (set_blocks_bitmap (upd (blocks_bitmap t1) b2 true) t1)) n k
                = extent t n k).
      { intros k Hk. unfold extent.
        replace (2 <=? k) with false by (symmetry; apply Z.leb_gt; lia).
        unfold t1. cbn. rewrite upd_same. reflexivity. }
      unfold grown. repeat split.
      * exact Hib.
      * cbn. unfold upd. destruct (b =? b1) eqn:Eb; cbn;
          [apply Z.eqb_eq in Eb; subst b|]; apply Hblk.
      * cbn. unfold upd. destruct (b =? b1) eqn:Eb; cbn;
          [apply Z.eqb_eq in Eb; subst b|]; apply Hblk.
      * intros x Hx. cbn. rewrite upd_other by exact Hx. now apply Hot.
      * cbn. rewrite upd_same. exact Hr.
      * cbn. rewrite upd_same. exact Hm.
      * cbn. rewrite upd_same. exact Hs.
      * cbn. rewrite upd_same. exact Hp0.
      * intros; lia.
      * intros _. cbn. rewrite upd_same. cbn. lia.
      * intros k Hk. destruct (Z.eq_dec k 2) as [->|Hk2].
        -- unfold extent. upd_simpl. reflexivity.
        -- rewrite Hext by lia. cbn. unfold upd at 1.
           destruct (_ =? b2); [reflexivity|]. apply Hbit1, Hbits. lia.
      * intros k k' Hk Hk'. destruct (Z.eq_dec k' 2) as [->|Hk2].
        -- rewrite Hext by lia. unfold extent at 2. upd_simpl. intro Heq.
           assert (Hx : blocks_bitmap t1 (extent t n k) = true)
             by (apply Hbit1, Hbits; lia).
           rewrite Heq in Hx. congruence.
        -- rewrite !Hext by lia. apply Hinj; lia.
      * rewrite free_blocks_store_ptr, <- Ex2, Hf2, Hf1'.
        replace ((2 + 1 <=? 2) && (2 <=? m)) with false by reflexivity. lia.
    + (* a later pass: the indirect block is there *)
      specialize (Hbn ltac:(lia)).
      replace (block (inodes t n) =? 0) with false by (symmetry; now apply Z.eqb_neq).
      rewrite exec_when_false. run.
      replace ((i <=? 2) && (2 <=? m)) with false in Hfree
        by (symmetry; apply andb_false_iff; left; apply Z.leb_gt; lia).
      destruct (alloc_block_step t) as (b & Ev & Ex & Hb & Hc & Hf); [lia|].
      rewrite Ev, Ex.
      assert (Hext : forall k, 0 <= k < i ->
                extent (exec (store_ptr (block (inodes t n)) (i - 2) b)
                          (set_blocks_bitmap (upd (blocks_bitmap t) b true) t)) n k
                = extent t n k).
      { intros k Hk. unfold extent. cbn. rewrite upd_same. cbn.
        destruct (2 <=? k) eqn:Ek; [|reflexivity].
        apply upd_other. lia. }
      unfold grown. repeat split.
      * exact Hib.
      * cbn. unfold upd. destruct (b0 =? _) eqn:Eb; cbn;
          [apply Z.eqb_eq in Eb; subst b0|]; apply Hblk.
      * cbn. unfold upd. destruct (b0 =? _) eqn:Eb; cbn;
          [apply Z.eqb_eq in Eb; subst b0|]; apply Hblk.
      * intros x Hx. cbn. now apply Hot.
      * exact Hr.
      * exact Hm.
      * exact Hs.
      * exact Hp0.
      * intros; lia.
      * intros _. exact Hbn.
      * intros k Hk. destruct (Z.eq_dec k i) as [->|Hki].
        -- unfold extent. apply Z.leb_le in E2. rewrite E2. upd_simpl. reflexivity.
        -- rewrite Hext by lia. cbn. unfold upd at 1.
           destruct (_ =? b); [reflexivity|]. apply Hbits. lia.
      * intros k k' Hk Hk'. destruct (Z.eq_dec k' i) as [->|Hki].
        -- rewrite Hext by lia. unfold extent at 2. apply Z.leb_le in E2. rewrite E2.
           upd_simpl. intro Heq.
           assert (Hx : blocks_bitmap t (extent t n k) = true) by (apply Hbits; lia).
           rewrite Heq in Hx. congruence.
        -- rewrite !Hext by lia. apply Hinj; lia.
      * rewrite free_blocks_store_ptr, <- Ex, Hf.
        replace ((i + 1 <=? 2) && (2 <=? m)) with false
          by (symmetry; apply andb_false_iff; left; apply Z.leb_gt; lia).
        lia.
  - (* pass 1: the second direct pointer *)
    apply Z.leb_gt in E2. assert (i = 1) by lia. subst i. run.
    assert (Hfree' : 1 <= Z.of_nat (free_blocks t)).
    { destruct ((1 <=? 2) && (2 <=? m)); lia. }
    destruct (alloc_block_step t) as (b & Ev & Ex & Hb & Hc & Hf); [lia|].
    rewrite Ev, Ex.
    unfold grown. repeat split.
    * exact Hib.
    * apply Hblk.
    * apply Hblk.
    * intros x Hx. cbn. rewrite upd_other by exact Hx. now apply Hot.
    * cbn. rewrite upd_same. exact Hr.
    * cbn. rewrite upd_same. exact Hm.
    * cbn. rewrite upd_same. exact Hs.
    * upd_simpl. exact Hp0.
    * intros _ H2. cbn. rewrite upd_same. cbn. apply Hb0; lia.
    * intros; lia.
    * intros k Hk. unfold extent.
      replace (2 <=? k) with false by (symmetry; apply Z.leb_gt; lia).
      cbn. rewrite upd_same. cbn. unfold upd at 2.
      destruct (k =? 1) eqn:Ek; [apply upd_same|].
      unfold upd. destruct (_ =? b); [reflexivity|].
      specialize (Hbits 0 ltac:(lia)). unfold extent in Hbits. cbn in Hbits.
      apply Z.eqb_neq in Ek. replace k with 0 by lia. exact Hbits.
    * intros k k' Hk Hk'. assert (k = 0) by lia. assert (k' = 1) by lia. subst.
      unfold extent. upd_simpl. intro Heq.
      specialize (Hbits 0 ltac:(lia)). unfold extent in Hbits. cbn in Hbits.
      rewrite Heq in Hbits. congruence.
    * rewrite free_blocks_store, <- Ex, Hf. cbn [Z.add]. change (1 + 1) with 2.
      destruct (2 <=? m); cbn in *; lia.
Qed.

(** [grow_inode] on an inode that holds one extent, with blocks enough in
    the store: extents 0 to [new_size / BLOCK_SIZE] are in place, in blocks
    marked used and all different; directories and file data are as they
    were. *)
Lemma grow_inode_effect t0 n new_size :
  0 <= new_size ->
  let m := new_size / BLOCK_SIZE in
  Z.quot (size (inodes t0 n)) BLOCK_SIZE = 0 ->
  blocks_bitmap t0 (pointers (inodes t0 n) 0) = true ->
  (2 <= m -> block (inodes t0 n) = 0) ->
  m + (if 2 <=? m then 1 else 0) <= Z.of_nat (free_blocks t0) ->
  let t := exec (grow_inode n new_size) t0 in
  inode_bitmap t = inode_bitmap t0
  /\ (forall b, b_dirents (blocks t b) = b_dirents (blocks t0 b)
                /\ b_data (blocks t b) = b_data (blocks t0 b))
  /\ (forall x, x <> n -> inodes t x = inodes t0 x)
  /\ refs (inodes t n) = refs (inodes t0 n)
  /\ mode (inodes t n) = mode (inodes t0 n)
  /\ size (inodes t n) = new_size
  /\ pointers (inodes t n) 0 = pointers (inodes t0 n) 0
  /\ (forall k, 0 <= k <= m -> blocks_bitmap t (extent t n k) = true)
  /\ (forall k k', 0 <= k < k' -> k' <= m -> extent t n k <> extent t n k').
Proof.
  intros Hns m Hq Hbit Hstale Hfree t. pose proof BLOCK_SIZE_range as Hbs.
  assert (Hm : 0 <= m) by (apply Z.div_pos; lia).
  subst t. unfold grow_inode. run. rewrite Hq.
  rewrite (Z.quot_div_nonneg new_size BLOCK_SIZE) by lia. fold m.
  replace (Z.to_nat (m - (0 + 1) + 1)) with (Z.to_nat m) by lia.
  set (body := fun i : Z => _).
  assert (G : grown t0 n m (0 + 1 + Z.of_nat (Z.to_nat m))
                (exec (for_up (Z.to_nat m) (0 + 1) body) t0)).
  { apply (for_up_invariant (grown t0 n m)).
    - unfold grown. repeat split; auto; try (intros; lia).
      + intros k Hk. replace k with 0 by lia. exact Hbit.
      + replace (0 + 1 <=? 2) with true by reflexivity. cbn [andb]. lia.
    - intros k t Hk Hg. apply grown_step; [reflexivity | lia | exact Hg]. }
  replace (0 + 1 + Z.of_nat (Z.to_nat m)) with (m + 1) in G by lia.
  set (tl := exec (for_up _ _ body) t0) in *.
  destruct G as (Hib & Hblk & Hot & Hr & Hmo & Hs & Hp0 & Hb0 & Hbn & Hbits & Hinj & _).
  assert (Hext : forall k, extent (exec (store n (set_size new_size)) tl) n k = extent tl n k).
  { intro k. unfold extent. cbn. rewrite upd_same. reflexivity. }
  repeat split.
  - exact Hib.
  - apply Hblk.
  - apply Hblk.
  - intros x Hx. cbn. rewrite upd_other by exact Hx. now apply Hot.
  - cbn. rewrite upd_same. exact Hr.
  - cbn. rewrite upd_same. exact Hmo.
  - cbn. now rewrite upd_same.
  - cbn. rewrite upd_same. exact Hp0.
  - intros k Hk. rewrite Hext. cbn. apply Hbits. lia.
  - intros k k' Hk Hk'. rewrite !Hext. apply Hinj; lia.
Qed.

(** *** The copy loops *)

Lemma skipn_cons_nth {A : Type} (l : list A) (a : nat) (d : A) :
  (a < List.length l)%nat -> skipn a l = nth a l d :: skipn (S a) l.
Proof.
  revert a; induction l as [|x l IH]; intros a H; simpl in H; [lia|].
  destruct a; [reflexivity|]. simpl. apply IH. lia.
Qed.

Lemma nth_firstn_skipn {A : Type} (l : list A) (a n i : nat) (d : A) :
  (i < n)%nat -> nth i (firstn n (skipn a l)) d = nth (a + i) l d.
Proof.
  intro H. revert l; induction a as [|a IH]; intro l.
  - simpl. revert i n H; induction l as [|x l IHl]; intros i n H.
    + destruct n, i; reflexivity.
    + destruct n; [lia|]. destruct i; [reflexivity|]. simpl. apply IHl. lia.
  - destruct l as [|x l]; [destruct n, i; reflexivity|]. simpl. apply IH.
Qed.

Lemma map_iota_chunk (f : Z -> byte) (l : list byte) (lo : Z) (a n : nat) :
  (a + n <= List.length l)%nat ->
  (forall j, (j < n)%nat -> f (lo + Z.of_nat j) = nth (a + j) l x00) ->
  map f (iota lo n) = firstn n (skipn a l).
Proof.
  revert lo a; induction n as [|n IH]; intros lo a Hlen Hf; [reflexivity|].
  cbn [iota map]. rewrite (skipn_cons_nth l a x00) by lia. cbn [firstn]. f_equal.
  - specialize (Hf O ltac:(lia)). rewrite Z.add_0_r, Nat.add_0_r in Hf. exact Hf.
  - apply IH; [lia|]. intros j Hj. specialize (Hf (S j) ltac:(lia)).
    replace (lo + 1 + Z.of_nat j) with (lo + Z.of_nat (S j)) by lia.
    rewrite Hf. f_equal. lia.
Qed.

Lemma firstn_skipn_join {A : Type} (l : list A) (a n : nat) :
  firstn n (skipn a l) ++ skipn (a + n) l = skipn a l.
Proof.
  rewrite Nat.add_comm, <- skipn_skipn. apply firstn_skipn.
Qed.

Lemma storage_write_loop_done fuel n buf offset w t :
  storage_write_loop fuel n buf offset 0 w t = (Some w, t).
Proof. destruct fuel; reflexivity. Qed.

Lemma storage_read_loop_done fuel n offset r buf t :
  storage_read_loop fuel n offset 0 r buf t = (Some (r, buf), t).
Proof. destruct fuel; reflexivity. Qed.

Lemma exec_memcpy_to_block b start data t :
  exec (memcpy_to_block b start data) t
  = set_blocks (upd (blocks t) b
                  (set_b_data (overlay (b_data (blocks t b)) start data) (blocks t b))) t.
Proof. reflexivity. Qed.

Lemma eval_memcpy_from_block b start n t :
  eval (memcpy_from_block b start n) t
  = map (b_data (blocks t b)) (iota start (Z.to_nat n)).
Proof. reflexivity. Qed.

Lemma extent_memcpy b start data t n k :
  extent (exec (memcpy_to_block b start data) t) n k = extent t n k.
Proof.
  unfold extent. rewrite exec_memcpy_to_block. cbn. unfold upd.
  destruct (block (inodes t n) =? b) eqn:E; [|reflexivity].
  apply Z.eqb_eq in E. now rewrite E.
Qed.

Lemma storage_write_loop_step fuel n buf offset size w t :
  0 < size ->
  storage_write_loop (S fuel) n buf offset size w t
  = (let blockNum := extent t n (Z.quot (to_int (offset + w)) BLOCK_SIZE) in
     let blockWriteSize := BLOCK_SIZE - Z.rem offset BLOCK_SIZE in
     let writeSize := if size <? blockWriteSize then size else blockWriteSize in
     storage_write_loop fuel n buf offset (size - writeSize) (w + writeSize)
       (exec (memcpy_to_block blockNum (Z.rem offset BLOCK_SIZE)
                (firstn (Z.to_nat writeSize) (skipn (Z.to_nat w) buf))) t)).
Proof.
  intro H. cbn [storage_write_loop].
  replace (size >? 0) with true by (symmetry; apply Z.gtb_lt; lia).
  unfold bind at 1. rewrite inode_get_bnum_run. reflexivity.
Qed.

Lemma storage_read_loop_step fuel n offset rem r buf t :
  0 < rem ->
  storage_read_loop (S fuel) n offset rem r buf t
  = (let blockNum := extent t n (Z.quot (to_int (offset + r)) BLOCK_SIZE) in
     let blockReadSize := BLOCK_SIZE - Z.rem offset BLOCK_SIZE in
     let readSize := if rem <? blockReadSize then rem else blockReadSize in
     storage_read_loop fuel n offset (rem - readSize) (r + readSize)
       (buf ++ map (b_data (blocks t blockNum))
                   (iota (Z.rem offset BLOCK_SIZE) (Z.to_nat readSize))) t).
Proof.
  intro H. cbn [storage_read_loop].
  replace (rem >? 0) with true by (symmetry; apply Z.gtb_lt; lia).
  unfold bind at 1. rewrite inode_get_bnum_run. reflexivity.
Qed.

Section CopyLoops.

Variables (n : Z) (B : list byte).

Let len := Z.of_nat (List.length B).

Hypothesis Hlen : len <= INT_MAX.

Lemma chunk_index k : 0 <= k -> k * BLOCK_SIZE <= len ->
  Z.quot (to_int (0 + k * BLOCK_SIZE)) BLOCK_SIZE = k /\ Z.rem 0 BLOCK_SIZE = 0.
Proof.
  intros Hk Hle. pose proof BLOCK_SIZE_range as Hbs. split.
  - rewrite to_int_small by (unfold INT_MAX in *; lia). cbn [Z.add].
    rewrite Z.quot_mul; lia.
  - apply Z.rem_0_l. lia.
Qed.

(** The write loop from chunk [k] on, at offset 0, on an inode whose
    extents from [k] on are in different blocks: the loop returns, the count
    is the length of [B], and byte [x] of [B] is at position [x mod
    BLOCK_SIZE] of the block of extent [x / BLOCK_SIZE]. *)
Lemma storage_write_loop_spec fuel k t :
  0 <= k -> k * BLOCK_SIZE <= len ->
  (Z.to_nat (len - k * BLOCK_SIZE) <= fuel)%nat ->
  (forall j j', k <= j < j' -> j' * BLOCK_SIZE < len -> extent t n j <> extent t n j') ->
  exists t',
    storage_write_loop fuel n B 0 (len - k * BLOCK_SIZE) (k * BLOCK_SIZE) t = (Some len, t')
    /\ inodes t' = inodes t
    /\ inode_bitmap t' = inode_bitmap t
    /\ blocks_bitmap t' = blocks_bitmap t
    /\ (forall b, b_ptrs (blocks t' b) = b_ptrs (blocks t b)
                  /\ b_dirents (blocks t' b) = b_dirents (blocks t b))
    /\ (forall b, (forall j, k <= j -> j * BLOCK_SIZE < len -> extent t n j <> b) ->
                  b_data (blocks t' b) = b_data (blocks t b))
    /\ (forall x, k * BLOCK_SIZE <= x < len ->
          b_data (blocks t' (extent t n (x / BLOCK_SIZE))) (x mod BLOCK_SIZE)
          = nth (Z.to_nat x) B x00).
Proof.
  pose proof BLOCK_SIZE_range as Hbs.
  revert k t; induction fuel as [|fuel IH]; intros k t Hk Hle Hfuel Hinj.
  - assert (E : len - k * BLOCK_SIZE = 0) by lia. rewrite E.
    exists t. rewrite storage_write_loop_done.
    repeat split; auto; try (intros; lia). f_equal. f_equal. lia.
  - destruct (Z.eq_dec (len - k * BLOCK_SIZE) 0) as [E|Hne].
    { rewrite E. exists t. rewrite storage_write_loop_done.
      repeat split; auto; try (intros; lia). f_equal. f_equal. lia. }
    rewrite storage_write_loop_step by lia. cbv zeta.
    destruct (chunk_index k Hk Hle) as [Hq Hr]. rewrite Hq, Hr, Z.sub_0_r.
    set (ws := if len - k * BLOCK_SIZE <? BLOCK_SIZE then len - k * BLOCK_SIZE
               else BLOCK_SIZE).
    assert (Hws : 0 < ws <= len - k * BLOCK_SIZE /\ ws <= BLOCK_SIZE
                  /\ (ws < BLOCK_SIZE -> ws = len - k * BLOCK_SIZE)).
    { unfold ws. destruct (len - k * BLOCK_SIZE <? BLOCK_SIZE) eqn:E; lia. }
    set (chunk := firstn (Z.to_nat ws) (skipn (Z.to_nat (k * BLOCK_SIZE)) B)).
    assert (Hcl : Z.of_nat (List.length chunk) = ws).
    { unfold chunk. rewrite length_firstn, length_skipn. unfold len in *. lia. }
    set (t1 := exec (memcpy_to_block (extent t n k) 0 chunk) t).
    assert (Hext1 : forall j, extent t1 n j = extent t n j)
      by (intro j; apply extent_memcpy).
    assert (Hdata_k : forall x, k * BLOCK_SIZE <= x < k * BLOCK_SIZE + ws ->
              b_data (blocks t1 (extent t n k)) (x - k * BLOCK_SIZE)
              = nth (Z.to_nat x) B x00).
    { intros x Hx. unfold t1. rewrite exec_memcpy_to_block. cbn. rewrite upd_same.
      cbn. unfold overlay.
      replace ((0 <=? x - k * BLOCK_SIZE)
               && (x - k * BLOCK_SIZE <? 0 + Z.of_nat (List.length chunk))) with true
        by (symmetry; apply andb_true_iff; split; [apply Z.leb_le | apply Z.ltb_lt]; lia).
      unfold chunk. rewrite nth_firstn_skipn by lia. f_equal. lia. }
    destruct (Z_lt_dec ws BLOCK_SIZE) as [Hshort|Hfull].
    + (* the last, partial chunk *)
      replace (len - k * BLOCK_SIZE - ws) with 0 by lia.
      exists t1. rewrite storage_write_loop_done.
      split; [f_equal; f_equal; lia|].
      split; [reflexivity|]. split; [reflexivity|]. split; [reflexivity|].
      split; [|split].
      * intro b. unfold t1. rewrite exec_memcpy_to_block. cbn. unfold upd.
        destruct (b =? extent t n k) eqn:Eb; [|auto].
        apply Z.eqb_eq in Eb. subst b. auto.
      * intros b Hb. unfold t1. rewrite exec_memcpy_to_block. cbn.
        rewrite upd_other; [reflexivity|]. intro Eb. apply (Hb k); [lia | lia | now symmetry].
      * intros x Hx.
        assert (Hxk : x / BLOCK_SIZE = k).
        { symmetry. apply (Z.div_unique x BLOCK_SIZE k (x - k * BLOCK_SIZE)); lia. }
        assert (Hxm : x mod BLOCK_SIZE = x - k * BLOCK_SIZE).
        { symmetry. apply (Z.mod_unique x BLOCK_SIZE k (x - k * BLOCK_SIZE)); lia. }
        rewrite Hxk, Hxm. apply Hdata_k. lia.
    + (* a full chunk *)
      assert (Hwsb : ws = BLOCK_SIZE) by lia.
      replace (len - k * BLOCK_SIZE - ws) with (len - (k + 1) * BLOCK_SIZE) by lia.
      replace (k * BLOCK_SIZE + ws) with ((k + 1) * BLOCK_SIZE) by lia.
      destruct (IH (k + 1) t1) as (t' & Erun & Hi & Hib & Hbb & Hviews & Hframe & Hdata);
        [lia | lia | lia | |].
      { intros j j' Hj Hj'. rewrite !Hext1. apply Hinj; lia. }
      exists t'. split; [exact Erun|].
      split; [rewrite Hi; reflexivity|]. split; [rewrite Hib; reflexivity|].
      split; [rewrite Hbb; reflexivity|]. split; [|split].
      * intro b. destruct (Hviews b) as [H1 H2]. rewrite H1, H2.
        unfold t1. rewrite exec_memcpy_to_block. cbn. unfold upd.
        destruct (b =? extent t n k) eqn:Eb; [|auto].
        apply Z.eqb_eq in Eb. subst b. auto.
      * intros b Hb. rewrite Hframe.
        -- unfold t1. rewrite exec_memcpy_to_block. cbn.
           rewrite upd_other; [reflexivity|]. intro Eb.
           apply (Hb k); [lia | lia | now symmetry].
        -- intros j Hj Hj'. rewrite Hext1. apply Hb; lia.
      * intros x Hx. destruct (Z_lt_dec x ((k + 1) * BLOCK_SIZE)) as [Hin|Hout].
        -- assert (Hxk : x / BLOCK_SIZE = k).
           { symmetry. apply (Z.div_unique x BLOCK_SIZE k (x - k * BLOCK_SIZE)); lia. }
           assert (Hxm : x mod BLOCK_SIZE = x - k * BLOCK_SIZE).
           { symmetry. apply (Z.mod_unique x BLOCK_SIZE k (x - k * BLOCK_SIZE)); lia. }
           rewrite Hxk, Hxm. rewrite Hframe; [apply Hdata_k; lia|].
           intros j Hj Hj'. rewrite Hext1. intro Heq. apply (Hinj k j); [lia | lia | now symmetry].
        -- specialize (Hdata x ltac:(lia)). rewrite Hext1 in Hdata. exact Hdata.
Qed.

(** The read loop from chunk [k] on, at offset 0, over blocks that hold
    the bytes of [B] as the write loop leaves them: the loop returns, the
    count is the length of [B] and the bytes are those of [B]. *)
Lemma storage_read_loop_spec fuel k buf t :
  0 <= k -> k * BLOCK_SIZE <= len ->
  (Z.to_nat (len - k * BLOCK_SIZE) <= fuel)%nat ->
  (forall x, k * BLOCK_SIZE <= x < len ->
     b_data (blocks t (extent t n (x / BLOCK_SIZE))) (x mod BLOCK_SIZE)
     = nth (Z.to_nat x) B x00) ->
  storage_read_loop fuel n 0 (len - k * BLOCK_SIZE) (k * BLOCK_SIZE) buf t
  = (Some (len, buf ++ skipn (Z.to_nat (k * BLOCK_SIZE)) B), t).
Proof.
  pose proof BLOCK_SIZE_range as Hbs.
  revert k buf; induction fuel as [|fuel IH]; intros k buf Hk Hle Hfuel Hdata.
  - assert (E : len - k * BLOCK_SIZE = 0) by lia. rewrite E, storage_read_loop_done.
    rewrite skipn_all2 by (unfold len in *; lia). rewrite app_nil_r.
    f_equal. f_equal. f_equal. lia.
  - destruct (Z.eq_dec (len - k * BLOCK_SIZE) 0) as [E|Hne].
    { rewrite E, storage_read_loop_done.
      rewrite skipn_all2 by (unfold len in *; lia). rewrite app_nil_r.
      f_equal. f_equal. f_equal. lia. }
    rewrite storage_read_loop_step by lia. cbv zeta.
    destruct (chunk_index k Hk Hle) as [Hq Hr]. rewrite Hq, Hr, Z.sub_0_r.
    set (rs := if len - k * BLOCK_SIZE <? BLOCK_SIZE then len - k * BLOCK_SIZE
               else BLOCK_SIZE).
    assert (Hrs : 0 < rs <= len - k * BLOCK_SIZE /\ rs <= BLOCK_SIZE
                  /\ (rs < BLOCK_SIZE -> rs = len - k * BLOCK_SIZE)).
    { unfold rs. destruct (len - k * BLOCK_SIZE <? BLOCK_SIZE) eqn:E; lia. }
    assert (Hchunk : map (b_data (blocks t (extent t n k))) (iota 0 (Z.to_nat rs))
                     = firstn (Z.to_nat rs) (skipn (Z.to_nat (k * BLOCK_SIZE)) B)).
    { apply map_iota_chunk; [unfold len in *; lia|]. intros j Hj.
      assert (Hx : k * BLOCK_SIZE <= k * BLOCK_SIZE + Z.of_nat j < len) by lia.
      specialize (Hdata _ Hx).
      assert (Hxk : (k * BLOCK_SIZE + Z.of_nat j) / BLOCK_SIZE = k).
      { symmetry. apply (Z.div_unique _ BLOCK_SIZE k (Z.of_nat j)); lia. }
      assert (Hxm : (k * BLOCK_SIZE + Z.of_nat j) mod BLOCK_SIZE = Z.of_nat j).
      { symmetry. apply (Z.mod_unique _ BLOCK_SIZE k (Z.of_nat j)); lia. }
      rewrite Hxk, Hxm in Hdata. cbn [Z.add]. rewrite Hdata. f_equal. lia. }
    rewrite Hchunk.
    destruct (Z_lt_dec rs BLOCK_SIZE) as [Hshort|Hfull].
    + replace (len - k * BLOCK_SIZE - rs) with 0 by lia.
      rewrite storage_read_loop_done.
      rewrite firstn_all2 by (rewrite length_skipn; unfold len in *; lia).
      f_equal. f_equal. f_equal. lia.
    + assert (Hrsb : rs = BLOCK_SIZE) by lia.
      replace (len - k * BLOCK_SIZE - rs) with (len - (k + 1) * BLOCK_SIZE) by lia.
      replace (k * BLOCK_SIZE + rs) with ((k + 1) * BLOCK_SIZE) by lia.
      rewrite IH; [|lia|lia|lia|intros x Hx; apply Hdata; lia].
      f_equal. f_equal. f_equal. rewrite <- app_assoc. f_equal.
      replace (Z.to_nat ((k + 1) * BLOCK_SIZE))
        with (Z.to_nat (k * BLOCK_SIZE) + Z.to_nat rs)%nat by lia.
      apply firstn_skipn_join.
Qed.

End CopyLoops.

(** *** Writing and reading back *)

Section RoundTrip.

Variables (path : string) (mode0 : Z) (B : list byte) (s : fs).

Hypothesis Hpath : path_ok path = true.

Let pa := eval (path_lookup (fst (split_path path))) s.
Let nm := base_name path.
Let c := next_inode s.
Let len := Z.of_nat (List.length B).
Let m := len / BLOCK_SIZE.

Hypothesis Hpa : 0 <= pa.
Hypothesis Hwf : wf_dir s pa = true.
Hypothesis Hfree : name_free s pa nm = true.
Hypothesis Hroom : put_slot s pa < 64.
Hypothesis Hdirs : path_dirs_ok s path = true.
Hypothesis Hc : 0 < c.
Hypothesis Hblocks : 1 + m + (if 2 <=? m then 1 else 0) <= Z.of_nat (free_blocks s).
Hypothesis Hstale : 2 <= m -> block (inodes s c) = 0.
Hypothesis Hlen : len <= INT_MAX.

Let sb := exec (store c (set_size 0))
            (exec (store c (set_mode mode0))
               (exec (store c (set_refs 1)) (exec alloc_inode s))).
Let s1 := exec (storage_mknod path mode0) s.

Lemma rt_nm : nonempty nm = true /\ short nm = true.
Proof. split; apply (path_ok_resolution path Hpath). Qed.

Lemma rt_split : split_path path = (fst (split_path path), nm).
Proof.
  pose proof (path_ok_resolution path Hpath) as (_ & _ & E & _). fold nm in E.
  rewrite <- E. apply surjective_pairing.
Qed.

Lemma rt_parent t :
  eval (path_lookup (fst (split_path path))) t
  = eval (path_lookup_walk (parent_dirs path) 0) t.
Proof. pose proof (path_ok_resolution path Hpath) as (_ & _ & _ & E). apply E. Qed.

Lemma rt_full t :
  eval (path_lookup (fst (split_path path))) t <> -1 ->
  eval (path_lookup path) t
  = eval (directory_lookup (eval (path_lookup (fst (split_path path))) t) nm) t.
Proof.
  pose proof (path_ok_resolution path Hpath) as (_ & _ & _ & E).
  destruct (E t) as [E1 E2].
  rewrite E2, E1. cbv zeta. intro H. apply Z.eqb_neq in H. now rewrite H.
Qed.

Lemma rt_absent : eval (path_lookup path) s = -1.
Proof.
  rewrite rt_full by (fold pa; lia). fold pa.
  apply (name_free_lookup s pa pa nm Hfree); [apply rt_nm | reflexivity].
Qed.

Lemma rt_c_clear : inode_bitmap s c = false.
Proof. apply next_inode_clear. fold c. lia. Qed.

Lemma rt_dirs :
  Forall (fun dc => inode_bitmap s (fst dc) = true) (walk_trace s (parent_dirs path) 0)
  /\ inode_bitmap s pa = true.
Proof.
  unfold path_dirs_ok in Hdirs. apply andb_prop in Hdirs as [H1 H2]. split.
  - rewrite forallb_forall in H1. apply Forall_forall. intros dc Hin.
    specialize (H1 dc Hin). unfold dir_ok in H1.
    now apply andb_prop in H1 as [H1 _]; apply andb_prop in H1 as [H1 _].
  - rewrite <- rt_parent in H2. fold pa in H2. unfold dir_ok in H2.
    now apply andb_prop in H2 as [H2 _]; apply andb_prop in H2 as [H2 _].
Qed.

Lemma rt_pa_c : pa <> c.
Proof.
  intro E. destruct rt_dirs as [_ H]. rewrite E, rt_c_clear in H. discriminate.
Qed.

(** The image after [alloc_inode] and the three stores of [storage_mknod]. *)
Lemma rt_sb :
  inode_bitmap sb = upd (inode_bitmap s) c true
  /\ blocks_bitmap sb = blocks_bitmap (exec alloc_block s)
  /\ blocks sb = blocks s
  /\ (forall n, n <> c -> inodes sb n = inodes s n)
  /\ inodes sb c = mk_inode 1 mode0 0 (block (inodes s c))
                            (upd (pointers (inodes s c)) 0 (next_block s)).
Proof.
  destruct (alloc_inode_effect s) as (_ & H1 & H2 & H3 & H4 & H5); [fold c; lia|].
  fold c in H1, H4, H5. unfold sb. cbn. rewrite H1, H2, H3.
  repeat split; auto.
  - intros n Hn. rewrite !upd_other by exact Hn. now apply H4.
  - rewrite !upd_same. cbn. rewrite H5. reflexivity.
Qed.

Lemma rt_sb_pa :
  dir_block sb pa = dir_block s pa
  /\ (forall i, entry_at sb pa i = entry_at s pa i)
  /\ wf_dir sb pa = true
  /\ name_free sb pa nm = true
  /\ put_slot sb pa = put_slot s pa.
Proof.
  destruct rt_sb as (_ & _ & Hb & Hn & _).
  destruct (dir_transfer s sb pa (Hn pa rt_pa_c) Hb) as (H1 & H2 & H3 & H4 & H5).
  rewrite H3, H4. auto.
Qed.

Lemma rt_sb_walk :
  eval (path_lookup_walk (parent_dirs path) 0) sb = pa.
Proof.
  unfold pa at 1. rewrite rt_parent. apply walk_frame.
  destruct rt_dirs as [H _]. rewrite Forall_forall in *. intros dc Hin.
  specialize (H dc Hin). destruct rt_sb as (_ & _ & Hb & Hn & _).
  assert (Hne : fst dc <> c).
  { intro E. rewrite E, rt_c_clear in H. discriminate. }
  destruct (dir_transfer s sb (fst dc) (Hn _ Hne) Hb) as (H1 & H2 & _).
  apply lookup_same_at; [exact H1|]. intros i _. left. apply H2.
Qed.

Lemma rt_mknod_run :
  storage_mknod path mode0 s = (0, put_image sb pa nm c).
Proof.
  unfold storage_mknod.
  unfold bind at 1. rewrite (readonly_run _ (readonly_path_lookup path) s), rt_absent.
  cbn [Z.eqb negb Pos.eqb]. rewrite rt_split.
  unfold bind at 1. rewrite (readonly_run _ (readonly_path_lookup _) s). fold pa.
  replace (pa <? 0) with false by (symmetry; apply Z.ltb_ge; lia).
  unfold get_inode. rewrite (run_pair (bind _ _)). run.
  destruct (alloc_inode_effect s) as (E & _); [fold c; lia|]. rewrite E. fold c.
  f_equal. unfold exec at 1. rewrite directory_put_run. reflexivity.
Qed.

Lemma rt_s1 : s1 = put_image sb pa nm c /\ eval (storage_mknod path mode0) s = 0.
Proof. unfold s1, exec, eval. rewrite rt_mknod_run. now split. Qed.

Lemma free_blocks_ext t t' :
  blocks_bitmap t' = blocks_bitmap t -> free_blocks t' = free_blocks t.
Proof. unfold free_blocks. now intros ->. Qed.

Lemma rt_len : 0 <= len /\ 0 <= m.
Proof.
  pose proof BLOCK_SIZE_range. split; [unfold len; lia|].
  unfold m. apply Z.div_pos; unfold len; lia.
Qed.

(** The block that [alloc_inode] gives the new inode. *)
Lemma rt_b0 :
  blocks_bitmap (exec alloc_block s) = upd (blocks_bitmap s) (next_block s) true
  /\ Z.of_nat (free_blocks (exec alloc_block s)) = Z.of_nat (free_blocks s) - 1.
Proof.
  destruct rt_len as [_ Hm].
  destruct (alloc_block_step s) as (b & Ev & Ex & _ & _ & Hf).
  { destruct (2 <=? m); lia. }
  unfold next_block. rewrite Ev. rewrite Ex at 1. split; [reflexivity | exact Hf].
Qed.

Lemma rt_s1_inode :
  inodes s1 c = mk_inode 1 mode0 0 (block (inodes s c))
                         (upd (pointers (inodes s c)) 0 (next_block s)).
Proof.
  destruct rt_s1 as [E _]. rewrite E.
  rewrite put_image_inode_other by (intro H; apply rt_pa_c; now symmetry).
  apply rt_sb.
Qed.

Lemma rt_s1_blocks_bitmap :
  blocks_bitmap s1 = upd (blocks_bitmap s) (next_block s) true.
Proof.
  destruct rt_s1 as [E _]. rewrite E.
  destruct (put_image_bitmaps sb pa nm c) as [H _]. rewrite H.
  destruct rt_sb as (_ & H2 & _). rewrite H2. apply rt_b0.
Qed.

Lemma rt_s1_free : Z.of_nat (free_blocks s1) = Z.of_nat (free_blocks s) - 1.
Proof.
  destruct rt_b0 as [H1 H2]. rewrite <- H2. f_equal. apply free_blocks_ext.
  now rewrite rt_s1_blocks_bitmap, H1.
Qed.

(** The new path resolves to the new inode. *)
Lemma rt_s1_path : eval (path_lookup path) s1 = c.
Proof.
  destruct rt_s1 as [E _]. destruct rt_sb_pa as (Hb & He & Hw & Hf & Hp).
  destruct rt_nm as [Hn Hs].
  assert (Hwalk : eval (path_lookup_walk (parent_dirs path) 0) s1 = pa).
  { rewrite E, walk_after_put; auto; rewrite ?Hp, ?rt_sb_walk; auto. lia. }
  rewrite rt_full; rewrite rt_parent, Hwalk; [|lia].
  rewrite E. apply lookup_after_put_new; auto. now rewrite Hp.
Qed.

(** The image in which the write loop starts: after the truncation that
    [storage_write] asks for when the buffer is not empty. *)
Let s1g := exec (when (to_int (0 + len) >? size (inodes s1 c))
                   (storage_truncate path (to_int (0 + len)) ;; ret tt)) s1.

Lemma rt_grown :
  same_dirs s1 s1g
  /\ size (inodes s1g c) = len
  /\ (forall j j', 0 <= j < j' -> j' * BLOCK_SIZE < len ->
        extent s1g c j <> extent s1g c j').
Proof.
  destruct rt_len as [Hl Hm]. pose proof BLOCK_SIZE_range as Hbs.
  assert (Hsz : size (inodes s1 c) = 0) by (now rewrite rt_s1_inode).
  unfold s1g. cbn [Z.add]. rewrite to_int_small by (unfold INT_MAX in *; lia).
  rewrite Hsz. destruct (len >? 0) eqn:Epos.
  - apply Z.gtb_lt in Epos. rewrite exec_when_true.
    assert (Et : exec (storage_truncate path len ;; ret tt) s1
                 = exec (grow_inode c len) s1).
    { unfold storage_truncate, get_inode. run.
      rewrite (exec_readonly _ _ (readonly_path_lookup path)), rt_s1_path.
      replace (c <=? 0) with false by (symmetry; apply Z.leb_gt; lia).
      run. rewrite Hsz.
      replace (len >? 0) with true by (symmetry; apply Z.gtb_lt; lia).
      rewrite to_int_small by (unfold INT_MAX in *; lia). reflexivity. }
    rewrite Et.
    destruct (grow_inode_effect s1 c len) as
      (_ & Hblk & Hot & _ & _ & Hs & Hp0 & _ & Hinj).
    + lia.
    + rewrite Hsz. apply Z.quot_0_l. lia.
    + rewrite rt_s1_inode. cbn [pointers]. rewrite upd_same, rt_s1_blocks_bitmap.
      apply upd_same.
    + intro H2. rewrite rt_s1_inode. cbn [block]. apply Hstale. exact H2.
    + fold m. rewrite rt_s1_free. lia.
    + split; [|split; [exact Hs|]].
      * split.
        -- intro x. unfold dir_block. destruct (Z.eq_dec x c) as [->|Hx];
             [exact Hp0 | now rewrite Hot].
        -- intros b i. now destruct (Hblk b) as [-> _].
      * intros j j' Hj Hj'. apply Hinj; [lia|]. fold m. unfold m.
        apply Z.div_le_lower_bound; lia.
  - rewrite exec_when_false. assert (len = 0) by (rewrite Z.gtb_ltb in Epos; apply Z.ltb_ge in Epos; lia).
    split; [apply same_dirs_refl|]. split; [lia|]. intros; nia.
Qed.

Lemma rt_s1g_path : eval (path_lookup path) s1g = c.
Proof. destruct rt_grown as [H _]. rewrite (same_dirs_path _ _ path H). apply rt_s1_path. Qed.

Lemma rt_write_run :
  exists s2,
    storage_write path B len 0 s1 = (Some len, s2)
    /\ eval (path_lookup path) s2 = c
    /\ size (inodes s2 c) = len
    /\ (forall x, 0 <= x < len ->
          b_data (blocks s2 (extent s2 c (x / BLOCK_SIZE))) (x mod BLOCK_SIZE)
          = nth (Z.to_nat x) B x00).
Proof.
  destruct rt_len as [Hl Hm]. destruct rt_grown as (Hsame & Hsz & Hinj).
  destruct (storage_write_loop_spec c B Hlen (Z.to_nat len) 0 s1g) as
    (s2 & Erun & Hi & _ & _ & Hviews & _ & Hdata); try (fold len; lia).
  { intros j j' Hj Hj'. apply Hinj; [lia | exact Hj']. }
  fold len in Erun, Hdata. cbn [Z.mul] in Erun. rewrite Z.sub_0_r in Erun.
  exists s2. split; [|split; [|split]].
  - unfold storage_write, get_inode. unfold bind at 1.
    rewrite (readonly_run _ (readonly_path_lookup path) s1), rt_s1_path.
    replace (c <=? 0) with false by (symmetry; apply Z.leb_gt; lia).
    unfold bind at 1, load_size at 1, load at 1, gets at 1.
    unfold bind at 1. rewrite (run_pair (when _ _)). fold s1g. exact Erun.
  - assert (Hs2 : same_dirs s1g s2).
    { split.
      - intro x. unfold dir_block. now rewrite Hi.
      - intros b i. now destruct (Hviews b) as [_ ->]. }
    rewrite (same_dirs_path _ _ path Hs2). apply rt_s1g_path.
  - now rewrite Hi.
  - intros x Hx.
    assert (He : forall k, extent s2 c k = extent s1g c k).
    { intro k. unfold extent. rewrite Hi. now destruct (Hviews (block (inodes s1g c))) as [-> _]. }
    rewrite He. apply Hdata. lia.
Qed.

(** Reading back what was written. *)
Lemma rt_read_run s2 :
  eval (path_lookup path) s2 = c ->
  size (inodes s2 c) = len ->
  (forall x, 0 <= x < len ->
     b_data (blocks s2 (extent s2 c (x / BLOCK_SIZE))) (x mod BLOCK_SIZE)
     = nth (Z.to_nat x) B x00) ->
  storage_read path len 0 s2 = (Some (len, B), s2).
Proof.
  intros Hp Hsz Hdata. destruct rt_len as [Hl Hm].
  unfold storage_read, get_inode. unfold bind at 1.
  rewrite (readonly_run _ (readonly_path_lookup path) s2), Hp.
  replace (c <=? 0) with false by (symmetry; apply Z.leb_gt; lia).
  unfold bind at 1, load_size at 1, load at 1, gets at 1. rewrite Hsz.
  destruct (0 >=? len) eqn:E.
  - apply Z.geb_le in E. assert (Hz : len = 0) by lia. rewrite Hz.
    unfold len in Hz. destruct B; [reflexivity | simpl in Hz; lia].
  - rewrite to_int_small by (unfold INT_MAX in *; lia).
    pose proof (storage_read_loop_spec c B Hlen (Z.to_nat len) 0 [] s2) as H.
    fold len in H. cbn [Z.mul] in H. rewrite Z.sub_0_r in H.
    rewrite H; [reflexivity | lia | lia | lia |]. intros x Hx. apply Hdata. lia.
Qed.

End RoundTrip.

(** C1 (as amended): write/read round trip.  Let the image have room for
    the file: the parent of [path] resolves to a well-formed directory in
    which no allocated entry bears the last component and whose next slot
    is one of the 64 that [directory_lookup] scans; the directories on the
    way are allocated inodes with their entries in data blocks marked used,
    as are the blocks reserved for the bitmaps and the inode table; an inode
    other than the root's is free (with no stale indirect pointer, should
    the buffer need an indirect block); and the block store has a free block
    for the new inode and for every extent the buffer needs.  Then
    [storage_mknod] succeeds, writing a buffer [B] (of a length an [int]
    holds) at offset 0 returns its length, and reading that many bytes at
    offset 0 returns that length and exactly the bytes of [B]. *)
Theorem write_read_roundtrip (path : string) (mode0 : Z) (B : list byte) (s : fs) :
  let len := Z.of_nat (List.length B) in
  let pa := eval (path_lookup (fst (split_path path))) s in
  path_ok path = true ->
  0 <= pa -> wf_dir s pa = true ->
  name_free s pa (base_name path) = true -> put_slot s pa < 64 ->
  path_dirs_ok s path = true -> reserved_marked s = true ->
  0 < next_inode s ->
  1 + len / BLOCK_SIZE + (if 2 <=? len / BLOCK_SIZE then 1 else 0)
    <= Z.of_nat (free_blocks s) ->
  (2 <= len / BLOCK_SIZE -> block (inodes s (next_inode s)) = 0) ->
  len <= INT_MAX ->
  let s1 := exec (storage_mknod path mode0) s in
  let s2 := exec (storage_write path B len 0) s1 in
  eval (storage_mknod path mode0) s = 0
  /\ eval (storage_write path B len 0) s1 = Some len
  /\ storage_read path len 0 s2 = (Some (len, B), s2).
Proof.
  intros len pa Hpath Hpa Hwf Hfree Hroom Hdirs _ Hc Hblocks Hstale Hlen s1 s2.
  pose proof (rt_s1 path mode0 B s) as Hmk. feed Hmk. destruct Hmk as [_ Hmk].
  pose proof (rt_write_run path mode0 B s) as Hw. feed Hw.
  destruct Hw as (s2' & Ew & Hp & Hsz & Hdata).
  fold s1 len in Ew, Hp, Hsz, Hdata.
  assert (E2 : s2 = s2') by (unfold s2, exec; now rewrite Ew).
  split; [exact Hmk|]. split; [unfold eval; now rewrite Ew|].
  rewrite E2.
  pose proof (rt_read_run path mode0 B s) as Hr. feed Hr.
  apply Hr; assumption.
Qed.

(** *** Further properties of storage.c: failures *)

Lemma readonly_storage_read path len offset : readonly (storage_read path len offset).
Proof.
  unfold storage_read.
  apply readonly_bind; [apply readonly_path_lookup|]. intro i.
  apply readonly_if; [apply readonly_ret|].
  apply readonly_bind; [apply readonly_load|]. intro sz.
  apply readonly_if; [apply readonly_ret | apply readonly_storage_read_loop].
Qed.

(** X1: [storage_truncate], [storage_read] and [storage_write] on a path
    that resolves to an inode number <= 0 (not found, or the root) return
    -1, copy no byte, and leave the image as it was. *)
Theorem storage_file_ops_not_found (path : string) (buf : list byte)
    (len offset : Z) (s : fs) :
  eval (path_lookup path) s <= 0 ->
  storage_truncate path len s = (-1, s)
  /\ storage_read path len offset s = (Some (-1, []), s)
  /\ storage_write path buf len offset s = (Some (-1), s).
Proof.
  intro H. apply Z.leb_le in H.
  unfold storage_truncate, storage_read, storage_write, bind.
  rewrite (readonly_run _ (readonly_path_lookup path) s), H.
  repeat split.
Qed.

(** X2: [storage_read] never changes the image, whatever the path, the
    count and the offset are. *)
Theorem storage_read_frame (path : string) (len offset : Z) (s : fs) :
  exec (storage_read path len offset) s = s.
Proof. apply readonly_storage_read. Qed.

(** X3: [storage_mknod] on a path that resolves (to anything but -1, the
    root included) returns [-EEXIST] and leaves the image as it was: no
    inode and no block is taken. *)
Theorem storage_mknod_exists (path : string) (mode0 : Z) (s : fs) :
  eval (path_lookup path) s <> -1 ->
  storage_mknod path mode0 s = (- EEXIST, s).
Proof.
  intro H. apply Z.eqb_neq in H.
  unfold storage_mknod, bind.
  rewrite (readonly_run _ (readonly_path_lookup path) s), H. reflexivity.
Qed.

(** X4: [storage_mknod] on a path that does not resolve and whose parent
    does not resolve either returns [-ENOENT] and leaves the image as it
    was. *)
Theorem storage_mknod_no_parent (path : string) (mode0 : Z) (s : fs) :
  eval (path_lookup path) s = -1 ->
  eval (path_lookup (fst (split_path path))) s < 0 ->
  storage_mknod path mode0 s = (- ENOENT, s).
Proof.
  intros H Hp. apply Z.ltb_lt in Hp.
  unfold storage_mknod, bind.
  rewrite (readonly_run _ (readonly_path_lookup path) s), H.
  rewrite Z.eqb_refl. cbn [negb]. destruct (split_path path) as [parentPath childName].
  cbn [fst] in Hp.
  rewrite (readonly_run _ (readonly_path_lookup parentPath) s), Hp. reflexivity.
Qed.

(** X5: when [p] does not resolve, [storage_link q p] (a new name [q] for
    [p]) and [storage_rename p q] both return -1 and leave the image as it
    was. *)
Theorem storage_link_rename_not_found (p q : string) (s : fs) :
  eval (path_lookup p) s < 0 ->
  storage_link q p s = (-1, s) /\ storage_rename p q s = (-1, s).
Proof.
  intro H. apply Z.ltb_lt in H.
  assert (E : storage_link q p s = (-1, s)).
  { unfold storage_link, bind.
    now rewrite (readonly_run _ (readonly_path_lookup p) s), H. }
  split; [exact E|]. unfold storage_rename, bind. now rewrite E.
Qed.

(** *** Further properties of inode.c *)

Lemma next_inode_is c s :
  0 <= c < BLOCK_COUNT -> inode_bitmap s c = false ->
  (forall n, 0 <= n < c -> inode_bitmap s n = true) ->
  next_inode s = c.
Proof.
  intros Hc Hbit Hlow. unfold next_inode. rewrite eval_alloc_inode. unfold eval.
  rewrite alloc_inode_scan_run.
  rewrite (first_clear_is _ _ 0 c); [reflexivity | lia | exact Hbit |].
  intros k Hk. apply Hlow. lia.
Qed.

(** X6: [alloc_inode] takes the first free inode.  When [c] is the lowest
    index below [BLOCK_COUNT] whose bit is clear, the call returns [c], sets
    that bit and no other, leaves the inode with [refs = 1], [mode = 0],
    [size = 0] and the block that [alloc_block] returns in [pointers[0]],
    and touches no other inode and no block content. *)
Theorem alloc_inode_first_free (c : Z) (s : fs) :
  0 <= c < BLOCK_COUNT -> inode_bitmap s c = false ->
  (forall n, 0 <= n < c -> inode_bitmap s n = true) ->
  let s' := exec alloc_inode s in
  eval alloc_inode s = c
  /\ inode_bitmap s' c = true
  /\ (forall n, n <> c -> inode_bitmap s' n = inode_bitmap s n)
  /\ refs (inodes s' c) = 1 /\ mode (inodes s' c) = 0 /\ size (inodes s' c) = 0
  /\ pointers (inodes s' c) 0 = eval alloc_block s
  /\ (forall n, n <> c -> inodes s' n = inodes s n)
  /\ blocks s' = blocks s.
Proof.
  intros Hc Hbit Hlow s'.
  pose proof (next_inode_is c s Hc Hbit Hlow) as Hn.
  pose proof (alloc_inode_effect s) as H. rewrite Hn in H.
  cbv zeta in H. destruct H as (H1 & H2 & _ & H4 & H5 & H6); [lia|].
  fold s' in H2, H4, H5, H6.
  split; [exact H1|]. rewrite H2, H6. cbn [refs mode size pointers].
  rewrite !upd_same.
  split; [reflexivity|].
  split; [intros n Hne; now apply upd_other|].
  repeat (split; [first [reflexivity | assumption]|]). assumption.
Qed.


(** X8: [grow_inode] on a file still within its first block.  When the
    block store has a free block for every further extent (and one for the
    indirect block, should extent 2 be needed, the inode having none yet),
    the inode gets the new size, every extent up to the one of the new size
    is a block marked used, no two extents share a block, and nothing else
    changes: not [refs], [mode] or the first block pointer, no other inode,
    no directory entry, no byte of data and no bit of the inode bitmap. *)
Theorem grow_inode_allocates (n new_size : Z) (s : fs) :
  0 <= new_size ->
  Z.quot (size (inodes s n)) BLOCK_SIZE = 0 ->
  blocks_bitmap s (pointers (inodes s n) 0) = true ->
  (2 <= new_size / BLOCK_SIZE -> block (inodes s n) = 0) ->
  new_size / BLOCK_SIZE + (if 2 <=? new_size / BLOCK_SIZE then 1 else 0)
    <= Z.of_nat (free_blocks s) ->
  let t := exec (grow_inode n new_size) s in
  size (inodes t n) = new_size
  /\ (forall k, 0 <= k <= new_size / BLOCK_SIZE -> blocks_bitmap t (extent t n k) = true)
  /\ (forall k k', 0 <= k < k' -> k' <= new_size / BLOCK_SIZE ->
        extent t n k <> extent t n k')
  /\ refs (inodes t n) = refs (inodes s n)
  /\ mode (inodes t n) = mode (inodes s n)
  /\ pointers (inodes t n) 0 = pointers (inodes s n) 0
  /\ (forall x, x <> n -> inodes t x = inodes s x)
  /\ (forall b, b_dirents (blocks t b) = b_dirents (blocks s b)
                /\ b_data (blocks t b) = b_data (blocks s b))
  /\ inode_bitmap t = inode_bitmap s.
Proof.
  intros H0 Hq Hb Hblk Hfree t.
  destruct (grow_inode_effect s n new_size H0 Hq Hb Hblk Hfree)
    as (G1 & G2 & G3 & G4 & G5 & G6 & G7 & G8 & G9).
  fold t in G1, G2, G3, G4, G5, G6, G7, G8, G9.
  repeat (split; [assumption|]). assumption.
Qed.

(** X9: growing inside the blocks a file already has allocates nothing:
    when the new size lies in the file's last block or before it,
    [grow_inode] only stores the new size. *)
Theorem grow_inode_within_block (n new_size : Z) (s : fs) :
  Z.quot new_size BLOCK_SIZE <= Z.quot (size (inodes s n)) BLOCK_SIZE ->
  grow_inode n new_size s = (0, exec (store n (set_size new_size)) s).
Proof.
  intro H. unfold grow_inode, bind at 1, load, gets.
  replace (Z.to_nat _) with 0%nat by lia.
  reflexivity.
Qed.

(** *** Further properties of directory.c *)

(** X10: insert, then lookup.  In a directory that is an allocated inode
    of the table, with its entries in a data block marked used, whose entry
    flags are 0 or 1 (the allocated ones below the recorded count), when
    the slot [directory_put] will use is one of the 64 that
    [directory_lookup] reads, for a non-empty name shorter than
    [DIR_NAME_LENGTH] that no allocated entry bears: [directory_put]
    returns 0 and [directory_lookup] of the name then returns the inode
    number just entered. *)
Theorem directory_put_then_lookup (d : Z) (nm : string) (inum0 : Z) (s : fs) :
  0 <= d < BLOCK_COUNT -> dir_ok s d = true ->
  wf_dir s d = true -> put_slot s d < 64 ->
  short nm = true -> nonempty nm = true -> name_free s d nm = true ->
  eval (directory_put d nm inum0) s = 0
  /\ eval (directory_lookup d nm) (exec (directory_put d nm inum0) s) = inum0.
Proof.
  intros _ _ Hwf Hslot Hshort Hne Hfree.
  unfold eval at 1, exec. rewrite directory_put_run. cbn [fst snd].
  split; [reflexivity|].
  now apply lookup_after_put_new.
Qed.

(** X11: an insert does not disturb the other names.  In a directory that
    is an allocated inode of the table, with its entries in a data block
    marked used, whose entry flags are 0 or 1 (the allocated ones below the
    recorded count), when the slot [directory_put] will use is one of the
    first 64 and the name entered is shorter than [DIR_NAME_LENGTH]:
    [directory_lookup] of any name other than the one entered returns after
    [directory_put] what it returned before. *)
Theorem directory_put_keeps_lookup (d : Z) (nm c : string) (inum0 : Z) (s : fs) :
  0 <= d < BLOCK_COUNT -> dir_ok s d = true ->
  wf_dir s d = true -> put_slot s d < 64 -> short nm = true -> nm <> c ->
  eval (directory_lookup d c) (exec (directory_put d nm inum0) s)
  = eval (directory_lookup d c) s.
Proof.
  intros _ _ Hwf Hslot Hshort Hne.
  unfold exec at 1. rewrite directory_put_run. cbn [snd].
  apply lookup_after_put_other; try assumption.
  left. now apply String.eqb_neq.
Qed.

(** X12: resolving a path is resolving its parent and looking the last
    component up there.  For a path whose components are shorter than
    [DIR_NAME_LENGTH] and, but for a first empty one, not empty:
    [path_lookup] of the path is -1 when [path_lookup] of the parent that
    [split_path] gives is -1, and otherwise it is [directory_lookup], in
    the parent's inode, of the child name that [split_path] gives. *)
Theorem path_lookup_through_parent (path : string) (s : fs) :
  path_ok path = true ->
  eval (path_lookup path) s
  = (let p := eval (path_lookup (fst (split_path path))) s in
     if p =? -1 then -1
     else eval (directory_lookup p (snd (split_path path))) s).
Proof.
  intro Hok.
  destruct (path_ok_resolution path Hok) as (_ & _ & Hsnd & Hres).
  destruct (Hres s) as [Hp Hfull].
  rewrite Hsnd, Hp. exact Hfull.
Qed.

(** The characters of the components of a path, and one more for each. *)
Fixpoint components_size (comps : list string) : nat :=
  match comps with
  | [] => 0
  | c :: rest => S (String.length c) + components_size rest
  end.

Lemma s_explode_size text delim :
  (components_size (s_explode text delim) <= S (String.length text))%nat.
Proof.
  induction text as [|c rest IH]; cbn [s_explode components_size String.length]; [lia|].
  destruct (Ascii.eqb c delim).
  - cbn [components_size String.length]. lia.
  - destruct (s_explode rest delim) as [|part parts];
      cbn [components_size String.length] in *; lia.
Qed.

Lemma length_strncpy src n : (String.length (strncpy src n) <= Nat.min n (String.length src))%nat.
Proof.
  unfold strncpy. revert n; induction src as [|c rest IH]; intro n.
  - destruct n; cbn; lia.
  - destruct n; cbn [substring String.length]; [lia|].
    specialize (IH n). lia.
Qed.

Lemma length_append (a b : string) :
  String.length (a ++ b) = (String.length a + String.length b)%nat.
Proof. induction a as [|c a IH]; cbn; [reflexivity | now rewrite IH]. Qed.

Lemma split_path_loop_size comps acc :
  comps <> [] ->
  (String.length (fst (split_path_loop comps acc))
   + S (String.length (snd (split_path_loop comps acc)))
   <= String.length acc + components_size comps)%nat
  /\ (String.length (snd (split_path_loop comps acc)) <= DIR_NAME_LENGTH)%nat.
Proof.
  revert acc; induction comps as [|c rest IH]; intros acc Hne; [congruence|].
  destruct rest as [|c' rest'].
  - cbn [split_path_loop fst snd components_size].
    pose proof (length_strncpy c DIR_NAME_LENGTH). lia.
  - change (split_path_loop (c :: c' :: rest') acc)
      with (split_path_loop (c' :: rest') (acc ++ "/" ++ strncpy c DIR_NAME_LENGTH)%string).
    destruct (IH (acc ++ "/" ++ strncpy c DIR_NAME_LENGTH)%string) as [H1 H2]; [congruence|].
    split; [|exact H2].
    rewrite !length_append in H1. cbn [String.length] in H1.
    pose proof (length_strncpy c DIR_NAME_LENGTH).
    cbn [components_size] in *. lia.
Qed.

(** X13: the two strings that [split_path] writes fit the buffers its
    callers give it ([strlen(path) + 1] and [DIR_NAME_LENGTH + 1]
    characters): for every path with at least one component, the parent
    path is no longer than the path and the child name no longer than
    [DIR_NAME_LENGTH]. *)
Theorem split_path_fits (path : string) :
  s_explode path "/" <> [] ->
  (String.length (fst (split_path path)) <= String.length path)%nat
  /\ (String.length (snd (split_path path)) <= DIR_NAME_LENGTH)%nat.
Proof.
  intro Hne. unfold split_path.
  destruct (split_path_loop_size (s_explode path "/") EmptyString Hne) as [H1 H2].
  pose proof (s_explode_size path "/"). cbn [String.length] in H1.
  split; [lia | exact H2].
Qed.


Lemma directory_delete_first d nm j s :
  0 <= j < dir_entries_count (size (inodes s d)) ->
  del_match (entry_at s d j) nm = true ->
  (forall k, 0 <= k < j -> del_match (entry_at s d k) nm = false) ->
  directory_delete d nm s = delete_found (dir_block s d) j s.
Proof.
  intros Hj Hm Hfirst. rewrite directory_delete_run.
  rewrite (delete_slot_scan_first _ _ nm 0 j); [reflexivity | lia | exact Hm | exact Hfirst].
Qed.

(** X14: removing one of several links.  In a directory that is an
    allocated inode of the table, with its entries in a data block marked
    used: when entry [j], one of the first 64, is the first of the
    directory's recorded entries that is allocated and bears the name, and
    the inode it names is an inode of the table with more than one link,
    [directory_delete] returns 0, takes one from that inode's [refs], marks
    entry [j] unallocated, and changes nothing else: no bit of either
    bitmap, no other inode, no other entry. *)
Theorem directory_delete_drops_link (d : Z) (nm : string) (j : Z) (s : fs) :
  0 <= d < BLOCK_COUNT -> dir_ok s d = true -> j < 64 ->
  0 <= inum (entry_at s d j) < BLOCK_COUNT ->
  0 <= j < dir_entries_count (size (inodes s d)) ->
  del_match (entry_at s d j) nm = true ->
  (forall k, 0 <= k < j -> del_match (entry_at s d k) nm = false) ->
  let target := inum (entry_at s d j) in
  1 < refs (inodes s target) ->
  let s' := exec (directory_delete d nm) s in
  eval (directory_delete d nm) s = 0
  /\ refs (inodes s' target) = refs (inodes s target) - 1
  /\ inode_bitmap s' = inode_bitmap s
  /\ blocks_bitmap s' = blocks_bitmap s
  /\ (forall x, x <> target -> inodes s' x = inodes s x)
  /\ input_allocation (entry_at s' d j) = 0
  /\ (forall i, i <> j -> entry_at s' d i = entry_at s d i).
Proof.
  intros _ _ _ _ Hj Hm Hfirst target Hrefs s'.
  pose proof (directory_delete_first d nm j s Hj Hm Hfirst) as E.
  pose proof (delete_found_keep (dir_block s d) j s) as K.
  cbv zeta in K. rewrite entry_at_def in K. fold target in K.
  specialize (K Hrefs).
  assert (Es : s' = exec (store_dirent (dir_block s d) j
                            (set_input_allocation 0 (entry_at s d j)))
                      (exec (store target (set_refs (refs (inodes s target) - 1))) s)).
  { unfold s', exec at 1. now rewrite E, K. }
  assert (Hdb : dir_block s' d = dir_block s d).
  { rewrite Es. unfold dir_block. cbn. unfold upd.
    destruct (d =? target) eqn:Ed; [apply Z.eqb_eq in Ed; rewrite <- Ed|]; reflexivity. }
  split; [unfold eval; now rewrite E, K|].
  split; [rewrite Es; cbn; now rewrite upd_same|].
  split; [now rewrite Es|]. split; [now rewrite Es|].
  split; [intros x Hx; rewrite Es; cbn; now rewrite upd_other|].
  unfold entry_at. fold (dir_block s' d). rewrite Hdb. rewrite Es. cbn.
  rewrite !upd_same. cbn. split; [now rewrite upd_same|].
  intros i Hi. rewrite upd_other by exact Hi. reflexivity.
Qed.


(** *** Further properties of storage.c: what truncate and write leave alone *)

(** [t] differs from [s] at most in the block bitmap, in the size and the
    block pointers of inode [n], and in the block-pointer tables. *)
Definition extent_change (n : Z) (s t : fs) : Prop :=
  inode_bitmap t = inode_bitmap s
  /\ (forall x, x <> n -> inodes t x = inodes s x)
  /\ refs (inodes t n) = refs (inodes s n)
  /\ mode (inodes t n) = mode (inodes s n)
  /\ (forall b, b_dirents (blocks t b) = b_dirents (blocks s b))
  /\ (forall b, b_data (blocks t b) = b_data (blocks s b)).

Lemma extent_change_refl n s : extent_change n s s.
Proof. unfold extent_change. repeat split; auto. Qed.

Lemma extent_change_alloc_block n s t :
  extent_change n s t -> extent_change n s (exec alloc_block t).
Proof.
  intro H. unfold exec, alloc_block. rewrite alloc_block_scan_run.
  destruct (first_clear _ _ _); exact H.
Qed.

Lemma extent_change_store n s t f :
  (forall i, refs (f i) = refs i /\ mode (f i) = mode i) ->
  extent_change n s t -> extent_change n s (exec (store n f) t).
Proof.
  intros Hf (H1 & H2 & H3 & H4 & H5 & H6). unfold extent_change. cbn.
  rewrite upd_same. destruct (Hf (inodes t n)) as [Hr Hm].
  repeat split; auto; try congruence.
  intros x Hx. rewrite upd_other by exact Hx. now apply H2.
Qed.

Lemma extent_change_store_ptr n s t b i v :
  extent_change n s t -> extent_change n s (exec (store_ptr b i v) t).
Proof.
  intros (H1 & H2 & H3 & H4 & H5 & H6). unfold extent_change. cbn.
  repeat split; auto; intro b'; unfold upd;
    (destruct (b' =? b) eqn:E; [apply Z.eqb_eq in E; subst b'; cbn|]); auto.
Qed.

Lemma extent_change_free_block n s t b :
  extent_change n s t -> extent_change n s (exec (free_block b) t).
Proof. intro H. exact H. Qed.

Lemma grow_inode_frame n new_size s :
  eval (grow_inode n new_size) s = 0
  /\ extent_change n s (exec (grow_inode n new_size) s)
  /\ size (inodes (exec (grow_inode n new_size) s) n) = new_size.
Proof.
  unfold grow_inode. run. set (body := fun i : Z => _).
  set (c := Z.quot (size (inodes s n)) BLOCK_SIZE + 1).
  set (k := Z.to_nat _).
  assert (H : extent_change n s (exec (for_up k c body) s)).
  { apply (for_up_invariant (fun _ t => extent_change n s t));
      [apply extent_change_refl|].
    intros i t _ Ht. unfold body. destruct (2 <=? i).
    - run. apply extent_change_store_ptr, extent_change_alloc_block.
      destruct (block (inodes t n) =? 0).
      + rewrite exec_when_true. run.
        apply extent_change_store; [intro; now split|].
        now apply extent_change_alloc_block.
      + now rewrite exec_when_false.
    - run. apply extent_change_store; [intro; now split|].
      now apply extent_change_alloc_block. }
  split; [reflexivity|]. split.
  - apply extent_change_store; [intro; now split | exact H].
  - rewrite exec_store. cbn. now rewrite upd_same.
Qed.

Lemma shrink_inode_frame n new_size s :
  eval (shrink_inode n new_size) s = 0
  /\ extent_change n s (exec (shrink_inode n new_size) s)
  /\ size (inodes (exec (shrink_inode n new_size) s) n) = new_size.
Proof.
  destruct (shrink_inode_run n new_size s) as (t & Ht & E).
  unfold eval, exec. rewrite E. cbn [fst snd].
  destruct Ht as (Hb & Hib & Hot & _ & _ & Hr & Hm & _).
  split; [reflexivity|]. split.
  - apply extent_change_store; [intro; now split|].
    unfold extent_change. rewrite Hb. repeat split; auto.
  - cbn. now rewrite upd_same.
Qed.

Lemma storage_truncate_frame (path : string) (new_size : Z) (s : fs) :
  0 < eval (path_lookup path) s ->
  let n := eval (path_lookup path) s in
  let t := exec (storage_truncate path new_size) s in
  eval (storage_truncate path new_size) s = 0
  /\ size (inodes t n) = to_int new_size
  /\ refs (inodes t n) = refs (inodes s n)
  /\ mode (inodes t n) = mode (inodes s n)
  /\ (forall x, x <> n -> inodes t x = inodes s x)
  /\ inode_bitmap t = inode_bitmap s
  /\ (forall b, b_dirents (blocks t b) = b_dirents (blocks s b))
  /\ (forall b, b_data (blocks t b) = b_data (blocks s b)).
Proof.
  intros Hres n t.
  assert (E : storage_truncate path new_size s
              = (let m := if new_size >? size (inodes s n)
                          then grow_inode n (to_int new_size)
                          else shrink_inode n (to_int new_size) in
                 (0, exec m s))).
  { unfold storage_truncate, bind at 1.
    rewrite (readonly_run _ (readonly_path_lookup path) s).
    apply Z.leb_gt in Hres. rewrite Hres. fold n.
    unfold bind at 1, load, gets, get_inode. cbn [fst snd].
    unfold bind, exec. now destruct (_ s). }
  unfold t, eval, exec at 1 2 3 4 5 6 7. rewrite E. cbv zeta. cbn [fst snd].
  assert (F : forall m : M Z,
            extent_change n s (exec m s) /\ size (inodes (exec m s) n) = to_int new_size ->
            size (inodes (exec m s) n) = to_int new_size
            /\ refs (inodes (exec m s) n) = refs (inodes s n)
            /\ mode (inodes (exec m s) n) = mode (inodes s n)
            /\ (forall x, x <> n -> inodes (exec m s) x = inodes s x)
            /\ inode_bitmap (exec m s) = inode_bitmap s
            /\ (forall b, b_dirents (blocks (exec m s) b) = b_dirents (blocks s b))
            /\ (forall b, b_data (blocks (exec m s) b) = b_data (blocks s b))).
  { intros m ((H1 & H2 & H3 & H4 & H5 & H6) & Hs). repeat split; auto. }
  split; [reflexivity|]. apply F.
  destruct (new_size >? size (inodes s n)).
  - destruct (grow_inode_frame n (to_int new_size) s) as (_ & H1 & H2). now split.
  - destruct (shrink_inode_frame n (to_int new_size) s) as (_ & H1 & H2). now split.
Qed.

(** X16: [storage_truncate] on a file of less than one block.  Let the path
    resolve, through directories that are allocated inodes with their
    entries in data blocks marked used, to an inode number between 1 and
    [BLOCK_COUNT - 1] whose size is at least 0 and less than [BLOCK_SIZE];
    let the new size be between 0 and [INT_MAX], and the blocks reserved
    for the bitmaps and the inode table be marked used.  When the new size
    is not larger than the old one, let [pointers[0]] and [pointers[1]] be
    numbers of blocks of the store; when it is larger, let the free blocks
    be as many as the blocks to add ([new_size / BLOCK_SIZE], and one more
    for the indirect block when that is 2 or more, in which case [block]
    is 0).  Then [storage_truncate] returns 0 and the inode's size is the
    new size; the link count and the mode of the inode, every field of
    every other inode and the inode bitmap are as before, and so are the
    directory entries and the data bytes of every data block that was
    marked used. *)
Theorem storage_truncate_effect (path : string) (new_size : Z) (s : fs) :
  let n := eval (path_lookup path) s in
  0 < n < BLOCK_COUNT ->
  path_dirs_ok s path = true -> reserved_marked s = true ->
  0 <= new_size <= INT_MAX ->
  0 <= size (inodes s n) < BLOCK_SIZE ->
  (new_size <= size (inodes s n) ->
   0 <= pointers (inodes s n) 0 < BLOCK_COUNT
   /\ 0 <= pointers (inodes s n) 1 < BLOCK_COUNT) ->
  (size (inodes s n) < new_size ->
   (2 <= new_size / BLOCK_SIZE -> block (inodes s n) = 0)
   /\ new_size / BLOCK_SIZE + (if 2 <=? new_size / BLOCK_SIZE then 1 else 0)
      <= Z.of_nat (free_blocks s)) ->
  let t := exec (storage_truncate path new_size) s in
  eval (storage_truncate path new_size) s = 0
  /\ size (inodes t n) = new_size
  /\ refs (inodes t n) = refs (inodes s n)
  /\ mode (inodes t n) = mode (inodes s n)
  /\ (forall x, x <> n -> inodes t x = inodes s x)
  /\ inode_bitmap t = inode_bitmap s
  /\ (forall b, data_block b = true -> blocks_bitmap s b = true ->
        b_dirents (blocks t b) = b_dirents (blocks s b)
        /\ b_data (blocks t b) = b_data (blocks s b)).
Proof.
  intros n Hn _ _ Hnew _ _ _ t.
  destruct (storage_truncate_frame path new_size s (proj1 Hn))
    as (T0 & T1 & T2 & T3 & T4 & T5 & T6 & T7).
  fold n t in T1, T2, T3, T4, T5, T6, T7.
  rewrite to_int_small in T1 by lia.
  repeat (split; [assumption|]).
  intros b _ _. split; [apply T6 | apply T7].
Qed.

(** The copy loop of [storage_write] comes to its end within the passes it
    is given, reports every byte, and writes to nothing but data bytes. *)
Lemma storage_write_loop_frame fuel n buf offset len w t :
  0 <= len -> (Z.to_nat len <= fuel)%nat ->
  let r := storage_write_loop fuel n buf offset len w t in
  fst r = Some (w + len)
  /\ inodes (snd r) = inodes t
  /\ inode_bitmap (snd r) = inode_bitmap t
  /\ blocks_bitmap (snd r) = blocks_bitmap t
  /\ (forall b, b_dirents (blocks (snd r) b) = b_dirents (blocks t b))
  /\ (forall b, b_ptrs (blocks (snd r) b) = b_ptrs (blocks t b)).
Proof.
  revert len w t; induction fuel as [|fuel IH]; intros len w t Hlen Hfuel.
  - assert (len = 0) by lia. subst len. cbn. rewrite Z.add_0_r. repeat split.
  - destruct (Z.eq_dec len 0) as [->|Hpos].
    { rewrite storage_write_loop_done. cbn. rewrite Z.add_0_r. repeat split. }
    rewrite storage_write_loop_step by lia. cbv zeta.
    pose proof (block_chunk_positive offset) as Hc.
    set (chunk := BLOCK_SIZE - Z.rem offset BLOCK_SIZE) in *.
    set (writeSize := if len <? chunk then len else chunk).
    assert (Hws : 0 < writeSize <= len).
    { unfold writeSize. destruct (len <? chunk) eqn:E; lia. }
    set (t' := exec (memcpy_to_block _ _ _) t).
    destruct (IH (len - writeSize) (w + writeSize) t') as (R1 & R2 & R3 & R4 & R5 & R6);
      [lia | lia |].
    rewrite R1, R2, R3, R4. unfold t' at 1 2 3. rewrite exec_memcpy_to_block.
    cbn [inodes inode_bitmap blocks_bitmap set_blocks].
    split; [f_equal; lia|]. repeat (split; [reflexivity|]).
    split; intro b; [rewrite R5 | rewrite R6]; unfold t';
      rewrite exec_memcpy_to_block; cbn; unfold upd;
      (destruct (b =? _) eqn:E; [apply Z.eqb_eq in E; rewrite <- E|]); reflexivity.
Qed.

Lemma storage_write_frame (path : string) (buf : list byte) (len offset : Z) (s : fs) :
  0 < eval (path_lookup path) s ->
  0 <= len <= INT_MAX ->
  let n := eval (path_lookup path) s in
  let t := exec (storage_write path buf len offset) s in
  eval (storage_write path buf len offset) s = Some len
  /\ size (inodes t n)
     = (if to_int (offset + len) >? size (inodes s n)
        then to_int (offset + len) else size (inodes s n))
  /\ refs (inodes t n) = refs (inodes s n)
  /\ mode (inodes t n) = mode (inodes s n)
  /\ (forall x, x <> n -> inodes t x = inodes s x)
  /\ inode_bitmap t = inode_bitmap s
  /\ (forall b, b_dirents (blocks t b) = b_dirents (blocks s b)).
Proof.
  intros Hres Hlen n t.
  set (e := to_int (offset + len)).
  set (s1 := exec (when (e >? size (inodes s n)) (storage_truncate path e ;; ret tt)) s).
  assert (E : storage_write path buf len offset s
              = storage_write_loop (Z.to_nat len) n buf offset len 0 s1).
  { unfold storage_write, bind at 1.
    rewrite (readonly_run _ (readonly_path_lookup path) s).
    pose proof Hres as Hres'. apply Z.leb_gt in Hres'. rewrite Hres'. fold n.
    unfold bind at 1, load_size, load, gets, get_inode. cbn [fst snd]. fold e.
    unfold bind at 1. unfold s1, exec. now destruct (when _ _ s). }
  assert (H1 : size (inodes s1 n)
               = (if e >? size (inodes s n) then e else size (inodes s n))
               /\ refs (inodes s1 n) = refs (inodes s n)
               /\ mode (inodes s1 n) = mode (inodes s n)
               /\ (forall x, x <> n -> inodes s1 x = inodes s x)
               /\ inode_bitmap s1 = inode_bitmap s
               /\ (forall b, b_dirents (blocks s1 b) = b_dirents (blocks s b))).
  { unfold s1. destruct (e >? size (inodes s n)) eqn:Ee.
    - rewrite exec_when_true. rewrite exec_bind, exec_ret.
      destruct (storage_truncate_frame path e s Hres)
        as (_ & T1 & T2 & T3 & T4 & T5 & T6 & _).
      fold n in T1, T2, T3, T4. split.
      + rewrite T1. apply to_int_small. unfold e.
        pose proof (Z.mod_pos_bound (offset + len + 2147483648) 4294967296).
        unfold to_int. unfold INT_MAX. lia.
      + repeat (split; [assumption|]). assumption.
    - rewrite exec_when_false. repeat split. }
  destruct (storage_write_loop_frame (Z.to_nat len) n buf offset len 0 s1)
    as (R1 & R2 & R3 & R4 & R5 & R6); [lia | lia |].
  destruct H1 as (S1 & S2 & S3 & S4 & S5 & S6).
  unfold t, eval, exec. rewrite E. rewrite R1, R2, R3.
  split; [f_equal; lia|].
  repeat (split; [assumption|]).
  intro b. now rewrite R5.
Qed.

(** The extents of a file, up to the one that holds its last byte, are data
    blocks; when some of them are read from the indirect block, that block
    is a data block too, none of them, and holds them all. *)
Definition file_blocks_ok (s : fs) (n : Z) : bool :=
  let top := size (inodes s n) / BLOCK_SIZE in
  forallb (fun k => data_block (extent s n k)
                    && ((top <? 2) || negb (extent s n k =? block (inodes s n))))
          (iota 0 (Z.to_nat (top + 1)))
  && ((top <? 2)
      || (data_block (block (inodes s n)) && (top - 2 <? PTRS_PER_BLOCK))).

(** A copy loop that stays below the size of the file writes to the blocks
    of its extents only. *)
Lemma storage_write_loop_in_place fuel n buf offset len w t s size0 :
  0 <= offset -> 0 <= w -> 0 <= len -> (Z.to_nat len <= fuel)%nat ->
  offset + w + len <= size0 -> size0 <= INT_MAX ->
  inodes t = inodes s ->
  (forall b, b_ptrs (blocks t b) = b_ptrs (blocks s b)) ->
  (forall b, (forall k, 0 <= k <= size0 / BLOCK_SIZE -> extent s n k <> b) ->
             blocks t b = blocks s b) ->
  forall b, (forall k, 0 <= k <= size0 / BLOCK_SIZE -> extent s n k <> b) ->
            blocks (snd (storage_write_loop fuel n buf offset len w t)) b = blocks s b.
Proof.
  intros Hoff. revert len w t; induction fuel as [|fuel IH];
    intros len w t Hw Hlen Hfuel Hend Hmax Hin Hptr Hblk b Hb.
  - assert (len = 0) by lia. subst len. cbn. now apply Hblk.
  - destruct (Z.eq_dec len 0) as [->|Hpos].
    { rewrite storage_write_loop_done. cbn. now apply Hblk. }
    rewrite storage_write_loop_step by lia. cbv zeta.
    pose proof (block_chunk_positive offset) as Hc.
    pose proof BLOCK_SIZE_range as Hbs.
    set (chunk := BLOCK_SIZE - Z.rem offset BLOCK_SIZE) in *.
    set (writeSize := if len <? chunk then len else chunk).
    assert (Hws : 0 < writeSize <= len).
    { unfold writeSize. destruct (len <? chunk) eqn:E; lia. }
    set (k0 := Z.quot (to_int (offset + w)) BLOCK_SIZE).
    assert (Hk0 : 0 <= k0 <= size0 / BLOCK_SIZE).
    { unfold k0. rewrite to_int_small by (unfold INT_MAX in *; lia).
      rewrite Z.quot_div_nonneg by lia. split.
      - apply Z.div_pos; lia.
      - apply Z.div_le_mono; lia. }
    assert (He : extent t n k0 = extent s n k0).
    { unfold extent. now rewrite Hin, Hptr. }
    rewrite He.
    apply IH; try lia.
    + exact Hin.
    + intro c. rewrite exec_memcpy_to_block. cbn. unfold upd.
      destruct (c =? _) eqn:E; [apply Z.eqb_eq in E; rewrite <- E|]; apply Hptr.
    + intros c Hc'. rewrite exec_memcpy_to_block. cbn. unfold upd.
      destruct (c =? _) eqn:E.
      * apply Z.eqb_eq in E. exfalso. apply (Hc' k0 Hk0). now symmetry.
      * now apply Hblk.
    + exact Hb.
Qed.

(** X17: [storage_write] within the size of the file.  Let the path
    resolve, through directories that are allocated inodes with their
    entries in data blocks marked used, to an inode number between 1 and
    [BLOCK_COUNT - 1]; let the offset and the count be at least 0, the
    buffer hold at least the count of bytes, and the range written end at
    or before the size of the file, which an [int] holds; let the extents
    of the file up to the one with its last byte be data blocks, and the
    indirect block, when extents are read from it, be a data block that is
    none of them and holds them all.  Then [storage_write] returns the
    count; no inode and no bit of either bitmap changes, and no block
    changes other than the extents of the file. *)
Theorem storage_write_effect (path : string) (buf : list byte) (len offset : Z)
    (s : fs) :
  let n := eval (path_lookup path) s in
  0 < n < BLOCK_COUNT ->
  path_dirs_ok s path = true ->
  0 <= offset -> 0 <= len -> len <= Z.of_nat (List.length buf) ->
  offset + len <= size (inodes s n) -> size (inodes s n) <= INT_MAX ->
  file_blocks_ok s n = true ->
  let t := exec (storage_write path buf len offset) s in
  eval (storage_write path buf len offset) s = Some len
  /\ inodes t = inodes s
  /\ inode_bitmap t = inode_bitmap s
  /\ blocks_bitmap t = blocks_bitmap s
  /\ (forall b, (forall k, 0 <= k <= size (inodes s n) / BLOCK_SIZE ->
                           extent s n k <> b) ->
                blocks t b = blocks s b).
Proof.
  intros n Hn _ Hoff Hlen _ Hend Hmax _ t.
  assert (E : storage_write path buf len offset s
              = storage_write_loop (Z.to_nat len) n buf offset len 0 s).
  { unfold storage_write, bind at 1.
    rewrite (readonly_run _ (readonly_path_lookup path) s).
    destruct Hn as [Hres _]. unfold n in Hres. apply Z.leb_gt in Hres.
    rewrite Hres. fold n.
    unfold bind at 1, load_size, load, gets, get_inode. cbn [fst snd].
    rewrite to_int_small by (unfold INT_MAX in *; lia).
    replace (offset + len >? size (inodes s n)) with false
      by (symmetry; rewrite Z.gtb_ltb; apply Z.ltb_ge; lia).
    reflexivity. }
  destruct (storage_write_loop_frame (Z.to_nat len) n buf offset len 0 s)
    as (R1 & R2 & R3 & R4 & _); [lia | lia |].
  unfold t, eval, exec. rewrite E.
  split; [rewrite R1; f_equal; lia|].
  repeat (split; [assumption|]).
  apply (storage_write_loop_in_place (Z.to_nat len) n buf offset len 0 s s
           (size (inodes s n))); try lia; auto.
Qed.

(** The names of the allocated entries among the recorded entries of
    directory [d] are shorter than the [name] field. *)
Definition names_short (s : fs) (d : Z) : bool :=
  forallb (fun e => (input_allocation e =? 0) || short (name e))
          (map (entry_at s d)
               (iota 0 (Z.to_nat (dir_entries_count (size (inodes s d)))))).

Lemma directory_list_scan_run n blk i acc s :
  forallb (fun e => (input_allocation e =? 0) || short (name e))
          (map (b_dirents (blocks s blk)) (iota i n)) = true ->
  directory_list_scan n blk i acc s
  = (Some (rev (map name (filter (fun e => negb (input_allocation e =? 0))
                            (map (b_dirents (blocks s blk)) (iota i n)))) ++ acc)%list, s).
Proof.
  revert i acc; induction n as [|n IH]; intros i acc H; [reflexivity|].
  cbn [iota map forallb] in H. apply andb_true_iff in H. destruct H as [H1 H2].
  cbn [directory_list_scan iota map filter]. unfold bind at 1, load_dirent, gets.
  cbn [fst snd].
  destruct (input_allocation (b_dirents (blocks s blk) i) =? 0) eqn:E;
    cbn [negb orb] in *.
  - now apply IH.
  - unfold name_text. unfold short in H1. rewrite H1. rewrite IH by exact H2.
    cbn [map rev]. now rewrite <- app_assoc.
Qed.

(** X18: [directory_list] (and [storage_list], which calls it).  Let the
    path resolve, through directories that are allocated inodes with their
    entries in data blocks marked used, to such a directory, with an inode
    number between 0 and [BLOCK_COUNT - 1], that records at most 64
    entries, the allocated ones with names shorter than [DIR_NAME_LENGTH].
    Then [directory_list] returns the names of the allocated entries among
    the [size / sizeof(dirent_t)] recorded ones, the last entry first, and
    leaves the image as it was. *)
Theorem directory_list_names (path : string) (s : fs) :
  let d := eval (path_lookup path) s in
  0 <= d < BLOCK_COUNT ->
  path_dirs_ok s path = true -> dir_ok s d = true ->
  dir_entries_count (size (inodes s d)) <= 64 ->
  names_short s d = true ->
  directory_list path s
  = (Some (rev (map name
                  (filter (fun e => negb (input_allocation e =? 0))
                     (map (entry_at s d)
                          (iota 0 (Z.to_nat (dir_entries_count (size (inodes s d))))))))),
     s)
  /\ storage_list path s = directory_list path s.
Proof.
  intros d _ _ _ _ Hshort. split; [|reflexivity].
  unfold directory_list, bind at 1.
  rewrite (readonly_run _ (readonly_path_lookup path) s). fold d.
  unfold bind, load, gets, get_inode. cbn [fst snd].
  rewrite directory_list_scan_run by exact Hshort.
  now rewrite app_nil_r.
Qed.

(** *** Further properties of storage.c: initialisation *)

Lemma alloc_block_at b s :
  1 <= b < BLOCK_COUNT -> blocks_bitmap s b = false ->
  (forall k, 1 <= k < b -> blocks_bitmap s k = true) ->
  alloc_block s = (b, set_blocks_bitmap (upd (blocks_bitmap s) b true) s).
Proof.
  intros Hb Hbit Hlow. unfold alloc_block. rewrite alloc_block_scan_run.
  rewrite (first_clear_is _ _ 1 b); [reflexivity | lia | exact Hbit | exact Hlow].
Qed.

Lemma alloc_inode_at c s :
  0 <= c < BLOCK_COUNT -> inode_bitmap s c = false ->
  (forall k, 0 <= k < c -> inode_bitmap s k = true) ->
  alloc_inode_scan (Z.to_nat BLOCK_COUNT) 0 s
  = (c, set_inode_bitmap (upd (inode_bitmap s) c true) s).
Proof.
  intros Hc Hbit Hlow. rewrite alloc_inode_scan_run.
  rewrite (first_clear_is _ _ 0 c); [reflexivity | lia | exact Hbit |].
  intros k Hk. apply Hlow. lia.
Qed.

Lemma storage_init_initialised s :
  blocks_bitmap s 1 = true -> blocks_bitmap s 4 = true -> storage_init s = (tt, s).
Proof.
  intros H1 H4. unfold storage_init, bind, gets, bitmap_get. rewrite H1. cbn.
  now rewrite H4.
Qed.

Lemma storage_init_run s :
  4 < BLOCK_COUNT ->
  (forall k, 1 <= k <= 4 -> blocks_bitmap s k = false) ->
  inode_bitmap s 0 = false ->
  exists t,
    storage_init s = (tt, t)
    /\ (forall k, blocks_bitmap t k
                  = if (1 <=? k) && (k <=? 4) then true else blocks_bitmap s k)
    /\ (forall k, inode_bitmap t k = if k =? 0 then true else inode_bitmap s k)
    /\ (forall x, x <> 0 -> inodes t x = inodes s x)
    /\ refs (inodes t 0) = 1 /\ mode (inodes t 0) = 16877 /\ size (inodes t 0) = 0
    /\ pointers (inodes t 0) 0 = 4
    /\ blocks t = blocks s.
Proof.
  intros Hcount Hclear Hino. eexists. split.
  - unfold storage_init, bind at 1, gets. unfold bitmap_get at 1.
    rewrite (Hclear 1) by lia. cbn [Z.eqb when for_up]. unfold bind at 1.
    unfold bind at 1. unfold bind at 1.
    rewrite (alloc_block_at 1 s); [| lia | apply Hclear; lia | intros; lia].
    unfold ret at 1. unfold bind at 1. unfold bind at 1.
    rewrite (alloc_block_at 2);
      [| lia | cbn; rewrite ?upd_other by lia; apply Hclear; lia
       | intros k Hk; assert (k = 1) by lia; subst k; reflexivity].
    unfold ret at 1. unfold bind at 1. unfold bind at 1.
    rewrite (alloc_block_at 3);
      [| lia | cbn; rewrite ?upd_other by lia; apply Hclear; lia
       | intros k Hk; cbn; unfold upd;
         destruct (k =? 2) eqn:E2; [reflexivity|];
         destruct (k =? 1) eqn:E1; [reflexivity | lia]].
    unfold ret at 1 2. unfold bind at 1, gets. cbn [blocks_bitmap set_blocks_bitmap].
    unfold bitmap_get. rewrite !upd_other by lia. rewrite (Hclear 4) by lia.
    cbn [Z.eqb when].
    unfold directory_init, bind at 1, alloc_inode, bind at 1.
    rewrite (alloc_inode_at 0); [| lia | exact Hino | intros; lia].
    unfold get_inode. unfold bind at 1. unfold store at 1, modify.
    unfold bind at 1. unfold store at 1, modify.
    unfold bind at 1. unfold store at 1, modify.
    unfold bind at 1.
    rewrite (alloc_block_at 4);
      [| lia | cbn; rewrite ?upd_other by lia; apply Hclear; lia
       | intros k Hk; cbn; unfold upd;
         destruct (k =? 3) eqn:E3; [reflexivity|];
         destruct (k =? 2) eqn:E2; [reflexivity|];
         destruct (k =? 1) eqn:E1; [reflexivity | lia]].
    unfold bind at 1. unfold store at 1, modify. unfold ret.
    cbn. reflexivity.
  - cbn. split.
    { intro k. unfold upd.
      destruct (k =? 4) eqn:E4; [apply Z.eqb_eq in E4; subst k; reflexivity|].
      destruct (k =? 3) eqn:E3; [apply Z.eqb_eq in E3; subst k; reflexivity|].
      destruct (k =? 2) eqn:E2; [apply Z.eqb_eq in E2; subst k; reflexivity|].
      destruct (k =? 1) eqn:E1; [apply Z.eqb_eq in E1; subst k; reflexivity|].
      apply Z.eqb_neq in E1, E2, E3, E4.
      destruct ((1 <=? k) && (k <=? 4)) eqn:E; [|reflexivity].
      apply andb_true_iff in E. destruct E as [Ea Eb].
      apply Z.leb_le in Ea, Eb. lia. }
    split; [intro k; reflexivity|].
    split; [intros x Hx; unfold upd; apply Z.eqb_neq in Hx; now rewrite Hx|].
    repeat split.
Qed.

(** X19: [storage_init] on a blank image and on an initialised one.  When the
    bits of blocks 1 to 4 and of inode 0 are clear (and the store has more
    than four blocks), [storage_init] marks blocks 1 to 4 used and no other,
    takes inode 0 and no other, and leaves it as the root directory: one
    link, mode 040755, size 0, its entries in block 4; no other inode and
    no block content changes.  A second [storage_init] changes nothing. *)
Theorem storage_init_creates_root (s : fs) :
  4 < BLOCK_COUNT ->
  (forall k, 1 <= k <= 4 -> blocks_bitmap s k = false) ->
  inode_bitmap s 0 = false ->
  let t := exec storage_init s in
  (forall k, blocks_bitmap t k
             = if (1 <=? k) && (k <=? 4) then true else blocks_bitmap s k)
  /\ (forall k, inode_bitmap t k = if k =? 0 then true else inode_bitmap s k)
  /\ (forall x, x <> 0 -> inodes t x = inodes s x)
  /\ refs (inodes t 0) = 1 /\ mode (inodes t 0) = 16877 /\ size (inodes t 0) = 0
  /\ pointers (inodes t 0) 0 = 4
  /\ blocks t = blocks s
  /\ exec storage_init t = t.
Proof.
  intros Hcount Hclear Hino t.
  destruct (storage_init_run s Hcount Hclear Hino)
    as (t' & E & H1 & H2 & H3 & H4 & H5 & H6 & H7 & H8).
  assert (Et : t = t') by (unfold t, exec; now rewrite E). rewrite Et.
  repeat (split; [assumption|]).
  unfold exec. rewrite storage_init_initialised; [reflexivity | |]; rewrite H1; reflexivity.
Qed.

(** *** Further properties of storage.c: how the operations compose *)

Lemma mknod_created (path : string) (mode0 : Z) (s : fs) :
  path_ok path = true ->
  let pa := eval (path_lookup (fst (split_path path))) s in
  0 <= pa -> wf_dir s pa = true ->
  name_free s pa (base_name path) = true -> put_slot s pa < 64 ->
  path_dirs_ok s path = true -> 0 < next_inode s ->
  let s1 := exec (storage_mknod path mode0) s in
  eval (storage_mknod path mode0) s = 0
  /\ eval (path_lookup path) s1 = next_inode s
  /\ inodes s1 (next_inode s)
     = mk_inode 1 mode0 0 (block (inodes s (next_inode s)))
                (upd (pointers (inodes s (next_inode s))) 0 (next_block s))
  /\ inode_bitmap s1 = upd (inode_bitmap s) (next_inode s) true.
Proof.
  intros Hok pa Hpa Hwf Hfree Hroom Hdirs Hc s1.
  pose proof (rt_s1 path mode0 [] s) as H1. feed H1. destruct H1 as [Es1 Hret].
  pose proof (rt_s1_path path mode0 [] s) as H2. feed H2.
  pose proof (rt_s1_inode path mode0 [] s) as H3. feed H3.
  pose proof (rt_sb path mode0 [] s) as H4. feed H4. destruct H4 as (H4 & _).
  repeat (split; [assumption|]).
  unfold s1. rewrite Es1.
  destruct (put_image_bitmaps
              (exec (store (next_inode s) (set_size 0))
                 (exec (store (next_inode s) (set_mode mode0))
                    (exec (store (next_inode s) (set_refs 1)) (exec alloc_inode s))))
              pa (base_name path) (next_inode s)) as [_ Hb].
  fold pa. rewrite Hb. exact H4.
Qed.

(** X20: create, then stat.  Let the parent of the path resolve to a
    well-formed directory that has no allocated entry of the path's last
    name and a slot for it among the first 64, the directories on the way
    being allocated inodes with their entries in data blocks marked used,
    and let an inode other than the root's be free.  Then [storage_mknod]
    returns 0; afterwards the path resolves to the inode that was the first
    free one, whose bit is now set; [storage_stat] returns 0 with link
    count 1, the given mode and size 0; and a second [storage_mknod] of the
    path returns [-EEXIST] and changes nothing. *)
Theorem storage_mknod_then_stat (path : string) (mode0 mode1 : Z) (s : fs)
    (st : stat_t) :
  path_ok path = true ->
  let pa := eval (path_lookup (fst (split_path path))) s in
  0 <= pa -> wf_dir s pa = true ->
  name_free s pa (base_name path) = true -> put_slot s pa < 64 ->
  path_dirs_ok s path = true -> 0 < next_inode s ->
  let s1 := exec (storage_mknod path mode0) s in
  eval (storage_mknod path mode0) s = 0
  /\ eval (path_lookup path) s1 = next_inode s
  /\ inode_bitmap s1 (next_inode s) = true
  /\ eval (storage_stat path st) s1 = (0, mk_stat 1 (to_mode_t mode0) 0)
  /\ storage_mknod path mode1 s1 = (- EEXIST, s1).
Proof.
  intros Hok pa Hpa Hwf Hfree Hroom Hdirs Hc s1.
  destruct (mknod_created path mode0 s Hok Hpa Hwf Hfree Hroom Hdirs Hc)
    as (H1 & H2 & H3 & H4).
  fold s1 in H2, H3, H4.
  split; [exact H1|]. split; [exact H2|].
  split; [rewrite H4; apply upd_same|]. split.
  - rewrite storage_stat_found by (rewrite H2; exact Hc).
    rewrite H2, H3. cbn [refs mode size]. now rewrite to_size_t_one.
  - unfold storage_mknod, bind at 1.
    rewrite (readonly_run _ (readonly_path_lookup path) s1), H2.
    replace (next_inode s =? -1) with false by (symmetry; apply Z.eqb_neq; lia).
    reflexivity.
Qed.

(** X21: create, write, stat.  Under the conditions of the round trip (room
    in the directory, a free inode other than the root's, a free block for
    the inode and for every extent of the buffer), after [storage_mknod] and
    [storage_write] of a buffer at offset 0, [storage_stat] returns 0 with
    link count 1, the mode given to [storage_mknod] and the length of the
    buffer as size. *)
Theorem storage_write_then_stat (path : string) (mode0 : Z) (B : list byte)
    (s : fs) (st : stat_t) :
  let len := Z.of_nat (List.length B) in
  let pa := eval (path_lookup (fst (split_path path))) s in
  path_ok path = true ->
  0 <= pa -> wf_dir s pa = true ->
  name_free s pa (base_name path) = true -> put_slot s pa < 64 ->
  path_dirs_ok s path = true -> reserved_marked s = true ->
  0 < next_inode s ->
  1 + len / BLOCK_SIZE + (if 2 <=? len / BLOCK_SIZE then 1 else 0)
    <= Z.of_nat (free_blocks s) ->
  (2 <= len / BLOCK_SIZE -> block (inodes s (next_inode s)) = 0) ->
  len <= INT_MAX ->
  let s1 := exec (storage_mknod path mode0) s in
  let s2 := exec (storage_write path B len 0) s1 in
  eval (storage_stat path st) s2 = (0, mk_stat 1 (to_mode_t mode0) len).
Proof.
  intros len pa Hok Hpa Hwf Hfree Hroom Hdirs _ Hc Hblocks Hstale Hlen s1 s2.
  destruct (mknod_created path mode0 s Hok Hpa Hwf Hfree Hroom Hdirs Hc)
    as (_ & H2 & H3 & _).
  fold s1 in H2, H3.
  pose proof (rt_write_run path mode0 B s) as Hw. feed Hw.
  destruct Hw as (s2' & Ew & Hp & Hsz & _).
  fold s1 len in Ew, Hp, Hsz.
  assert (E2 : s2 = s2') by (unfold s2, exec; now rewrite Ew).
  assert (Hres : 0 < eval (path_lookup path) s1) by (rewrite H2; exact Hc).
  assert (Hl : 0 <= len <= INT_MAX) by (unfold len; lia).
  destruct (storage_write_frame path B len 0 s1 Hres Hl) as (_ & _ & W3 & W4 & _).
  fold s2 in W3, W4. rewrite H2 in W3, W4.
  rewrite storage_stat_found by (rewrite E2, Hp; exact Hc).
  rewrite E2, Hp, Hsz. rewrite <- E2, W3, W4, H3. cbn [refs mode].
  now rewrite to_size_t_one.
Qed.

(** *** Create, then remove *)

Section CreateRemove.

Variables (path : string) (mode0 : Z) (s : fs).

Hypothesis Hok : path_ok path = true.

Let pa := eval (path_lookup (fst (split_path path))) s.
Let nm := base_name path.
Let c := next_inode s.

Hypothesis Hpa : 0 <= pa.
Hypothesis Hwf : wf_dir s pa = true.
Hypothesis Hfree : name_free s pa nm = true.
Hypothesis Hroom : put_slot s pa < 64.
Hypothesis Hdirs : path_dirs_ok s path = true.
Hypothesis Hc : 0 < c.

Let sb := exec (store c (set_size 0))
            (exec (store c (set_mode mode0))
               (exec (store c (set_refs 1)) (exec alloc_inode s))).
Let s1 := exec (storage_mknod path mode0) s.
Let s2 := exec (storage_unlink path) s1.
Let slot := put_slot s pa.
























End CreateRemove.


(** *** Rename *)

(** Exactly one of the 64 entries that [directory_lookup] reads in [d] is an
    allocated entry named [nm]. *)
Definition name_once (s : fs) (d : Z) (nm : string) : bool :=
  Nat.eqb (List.length (filter (fun i => visible (entry_at s d i) nm) (iota 0 64))) 1.

(** Resolving the components [comps] from the root does not go through
    inode [n]: no lookup on the way returns it. *)
Definition not_on_way (s : fs) (comps : list string) (n : Z) : bool :=
  forallb (fun dc => negb (eval (directory_lookup (fst dc) (snd dc)) s =? n))
          (walk_trace s comps 0).

Lemma in_iota lo n x : In x (iota lo n) <-> lo <= x < lo + Z.of_nat n.
Proof.
  revert lo; induction n as [|n IH]; intro lo; cbn [iota In].
  - split; [tauto | lia].
  - rewrite IH. split; [intros [<- | H]; lia|].
    intro H. destruct (Z.eq_dec lo x); [now left | right; lia].
Qed.

Lemma filter_single (f : Z -> bool) lo n k :
  List.length (filter f (iota lo n)) = 1%nat ->
  lo <= k < lo + Z.of_nat n -> f k = true ->
  forall i, lo <= i < lo + Z.of_nat n -> i <> k -> f i = false.
Proof.
  revert lo; induction n as [|n IH]; intros lo Hlen Hk Hfk i Hi Hne; [lia|].
  cbn [iota filter] in Hlen. destruct (f lo) eqn:Elo.
  - cbn [List.length] in Hlen.
    assert (Hnil : filter f (iota (lo + 1) n) = []).
    { destruct (filter f (iota (lo + 1) n)); [reflexivity | discriminate]. }
    assert (Hnone : forall j, lo + 1 <= j < lo + 1 + Z.of_nat n -> f j = false).
    { intros j Hj. destruct (f j) eqn:Ej; [|reflexivity].
      assert (Hin : In j (filter f (iota (lo + 1) n))).
      { apply filter_In. split; [apply in_iota; lia | exact Ej]. }
      rewrite Hnil in Hin. destruct Hin. }
    destruct (Z.eq_dec k lo) as [->|Hk'].
    + apply Hnone. lia.
    + rewrite Hnone in Hfk by lia. discriminate.
  - destruct (Z.eq_dec i lo) as [->|Hi']; [exact Elo|].
    destruct (Z.eq_dec k lo) as [->|Hk']; [congruence|].
    apply (IH (lo + 1)); auto; lia.
Qed.

Lemma name_once_spec s d nm k :
  name_once s d nm = true -> 0 <= k < 64 -> visible (entry_at s d k) nm = true ->
  forall i, 0 <= i < 64 -> i <> k -> visible (entry_at s d i) nm = false.
Proof.
  unfold name_once. intros Hlen Hk Hv i Hi Hne. apply Nat.eqb_eq in Hlen.
  apply (filter_single (fun i => visible (entry_at s d i) nm) 0 64 k Hlen); auto; lia.
Qed.

Section Rename.

Variables (from to : string) (s : fs).

Hypothesis Hfrom : path_ok from = true.
Hypothesis Hto : path_ok to = true.

Let ib := eval (path_lookup from) s.
Let pa := eval (path_lookup (fst (split_path to))) s.
Let pb := eval (path_lookup (fst (split_path from))) s.
Let nA := base_name to.
Let nB := base_name from.

Hypothesis Hib : 0 < ib.
Hypothesis Hrefs : 1 <= refs (inodes s ib).
Hypothesis Hpa : pa <> -1.
Hypothesis Hwfa : wf_dir s pa = true.
Hypothesis Hfree : name_free s pa nA = true.
Hypothesis Hroom : put_slot s pa < 64.
Hypothesis Hwfb : wf_dir s pb = true.
Hypothesis Honce : name_once s pb nB = true.
Hypothesis Hway_to : not_on_way s (parent_dirs to) ib = true.
Hypothesis Hway_from : not_on_way s (parent_dirs from) ib = true.

Let s1 := exec (storage_link to from) s.
Let s2 := exec (storage_unlink from) s1.
Let slot := put_slot s pa.

Lemma rn_s1 : s1 = link_image s pa nA ib /\ eval (storage_link to from) s = 0.
Proof. apply link_s1; assumption. Qed.

Lemma rn_names :
  nonempty nA = true /\ short nA = true /\ nonempty nB = true /\ short nB = true.
Proof.
  destruct (rt_nm to Hto) as [H1 H2]. destruct (rt_nm from Hfrom) as [H3 H4]. auto.
Qed.

Lemma rn_dirents1 blk i :
  b_dirents (blocks s1 blk) i
  = if (blk =? dir_block s pa) && (i =? slot) then mk_dirent nA ib 1
    else b_dirents (blocks s blk) i.
Proof. apply link_s1_dirents; assumption. Qed.

Lemma rn_dir_block1 d : dir_block s1 d = dir_block s d.
Proof. apply link_s1_dir_block; assumption. Qed.

Lemma rn_bitmaps1 :
  inode_bitmap s1 = inode_bitmap s /\ blocks_bitmap s1 = blocks_bitmap s.
Proof. apply link_s1_bitmaps; assumption. Qed.

Lemma rn_inode1 n :
  refs (inodes s1 n) = (if n =? ib then refs (inodes s n) + 1 else refs (inodes s n))
  /\ mode (inodes s1 n) = mode (inodes s n).
Proof.
  destruct rn_s1 as [E _]. rewrite E. unfold link_image.
  destruct (put_image_inode s pa nA ib n) as (H1 & H2 & _). cbv zeta in H1, H2.
  rewrite exec_store. cbn [inodes set_inodes]. unfold upd.
  destruct (n =? ib) eqn:En.
  - apply Z.eqb_eq in En. subst n. cbn [refs mode set_refs]. rewrite H1, H2. auto.
  - rewrite H1, H2. auto.
Qed.

Lemma rn_pb : pb <> -1.
Proof. pose proof (link_pb to from s) as H. feed H. exact H. Qed.

Lemma rn_pb1 : eval (path_lookup (fst (split_path from))) s1 = pb.
Proof.
  rewrite rt_parent by exact Hfrom.
  pose proof (link_s1_walk to from s) as H. feed H.
  unfold s1. rewrite H.
  - now rewrite <- rt_parent.
  - rewrite <- rt_parent by exact Hfrom. exact rn_pb.
Qed.

Lemma rn_slot_b :
  exists k, 0 <= k < dir_entries_count (size (inodes s pb))
            /\ k < 64
            /\ visible (entry_at s pb k) nB = true
            /\ (forall i, 0 <= i < 64 -> i <> k -> visible (entry_at s pb i) nB = false)
            /\ inum (entry_at s pb k) = ib.
Proof.
  pose proof (link_slot_b to from s) as H. feed H.
  destruct H as (k & Hk & Hk64 & Hv & _ & Hi). exists k.
  repeat (split; [assumption|]). split; [|exact Hi].
  apply (name_once_spec s pb nB k Honce); [clear - Hk Hk64; lia | exact Hv].
Qed.

Lemma rn_apart k :
  visible (entry_at s pb k) nB = true -> 0 <= k < 64 ->
  dir_block s pb = dir_block s pa ->
  k <> slot /\ String.eqb nA nB = false.
Proof.
  intros Hv Hk Eb. split.
  - intro Ek. unfold visible in Hv. apply andb_prop in Hv as [_ Hv].
    apply Z.eqb_eq in Hv.
    rewrite (entry_at_same_block s pa pb k Eb), Ek in Hv. unfold slot in Hv.
    rewrite (put_slot_unallocated s pa Hwfa Hroom) in Hv. discriminate.
  - destruct (String.eqb nA nB) eqn:En; [|reflexivity].
    apply String.eqb_eq in En.
    pose proof (name_free_spec s pa nA Hfree k Hk) as Hf.
    rewrite <- (entry_at_same_block s pa pb k Eb), En, Hv in Hf. discriminate.
Qed.

Lemma rn_entry1 d i :
  entry_at s1 d i
  = if (dir_block s d =? dir_block s pa) && (i =? slot) then mk_dirent nA ib 1
    else entry_at s d i.
Proof.
  unfold entry_at. fold (dir_block s1 d) (dir_block s d).
  now rewrite rn_dir_block1, rn_dirents1.
Qed.

Lemma rn_count k :
  0 <= k < dir_entries_count (size (inodes s pb)) ->
  0 <= k < dir_entries_count (size (inodes s1 pb)).
Proof.
  intro Hk. pose proof (link_s1_inode to from s Hto Hib pb) as (_ & _ & Hs).
  fold s1 pa in Hs. rewrite Hs.
  destruct ((pb =? pa) && put_appends s pa) eqn:E; [|exact Hk].
  apply andb_prop in E as [E1 E2]. apply Z.eqb_eq in E1.
  destruct (append_grows s pa Hwfa E2 Hroom) as (_ & _ & H1 & _).
  cbv zeta in H1. rewrite E1 in *. rewrite H1. clear - Hk. lia.
Qed.

Lemma rn_s2 :
  exists k,
    0 <= k < 64
    /\ visible (entry_at s pb k) nB = true
    /\ (forall i, 0 <= i < 64 -> i <> k -> visible (entry_at s pb i) nB = false)
    /\ inum (entry_at s pb k) = ib
    /\ (dir_block s pb = dir_block s pa -> k <> slot /\ String.eqb nA nB = false)
    /\ s2 = exec (store_dirent (dir_block s pb) k
                    (set_input_allocation 0 (entry_at s pb k)))
              (exec (store ib (set_refs (refs (inodes s ib)))) s1)
    /\ eval (storage_unlink from) s1 = 0.
Proof.
  destruct rn_slot_b as (k & Hk & Hk64 & Hv & Honly & Hi). exists k.
  assert (Hk0 : 0 <= k < 64) by (clear - Hk Hk64; lia).
  pose proof (rn_apart k Hv Hk0) as Hapart.
  destruct rn_names as (_ & HsA & _ & _).
  assert (Hsame : entry_at s1 pb k = entry_at s pb k).
  { rewrite rn_entry1.
    destruct (dir_block s pb =? dir_block s pa) eqn:Eb; [|reflexivity].
    apply Z.eqb_eq in Eb. destruct (Hapart Eb) as [Hne _].
    apply Z.eqb_neq in Hne. now rewrite Hne. }
  assert (Hrun : storage_unlink from s1 = delete_found (dir_block s pb) k s1).
  { unfold storage_unlink. rewrite (rt_split from Hfrom). fold nB.
    unfold bind. rewrite (readonly_run _ (readonly_path_lookup _) s1), rn_pb1.
    unfold get_inode. rewrite <- (rn_dir_block1 pb).
    apply directory_delete_first; [now apply rn_count | |].
    - rewrite Hsame, (wf_dir_del_match s pb nB k Hwfb Hk0). exact Hv.
    - intros j Hj. rewrite rn_entry1.
      destruct (dir_block s pb =? dir_block s pa) eqn:Eb.
      + apply Z.eqb_eq in Eb. destruct (Hapart Eb) as [_ Hn].
        destruct (j =? slot); cbn [andb].
        * unfold del_match. rewrite (name_matches_short nA ib 1 nB HsA), Hn.
          reflexivity.
        * rewrite (wf_dir_del_match s pb nB j Hwfb) by (clear - Hj Hk0; lia).
          apply Honly; clear - Hj Hk0; lia.
      + cbn [andb].
        rewrite (wf_dir_del_match s pb nB j Hwfb) by (clear - Hj Hk0; lia).
        apply Honly; clear - Hj Hk0; lia. }
  pose proof (delete_found_keep (dir_block s pb) k s1) as K. cbv zeta in K.
  assert (Hent : b_dirents (blocks s1 (dir_block s pb)) k = entry_at s pb k).
  { rewrite <- (rn_dir_block1 pb), entry_at_def. exact Hsame. }
  rewrite Hent, Hi in K.
  destruct (rn_inode1 ib) as [Hr _]. rewrite Z.eqb_refl in Hr. rewrite Hr in K.
  replace (refs (inodes s ib) + 1 - 1) with (refs (inodes s ib)) in K
    by (clear; lia).
  specialize (K ltac:(clear - Hrefs; lia)).
  repeat (split; [assumption|]).
  unfold s2, exec at 1, eval. rewrite Hrun, K. now split.
Qed.

Section Moved.

Variable k : Z.

Hypothesis Hk : 0 <= k < 64.
Hypothesis Hv : visible (entry_at s pb k) nB = true.
Hypothesis Honly :
  forall i, 0 <= i < 64 -> i <> k -> visible (entry_at s pb i) nB = false.
Hypothesis Hinum : inum (entry_at s pb k) = ib.
Hypothesis Hapart :
  dir_block s pb = dir_block s pa -> k <> slot /\ String.eqb nA nB = false.
Hypothesis Hs2 :
  s2 = exec (store_dirent (dir_block s pb) k
               (set_input_allocation 0 (entry_at s pb k)))
         (exec (store ib (set_refs (refs (inodes s ib)))) s1).

Lemma rn_dirents2 blk i :
  b_dirents (blocks s2 blk) i
  = if (blk =? dir_block s pb) && (i =? k)
    then set_input_allocation 0 (entry_at s pb k)
    else if (blk =? dir_block s pa) && (i =? slot) then mk_dirent nA ib 1
         else b_dirents (blocks s blk) i.
Proof.
  rewrite Hs2. unfold store_dirent. rewrite exec_modify. cbn [blocks set_blocks].
  rewrite exec_store. cbn [blocks set_inodes]. unfold upd.
  destruct (blk =? dir_block s pb) eqn:Eb; cbn [andb].
  - apply Z.eqb_eq in Eb. subst blk. cbn [b_dirents set_b_dirents]. unfold upd.
    destruct (i =? k); [reflexivity|]. apply rn_dirents1.
  - apply rn_dirents1.
Qed.

Lemma rn_dir_block2 d : dir_block s2 d = dir_block s d.
Proof.
  rewrite <- rn_dir_block1. unfold dir_block. rewrite Hs2.
  unfold store_dirent. rewrite exec_modify. cbn [inodes set_blocks].
  rewrite exec_store. cbn [inodes set_inodes]. unfold upd.
  destruct (d =? ib) eqn:E; [apply Z.eqb_eq in E; subst d|]; reflexivity.
Qed.

Lemma rn_bitmaps2 :
  inode_bitmap s2 = inode_bitmap s /\ blocks_bitmap s2 = blocks_bitmap s.
Proof.
  destruct rn_bitmaps1 as [H1 H2]. rewrite <- H1, <- H2, Hs2. now split.
Qed.

Lemma rn_inode2 n :
  refs (inodes s2 n) = refs (inodes s n) /\ mode (inodes s2 n) = mode (inodes s n).
Proof.
  destruct (rn_inode1 n) as [H1 H2]. rewrite Hs2.
  unfold store_dirent. rewrite exec_modify. cbn [inodes set_blocks].
  rewrite exec_store. cbn [inodes set_inodes]. unfold upd.
  destruct (n =? ib) eqn:E.
  - apply Z.eqb_eq in E. subst n. cbn [refs mode set_refs]. now rewrite H2.
  - now rewrite H1, H2.
Qed.

Lemma rn_lookup_kept d cn :
  eval (directory_lookup d cn) s <> -1 ->
  eval (directory_lookup d cn) s <> ib ->
  eval (directory_lookup d cn) s2 = eval (directory_lookup d cn) s.
Proof.
  unfold eval. rewrite !directory_lookup_run. cbn [fst].
  destruct (String.eqb "" cn) eqn:Ecn; [reflexivity|].
  rewrite rn_dir_block2. intros Hfound Hnot.
  destruct (lookup_entries_found 64 _ cn 0 _ eq_refl Hfound)
    as (j & Hj & Hvj & Hfirst & Hij).
  assert (Hj64 : 0 <= j < 64) by (clear - Hj; lia).
  rewrite <- Hij in Hnot.
  destruct rn_names as (_ & HsA & _ & _).
  assert (Hnew : dir_block s d = dir_block s pa -> String.eqb nA cn = false).
  { intro Eb. destruct (String.eqb nA cn) eqn:En; [|reflexivity].
    apply String.eqb_eq in En.
    pose proof (name_free_spec s pa nA Hfree j Hj64) as Hf.
    unfold entry_at in Hf. fold (dir_block s pa) in Hf.
    rewrite <- Eb, En, Hvj in Hf. discriminate. }
  rewrite <- Hij.
  rewrite (lookup_entries_first 64 _ cn 0 j); [| exact Hj | |].
  - rewrite rn_dirents2.
    destruct ((dir_block s d =? dir_block s pb) && (j =? k)) eqn:E1.
    { exfalso. apply andb_prop in E1 as [Ea Eb]. apply Z.eqb_eq in Ea, Eb.
      subst j. apply Hnot. rewrite Ea, entry_at_def. exact Hinum. }
    destruct ((dir_block s d =? dir_block s pa) && (j =? slot)) eqn:E2; [|reflexivity].
    exfalso. apply andb_prop in E2 as [Ea Eb]. apply Z.eqb_eq in Ea, Eb. subst j.
    unfold visible in Hvj. apply andb_prop in Hvj as [_ Hvj]. apply Z.eqb_eq in Hvj.
    rewrite Ea, entry_at_def in Hvj. unfold slot in Hvj.
    rewrite (put_slot_unallocated s pa Hwfa Hroom) in Hvj. discriminate.
  - rewrite rn_dirents2.
    destruct ((dir_block s d =? dir_block s pb) && (j =? k)) eqn:E1.
    { exfalso. apply andb_prop in E1 as [Ea Eb]. apply Z.eqb_eq in Ea, Eb.
      subst j. apply Hnot. rewrite Ea, entry_at_def. exact Hinum. }
    destruct ((dir_block s d =? dir_block s pa) && (j =? slot)) eqn:E2; [|exact Hvj].
    exfalso. apply andb_prop in E2 as [Ea Eb]. apply Z.eqb_eq in Ea, Eb. subst j.
    unfold visible in Hvj. apply andb_prop in Hvj as [_ Hvj]. apply Z.eqb_eq in Hvj.
    rewrite Ea, entry_at_def in Hvj. unfold slot in Hvj.
    rewrite (put_slot_unallocated s pa Hwfa Hroom) in Hvj. discriminate.
  - intros i Hi. rewrite rn_dirents2.
    destruct ((dir_block s d =? dir_block s pb) && (i =? k)).
    { unfold visible. cbn. apply andb_false_r. }
    destruct ((dir_block s d =? dir_block s pa) && (i =? slot)) eqn:E2;
      [|now apply Hfirst].
    apply andb_prop in E2 as [Ea _]. apply Z.eqb_eq in Ea.
    unfold visible. rewrite (name_matches_short nA ib 1 cn HsA), (Hnew Ea). reflexivity.
Qed.

Lemma rn_walk comps :
  eval (path_lookup_walk comps 0) s <> -1 ->
  not_on_way s comps ib = true ->
  eval (path_lookup_walk comps 0) s2 = eval (path_lookup_walk comps 0) s.
Proof.
  intros Hres Hway. apply walk_frame.
  pose proof (walk_trace_success comps 0 s Hres) as Hok.
  unfold not_on_way in Hway. rewrite forallb_forall in Hway.
  rewrite Forall_forall in *. intros dc Hin.
  apply rn_lookup_kept; [now apply Hok|].
  specialize (Hway dc Hin). apply negb_true_iff, Z.eqb_neq in Hway. exact Hway.
Qed.

Lemma rn_to : eval (path_lookup to) s2 = ib.
Proof.
  assert (Hp : eval (path_lookup (fst (split_path to))) s2 = pa).
  { rewrite rt_parent by exact Hto. rewrite rn_walk; [| |exact Hway_to];
      rewrite <- rt_parent by exact Hto; [reflexivity | exact Hpa]. }
  rewrite rt_full; rewrite ?Hp; [|exact Hto | exact Hpa].
  fold nA. unfold eval. rewrite directory_lookup_run. cbn [fst].
  destruct rn_names as (HnA & HsA & _ & _).
  unfold nonempty in HnA. rewrite String.eqb_sym in HnA.
  apply negb_true_iff in HnA. rewrite HnA, rn_dir_block2.
  pose proof (put_slot_range s pa Hwfa) as Hr. fold slot in Hr.
  assert (Hfirst : (dir_block s pa =? dir_block s pb) && (slot =? k) = false).
  { destruct (dir_block s pa =? dir_block s pb) eqn:Eb; [|reflexivity].
    apply Z.eqb_eq in Eb. symmetry in Eb. destruct (Hapart Eb) as [Hne _].
    cbn [andb]. apply Z.eqb_neq. congruence. }
  rewrite (lookup_entries_first 64 _ nA 0 slot).
  - now rewrite rn_dirents2, Hfirst, !Z.eqb_refl.
  - unfold slot in *. clear - Hr Hroom. lia.
  - rewrite rn_dirents2, Hfirst, !Z.eqb_refl. cbn [andb]. unfold visible.
    rewrite (name_matches_short nA ib 1 nA HsA), String.eqb_refl. reflexivity.
  - intros i Hi. rewrite rn_dirents2.
    destruct ((dir_block s pa =? dir_block s pb) && (i =? k)).
    { unfold visible. cbn. apply andb_false_r. }
    replace (i =? slot) with false by (symmetry; apply Z.eqb_neq; clear - Hi; lia).
    rewrite andb_false_r, entry_at_def.
    apply (name_free_spec s pa nA Hfree). unfold slot in Hi. clear - Hi Hroom. lia.
Qed.

Lemma rn_from : eval (path_lookup from) s2 = -1.
Proof.
  assert (Hp : eval (path_lookup (fst (split_path from))) s2 = pb).
  { rewrite rt_parent by exact Hfrom. rewrite rn_walk; [| |exact Hway_from];
      rewrite <- rt_parent by exact Hfrom; [reflexivity | exact rn_pb]. }
  rewrite rt_full; rewrite ?Hp; [|exact Hfrom | exact rn_pb].
  fold nB. unfold eval. rewrite directory_lookup_run. cbn [fst].
  destruct rn_names as (_ & HsA & HnB & _).
  unfold nonempty in HnB. rewrite String.eqb_sym in HnB.
  apply negb_true_iff in HnB. rewrite HnB, rn_dir_block2.
  apply lookup_entries_none. intros i Hi. rewrite rn_dirents2, Z.eqb_refl.
  cbn [andb]. destruct (i =? k) eqn:Ei.
  { unfold visible. cbn. apply andb_false_r. }
  apply Z.eqb_neq in Ei.
  destruct (dir_block s pb =? dir_block s pa) eqn:Eb.
  - apply Z.eqb_eq in Eb. destruct (Hapart Eb) as [_ Hn]. cbn [andb].
    destruct (i =? slot).
    + unfold visible. rewrite (name_matches_short nA ib 1 nB HsA), Hn. reflexivity.
    + rewrite entry_at_def. apply Honly; [clear - Hi; lia | exact Ei].
  - cbn [andb]. rewrite entry_at_def. apply Honly; [clear - Hi; lia | exact Ei].
Qed.

End Moved.

Lemma rn_result :
  eval (storage_rename from to) s = 0
  /\ exec (storage_rename from to) s = s2
  /\ eval (path_lookup to) s2 = ib
  /\ eval (path_lookup from) s2 = -1
  /\ (forall n, refs (inodes s2 n) = refs (inodes s n)
                /\ mode (inodes s2 n) = mode (inodes s n))
  /\ inode_bitmap s2 = inode_bitmap s
  /\ blocks_bitmap s2 = blocks_bitmap s.
Proof.
  destruct rn_s1 as [_ Hl].
  destruct rn_s2 as (k & Hk & Hv & Honly & Hinum & Hapart & Hs2 & Hu).
  assert (Hrun : storage_rename from to s = storage_unlink from s1).
  { unfold storage_rename, bind. rewrite (run_pair (storage_link to from) s), Hl.
    reflexivity. }
  split; [unfold eval; rewrite Hrun; exact Hu|].
  split; [unfold exec at 1; now rewrite Hrun|].
  pose proof (rn_to k) as T1. feed T1.
  pose proof (rn_from k) as T2. feed T2.
  split; [exact T1|]. split; [exact T2|].
  pose proof (rn_inode2 k) as T3. feed T3.
  pose proof (rn_bitmaps2 k) as T4. feed T4.
  split; [exact T3 | exact T4].
Qed.

End Rename.

(** X23: rename.  Both paths are made of components shorter than
    [DIR_NAME_LENGTH] and, but for a leading empty one, not empty.  Let
    [from] resolve to an inode number between 1 and [BLOCK_COUNT - 1] with
    at least one link, through the only allocated entry of its name in its
    parent (a well-formed directory); let the parent of [to] resolve to a
    well-formed directory with no allocated entry of [to]'s last name and a
    slot for it among the first 64; let the inode not be a directory on the
    way to either parent; let the directories on the way to both parents,
    and the parents, be allocated inodes with their entries in data blocks
    marked used, and the blocks reserved for the bitmaps and the inode
    table be marked used.  Then [storage_rename from to] returns 0; afterwards
    [to] resolves to the inode and [from] no longer resolves; the link count
    and the mode of every inode and both bitmaps are as before. *)
Theorem storage_rename_moves (from to : string) (s : fs) :
  path_ok from = true -> path_ok to = true ->
  let ib := eval (path_lookup from) s in
  let pa := eval (path_lookup (fst (split_path to))) s in
  let pb := eval (path_lookup (fst (split_path from))) s in
  0 < ib -> 1 <= refs (inodes s ib) ->
  pa <> -1 -> wf_dir s pa = true ->
  name_free s pa (base_name to) = true -> put_slot s pa < 64 ->
  wf_dir s pb = true -> name_once s pb (base_name from) = true ->
  not_on_way s (parent_dirs to) ib = true ->
  not_on_way s (parent_dirs from) ib = true ->
  ib < BLOCK_COUNT ->
  path_dirs_ok s to = true -> path_dirs_ok s from = true ->
  reserved_marked s = true ->
  let s2 := exec (storage_rename from to) s in
  eval (storage_rename from to) s = 0
  /\ eval (path_lookup to) s2 = ib
  /\ eval (path_lookup from) s2 = -1
  /\ (forall n, refs (inodes s2 n) = refs (inodes s n)
                /\ mode (inodes s2 n) = mode (inodes s n))
  /\ inode_bitmap s2 = inode_bitmap s
  /\ blocks_bitmap s2 = blocks_bitmap s.
Proof.
  intros Hfrom Hto ib pa pb Hib Hrefs Hpa Hwfa Hfree Hroom Hwfb Honce Hw1 Hw2
    _ _ _ _ s2.
  pose proof (rn_result from to s) as H. feed H.
  destruct H as (H1 & H2 & H3 & H4 & H5 & H6 & H7).
  unfold s2. rewrite H2.
  repeat (split; [assumption|]). assumption.
Qed.



End Properties.


(** ** The properties on the concrete layout *)

(** From here on the layout is [nufs] and the images are the scenarios
    defined before the properties. *)

Local Open Scope string_scope.

(** C1, an instance: a new file [/a] on the fresh image takes the three
    extents of [long_buf] and gives them back. *)
Lemma write_read_roundtrip_witness :
  eval (storage_mknod "/a" file_mode) fresh_image = 0
  /\ eval (storage_write "/a" long_buf 8200 0)
          (exec (storage_mknod "/a" file_mode) fresh_image) = Some 8200
  /\ storage_read "/a" 8200 0
       (exec (storage_write "/a" long_buf 8200 0)
             (exec (storage_mknod "/a" file_mode) fresh_image))
     = (Some (8200, long_buf),
        exec (storage_write "/a" long_buf 8200 0)
             (exec (storage_mknod "/a" file_mode) fresh_image)).
Proof.
  apply (write_read_roundtrip "/a" file_mode long_buf fresh_image);
    now vm_compute.
Defined.

(** C1 as the specification states it does not hold: when the root
    directory already has 64 entries, [storage_mknod] of one more name
    returns 0 (the entry goes into slot 64, which [directory_lookup] never
    reads), and the write that follows does not find the file. *)
Lemma write_read_full_directory :
  ~ (forall (path : string) (mode0 : Z) (B : list byte) (s : fs),
       eval (storage_mknod path mode0) s = 0 ->
       eval (storage_write path B (Z.of_nat (List.length B)) 0)
            (exec (storage_mknod path mode0) s)
       = Some (Z.of_nat (List.length B))
       /\ eval (storage_read path (Z.of_nat (List.length B)) 0)
               (exec (storage_write path B (Z.of_nat (List.length B)) 0)
                     (exec (storage_mknod path mode0) s))
          = Some (Z.of_nat (List.length B), B)).
Proof.
  intro H. destruct (H "/z"%string file_mode hello crowded_image) as [Hw _].
  - now vm_compute.
  - vm_compute in Hw. discriminate Hw.
Qed.

(** The same for the block store: on an image with no free block a new file
    gets block number -1 for every extent, so that the second block of a
    buffer lands on the first; what is read back is not what was written. *)
Lemma write_read_full_disk :
  free_blocks full_disk_image = 0%nat
  /\ eval (storage_mknod "/a" file_mode) full_disk_image = 0
  /\ eval (storage_write "/a" (repeat "a"%byte (Z.to_nat 4096) ++ ["b"%byte])%list 4097 0)
          (exec (storage_mknod "/a" file_mode) full_disk_image) = Some 4097
  /\ option_map (fun r => (fst r, firstn 2 (snd r)))
       (eval (storage_read "/a" 4097 0)
          (exec (storage_write "/a" (repeat "a"%byte (Z.to_nat 4096) ++ ["b"%byte])%list 4097 0)
                (exec (storage_mknod "/a" file_mode) full_disk_image)))
     = Some (4097, ["b"%byte; "a"%byte]).
Proof. now vm_compute. Qed.

(** C2: the bound of [directory_lookup]'s scan is the constant 64, not the
    directory's size.  (1) The new directory [/e] of [stale_dir_image] has
    size 0, so no entry, and yet the lookup of [f] in it returns inode 2,
    from an entry that the removed directory [/d] left in the block; the
    path [/e/f] resolves.  (2) The 65th file of the root directory is entry
    64 of 65, allocated, and the lookup of its name returns -1. *)
Theorem directory_lookup_fixed_bound :
  (eval (path_lookup "/e") stale_dir_image = 1
   /\ dir_entries_count (size (inodes stale_dir_image 1)) = 0
   /\ eval (directory_lookup 1 "f") stale_dir_image = 2
   /\ fst (eval (storage_stat "/e/f" st0) stale_dir_image) = 0)
  /\ (dir_entries_count
        (size (inodes (exec (storage_mknod "/z" file_mode) crowded_image) 0)) = 65
      /\ name (entry_at (exec (storage_mknod "/z" file_mode) crowded_image) 0 64) = "z"
      /\ input_allocation
           (entry_at (exec (storage_mknod "/z" file_mode) crowded_image) 0 64) = 1
      /\ eval (directory_lookup 0 "z")
              (exec (storage_mknod "/z" file_mode) crowded_image) = -1).
Proof. now vm_compute. Qed.

(** C3: growing [/a] (which holds [hello]) to 10 bytes, cutting it to 5 and
    growing it to 10 again leaves the size at 10, but the cut has released
    block 5, which holds the five bytes to keep, and block 0, and has set
    the file's first block pointer to 0: the bytes in [0, 5) are no longer
    those written. *)
Theorem shrink_inode_frees_kept_extent :
  eval (storage_read "/a" 5 0) hello_image = Some (5, hello)
  /\ pointers (inodes hello_image 1) 0 = 5
  /\ eval (storage_stat "/a" st0) regrown_image = (0, mk_stat 1 file_mode 10)
  /\ pointers (inodes regrown_image 1) 0 = 0
  /\ blocks_bitmap regrown_image 5 = false
  /\ blocks_bitmap hello_image 0 = true
  /\ blocks_bitmap regrown_image 0 = false
  /\ eval (storage_read "/a" 5 0) regrown_image <> Some (5, hello).
Proof. vm_compute. repeat split; discriminate. Qed.



(** C5: [directory_put] never takes slot 0.  In [slot0_free_image] the root
    directory has two entries, the first of them free; the entry for [/c]
    goes to slot 2 and the size grows by one entry, while slot 0 stays
    free. *)
Theorem directory_put_skips_slot_0 :
  dir_entries_count (size (inodes slot0_free_image 0)) = 2
  /\ input_allocation (entry_at slot0_free_image 0 0) = 0
  /\ input_allocation (entry_at slot0_free_image 0 1) = 1
  /\ input_allocation (entry_at (exec (directory_put 0 "c" 1) slot0_free_image) 0 0) = 0
  /\ entry_at (exec (directory_put 0 "c" 1) slot0_free_image) 0 2 = mk_dirent "c" 1 1
  /\ size (inodes (exec (directory_put 0 "c" 1) slot0_free_image) 0)
     = size (inodes slot0_free_image 0) + SIZEOF_DIRENT.
Proof. now vm_compute. Qed.



(** C7, an instance: no entry of the root directory is named [nope]. *)
Lemma directory_delete_not_found_witness :
  directory_delete 0 "nope" hello_image = (- ENOENT, hello_image)
  /\ storage_unlink "/nope" hello_image = (- ENOENT, hello_image).
Proof.
  assert (Hno : ~ names_allocated_entry hello_image 0 "nope").
  { intros (i & Hi & Hm & _).
    change (dir_entries_count (size (inodes hello_image 0))) with 1 in Hi.
    assert (i = 0) by lia. subst i. vm_compute in Hm. discriminate Hm. }
  destruct (directory_delete_not_found hello_image) as [H1 H2].
  split; [apply H1, Hno | apply H2, Hno].
Defined.

(** C8: with every inode in use, [alloc_inode] returns -1, and before that
    it has written [refs], [mode], [size] and a block pointer through
    [get_inode (-1)] and taken a block from the block store for it;
    [storage_mknod] goes on to enter inode number -1 in the directory and
    returns 0. *)
Theorem alloc_inode_exhausted_writes :
  forallb (inode_bitmap full_inodes_image) (iota 0 256) = true
  /\ eval alloc_inode full_inodes_image = -1
  /\ inodes full_inodes_image (-1) = zero_inode
  /\ refs (inodes (exec alloc_inode full_inodes_image) (-1)) = 1
  /\ pointers (inodes (exec alloc_inode full_inodes_image) (-1)) 0 = 5
  /\ blocks_bitmap full_inodes_image 5 = false
  /\ blocks_bitmap (exec alloc_inode full_inodes_image) 5 = true
  /\ eval (storage_mknod "/x" file_mode) full_inodes_image = 0
  /\ eval (path_lookup "/x") (exec (storage_mknod "/x" file_mode) full_inodes_image) = -1.
Proof. now vm_compute. Qed.

(** C9, an instance: [/a] resolves to inode 1, the root to inode 0. *)
Lemma storage_stat_convention_witness :
  eval (storage_stat "/a" st0) hello_image = (0, mk_stat 1 file_mode 5)
  /\ eval (storage_stat "/" st0) hello_image = (-1, st0).
Proof.
  pose proof (storage_stat_convention "/a" st0 hello_image) as H.
  cbv zeta in H. destruct H as (_ & Hpos & _ & Hroot).
  split; [| exact Hroot].
  rewrite Hpos; now vm_compute.
Defined.

(** ** Instances of the further properties *)

(** X1, an instance: [/nope] does not resolve in [hello_image]. *)
Lemma storage_file_ops_not_found_witness :
  storage_truncate "/nope" 7 hello_image = (-1, hello_image)
  /\ storage_read "/nope" 7 0 hello_image = (Some (-1, []), hello_image)
  /\ storage_write "/nope" hello 7 0 hello_image = (Some (-1), hello_image).
Proof. apply (storage_file_ops_not_found "/nope" hello 7 0 hello_image). now vm_compute. Defined.

(** X3, an instance: [/a] is there already. *)
Lemma storage_mknod_exists_witness :
  storage_mknod "/a" dir_mode hello_image = (- EEXIST, hello_image).
Proof. apply (storage_mknod_exists "/a" dir_mode hello_image). now vm_compute. Defined.

(** X4, an instance: there is no directory [/d]. *)
Lemma storage_mknod_no_parent_witness :
  storage_mknod "/d/x" file_mode hello_image = (- ENOENT, hello_image).
Proof. apply (storage_mknod_no_parent "/d/x" file_mode hello_image); now vm_compute. Defined.

(** X5, an instance. *)
Lemma storage_link_rename_not_found_witness :
  storage_link "/c" "/nope" hello_image = (-1, hello_image)
  /\ storage_rename "/nope" "/c" hello_image = (-1, hello_image).
Proof. apply (storage_link_rename_not_found "/nope" "/c" hello_image). now vm_compute. Defined.

(** X6, an instance: on the fresh image inode 0 is the root and inode 1 the
    first free one. *)
Lemma alloc_inode_first_free_witness :
  eval alloc_inode fresh_image = 1
  /\ inode_bitmap (exec alloc_inode fresh_image) 1 = true
  /\ (forall n, n <> 1 ->
        inode_bitmap (exec alloc_inode fresh_image) n = inode_bitmap fresh_image n)
  /\ refs (inodes (exec alloc_inode fresh_image) 1) = 1
  /\ mode (inodes (exec alloc_inode fresh_image) 1) = 0
  /\ size (inodes (exec alloc_inode fresh_image) 1) = 0
  /\ pointers (inodes (exec alloc_inode fresh_image) 1) 0 = eval alloc_block fresh_image
  /\ (forall n, n <> 1 -> inodes (exec alloc_inode fresh_image) n = inodes fresh_image n)
  /\ blocks (exec alloc_inode fresh_image) = blocks fresh_image.
Proof.
  apply (alloc_inode_first_free 1 fresh_image).
  - now vm_compute.
  - now vm_compute.
  - intros n Hn. assert (n = 0) by lia. subst n. now vm_compute.
Defined.


(** X8, an instance: the file of [hello_image] grown to three blocks. *)
Lemma grow_inode_allocates_witness :
  size (inodes (exec (grow_inode 1 8200) hello_image) 1) = 8200
  /\ (forall k, 0 <= k <= 8200 / BLOCK_SIZE ->
        blocks_bitmap (exec (grow_inode 1 8200) hello_image)
          (extent (exec (grow_inode 1 8200) hello_image) 1 k) = true)
  /\ (forall k k', 0 <= k < k' -> k' <= 8200 / BLOCK_SIZE ->
        extent (exec (grow_inode 1 8200) hello_image) 1 k
        <> extent (exec (grow_inode 1 8200) hello_image) 1 k')
  /\ refs (inodes (exec (grow_inode 1 8200) hello_image) 1) = refs (inodes hello_image 1)
  /\ mode (inodes (exec (grow_inode 1 8200) hello_image) 1) = mode (inodes hello_image 1)
  /\ pointers (inodes (exec (grow_inode 1 8200) hello_image) 1) 0
     = pointers (inodes hello_image 1) 0
  /\ (forall x, x <> 1 ->
        inodes (exec (grow_inode 1 8200) hello_image) x = inodes hello_image x)
  /\ (forall b, b_dirents (blocks (exec (grow_inode 1 8200) hello_image) b)
                = b_dirents (blocks hello_image b)
                /\ b_data (blocks (exec (grow_inode 1 8200) hello_image) b)
                   = b_data (blocks hello_image b))
  /\ inode_bitmap (exec (grow_inode 1 8200) hello_image) = inode_bitmap hello_image.
Proof.
  apply (grow_inode_allocates 1 8200 hello_image); now vm_compute.
Defined.

(** X9, an instance. *)
Lemma grow_inode_within_block_witness :
  grow_inode 1 10 hello_image = (0, exec (store 1 (set_size 10)) hello_image).
Proof. apply (grow_inode_within_block 1 10 hello_image). now vm_compute. Defined.

(** X10, an instance: a new name in the root directory of
    [two_files_image]. *)
Lemma directory_put_then_lookup_witness :
  eval (directory_put 0 "c" 7) two_files_image = 0
  /\ eval (directory_lookup 0 "c") (exec (directory_put 0 "c" 7) two_files_image) = 7.
Proof. apply (directory_put_then_lookup 0 "c" 7 two_files_image); now vm_compute. Defined.

(** X11, an instance: [b] is still found after [c] has been entered. *)
Lemma directory_put_keeps_lookup_witness :
  eval (directory_lookup 0 "b") (exec (directory_put 0 "c" 7) two_files_image)
  = eval (directory_lookup 0 "b") two_files_image.
Proof.
  apply (directory_put_keeps_lookup 0 "c" "b" 7 two_files_image);
    first [now vm_compute | discriminate].
Defined.

(** X12, an instance. *)
Lemma path_lookup_through_parent_witness :
  eval (path_lookup "/a") hello_image
  = (let p := eval (path_lookup (fst (split_path "/a"))) hello_image in
     if (p =? -1)%Z then -1
     else eval (directory_lookup p (snd (split_path "/a"))) hello_image).
Proof. apply (path_lookup_through_parent "/a" hello_image). now vm_compute. Defined.

(** X13, an instance. *)
Lemma split_path_fits_witness :
  (String.length (fst (split_path "/d/file")) <= String.length "/d/file")%nat
  /\ (String.length (snd (split_path "/d/file")) <= DIR_NAME_LENGTH)%nat.
Proof. apply (split_path_fits "/d/file"). now vm_compute. Defined.

(** X14, an instance: in [linked_image] the inode of [/b] has two links,
    and entry 2 of the root directory is the first allocated one named
    [a]. *)
Lemma directory_delete_drops_link_witness :
  eval (directory_delete 0 "a") linked_image = 0
  /\ refs (inodes (exec (directory_delete 0 "a") linked_image)
                  (inum (entry_at linked_image 0 2)))
     = refs (inodes linked_image (inum (entry_at linked_image 0 2))) - 1
  /\ inode_bitmap (exec (directory_delete 0 "a") linked_image) = inode_bitmap linked_image
  /\ blocks_bitmap (exec (directory_delete 0 "a") linked_image)
     = blocks_bitmap linked_image
  /\ (forall x, x <> inum (entry_at linked_image 0 2) ->
        inodes (exec (directory_delete 0 "a") linked_image) x = inodes linked_image x)
  /\ input_allocation (entry_at (exec (directory_delete 0 "a") linked_image) 0 2) = 0
  /\ (forall i, i <> 2 ->
        entry_at (exec (directory_delete 0 "a") linked_image) 0 i
        = entry_at linked_image 0 i).
Proof.
  apply (directory_delete_drops_link 0 "a" 2 linked_image); try now vm_compute.
  intros k Hk.
  assert (Hc : k = 0 \/ k = 1) by lia. destruct Hc as [-> | ->]; now vm_compute.
Defined.


(** X16, an instance: [/a], of five bytes, is given ten. *)
Lemma storage_truncate_effect_witness :
  eval (storage_truncate "/a" 10) hello_image = 0
  /\ size (inodes (exec (storage_truncate "/a" 10) hello_image)
                  (eval (path_lookup "/a") hello_image)) = 10.
Proof.
  pose proof (storage_truncate_effect "/a" 10 hello_image) as H.
  cbv zeta in H. destruct H as (H1 & H2 & _).
  - now vm_compute.
  - now vm_compute.
  - now vm_compute.
  - now vm_compute.
  - now vm_compute.
  - intros _. now vm_compute.
  - intros _. now vm_compute.
  - exact (conj H1 H2).
Defined.

(** X17, an instance: five bytes written over the five of [/a]. *)
Lemma storage_write_effect_witness :
  eval (storage_write "/a" hello 5 0) hello_image = Some 5
  /\ inodes (exec (storage_write "/a" hello 5 0) hello_image) = inodes hello_image.
Proof.
  pose proof (storage_write_effect "/a" hello 5 0 hello_image) as H.
  cbv zeta in H. destruct H as (H1 & H2 & _); [now vm_compute ..|].
  exact (conj H1 H2).
Defined.

(** X18, an instance: the root directory with [/a] and [/b]. *)
Lemma directory_list_names_witness :
  directory_list "/" two_files_image
  = (Some (rev (map name
                  (filter (fun e => negb (input_allocation e =? 0)%Z)
                     (map (entry_at two_files_image
                             (eval (path_lookup "/") two_files_image))
                          (iota 0 (Z.to_nat
                             (dir_entries_count
                                (size (inodes two_files_image
                                         (eval (path_lookup "/") two_files_image)))))))))),
     two_files_image).
Proof.
  pose proof (directory_list_names "/" two_files_image) as H.
  cbv zeta in H. destruct H as (H1 & _); [now vm_compute ..|].
  exact H1.
Defined.

(** X19, an instance: the blank image. *)
Lemma storage_init_creates_root_witness :
  mode (inodes (exec storage_init blank_image) 0) = 16877
  /\ pointers (inodes (exec storage_init blank_image) 0) 0 = 4
  /\ exec storage_init (exec storage_init blank_image) = exec storage_init blank_image.
Proof.
  pose proof (storage_init_creates_root blank_image) as H.
  cbv zeta in H.
  destruct H as (_ & _ & _ & _ & H1 & _ & H2 & _ & H3).
  - now vm_compute.
  - intros k Hk. cbn. apply Z.eqb_neq. lia.
  - reflexivity.
  - exact (conj H1 (conj H2 H3)).
Defined.

(** X20, an instance: a third file [/c] beside [/a] and [/b]. *)
Lemma storage_mknod_then_stat_witness :
  eval (storage_mknod "/c" file_mode) two_files_image = 0
  /\ eval (path_lookup "/c") (exec (storage_mknod "/c" file_mode) two_files_image)
     = next_inode two_files_image
  /\ eval (storage_stat "/c" st0) (exec (storage_mknod "/c" file_mode) two_files_image)
     = (0, mk_stat 1 (to_mode_t file_mode) 0)
  /\ storage_mknod "/c" dir_mode (exec (storage_mknod "/c" file_mode) two_files_image)
     = (- EEXIST, exec (storage_mknod "/c" file_mode) two_files_image).
Proof.
  pose proof (storage_mknod_then_stat "/c" file_mode dir_mode two_files_image st0) as H.
  cbv zeta in H. destruct H as (H1 & H2 & _ & H4 & H5); [now vm_compute ..|].
  exact (conj H1 (conj H2 (conj H4 H5))).
Defined.

(** X21, an instance: [hello] written to a new file [/a]. *)
Lemma storage_write_then_stat_witness :
  eval (storage_stat "/a" st0)
       (exec (storage_write "/a" hello (Z.of_nat (List.length hello)) 0)
             (exec (storage_mknod "/a" file_mode) fresh_image))
  = (0, mk_stat 1 (to_mode_t file_mode) (Z.of_nat (List.length hello))).
Proof.
  apply (storage_write_then_stat "/a" file_mode hello fresh_image st0); now vm_compute.
Defined.


(** X23, an instance: [/b] renamed to [/c]. *)
Lemma storage_rename_moves_witness :
  eval (storage_rename "/b" "/c") two_files_image = 0
  /\ eval (path_lookup "/c") (exec (storage_rename "/b" "/c") two_files_image)
     = eval (path_lookup "/b") two_files_image
  /\ eval (path_lookup "/b") (exec (storage_rename "/b" "/c") two_files_image) = -1.
Proof.
  pose proof (storage_rename_moves "/b" "/c" two_files_image) as H.
  cbv zeta in H. destruct H as (H1 & H2 & H3 & _); [now vm_compute ..|].
  exact (conj H1 (conj H2 H3)).
Defined.

